(** * CareerVue: the e-mail watcher and the poller that drives it

    A shallow embedding of [email_watcher.py] (class [EmailWatcher]) and of the
    parts of [home_screen.py] that call it ([run_email_watcher], [delete_job],
    [update_sync_time], [update_status_indicator], [refresh_emails_and_jobs])
    or keep the job list ([add_new_job], [update_job], [add_job_row],
    [update_job_row], [remove_job_row]).

    Python code runs in a state-and-exception monad over a [World]: the rows of
    the [jobs] table, everything logged, printed or slept, the checkpoint file
    and the fields of the watcher object.  What lies outside the two files
    (the IMAP server, the codecs of the [email] package, [json.loads], the
    classifier [analyze_email], SQLite errors) is an [Env] of oracles.

    Choices of the model:
    - a JSON number is an integer; fractions are left out, and so is what
      sqlite3 does with an integer of more than 64 bits, which it refuses
      with an [OverflowError]: statements about verdicts that may carry
      numbers assume [fits_sqlite];
    - a cell of the [jobs] table holds [NULL], an integer or text, as bound;
      the table is declared outside the two files and the affinity of its
      columns is not modelled (it makes no difference on text);
    - the waits of [backoff] are events without a duration, [time.sleep] is an
      event with its seconds;
    - [stop_flag] is only ever set by another thread: it is a field that the
      code here reads and never writes;
    - header values, payloads and file contents are strings;
    - a widget of the job list is the text the code last put into it, and the
      window is a second piece of state beside the world. *)

From Stdlib Require Import List String Ascii ZArith Bool Lia DecimalString.
Import ListNotations.
Local Open Scope string_scope.
Set Warnings "-register-all".

(** ** Exceptions and results *)

(** The exception classes the two files raise, catch or let through.  All of
    them derive from [Exception]. *)
Inductive exn : Type :=
| IMAP4_error
| ConnectionError
| OSError
| sqlite3_Error
| JSONDecodeError
| KeyError (key : string)
| TypeError
| AttributeError (name : string)
| UnboundLocalError (name : string)
| IndexError
| LookupError
| ValueError
| FileNotFoundError.

Inductive result (A : Type) : Type :=
| Return (a : A)
| Raise (e : exn).
Arguments Return {A} a.
Arguments Raise {A} e.

(** ** JSON documents as [json.loads] builds them *)

Inductive json : Type :=
| JNull
| JBool (b : bool)
| JNum (n : Z)
| JStr (s : string)
| JArr (items : list json)
| JObj (fields : list (string * json)).

(** [bool(v)]: the truth value Python gives a parsed JSON value. *)
Definition truthy (v : json) : bool :=
  match v with
  | JNull => false
  | JBool b => b
  | JNum n => negb (n =? 0)%Z
  | JStr s => negb (s =? "")
  | JArr items => match items with [] => false | _ => true end
  | JObj fields => match fields with [] => false | _ => true end
  end.

Fixpoint lookup_field (key : string) (fields : list (string * json)) : option json :=
  match fields with
  | [] => None
  | (k, v) :: rest => if k =? key then Some v else lookup_field key rest
  end.

(** [v[key]] for a string key: a dict looks the key up, every other JSON value
    refuses a string subscript. *)
Definition subscript (v : json) (key : string) : result json :=
  match v with
  | JObj fields =>
      match lookup_field key fields with
      | Some x => Return x
      | None => Raise (KeyError key)
      end
  | _ => Raise TypeError
  end.

(** ** SQLite values *)

Inductive sql_value : Type :=
| SqlNull
| SqlInteger (n : Z)
| SqlText (s : string).

(** Binding a Python value to a [?]: lists and dicts are refused with an
    [sqlite3.Error]; [bool] is an [int].  An integer is bound whatever its
    size: the [OverflowError] of one outside 64 bits is not modelled. *)
Definition sql_bind (v : json) : option sql_value :=
  match v with
  | JNull => Some SqlNull
  | JBool b => Some (SqlInteger (if b then 1 else 0))
  | JNum n => Some (SqlInteger n)
  | JStr s => Some (SqlText s)
  | JArr _ | JObj _ => None
  end.

(** [a = b] in a [WHERE] clause: true only for two equal values that are not
    [NULL]. *)
Definition sql_eqb (a b : sql_value) : bool :=
  match a, b with
  | SqlInteger n, SqlInteger m => (n =? m)%Z
  | SqlText s, SqlText t => s =? t
  | _, _ => false
  end.

Definition sql_text (v : sql_value) : option string :=
  match v with
  | SqlNull => None
  | SqlInteger n => Some (NilZero.string_of_int (Z.to_int n))
  | SqlText s => Some s
  end.

(** [a || b]: [NULL] when either side is. *)
Definition sql_concat (a b : sql_value) : sql_value :=
  match sql_text a, sql_text b with
  | Some s, Some t => SqlText (s ++ t)
  | _, _ => SqlNull
  end.

(** [job_data["status"] != current_status], the left side a parsed JSON value,
    the right side what [fetchone] read from the row. *)
Definition py_ne (v : json) (cell : sql_value) : bool :=
  match v, cell with
  | JNull, SqlNull => false
  | JBool b, SqlInteger n => negb (n =? (if b then 1 else 0))%Z
  | JNum m, SqlInteger n => negb (m =? n)%Z
  | JStr s, SqlText t => negb (s =? t)
  | _, _ => true
  end.

(** ** Dates *)

Record datetime : Type := mk_datetime {
  year : Z; month : Z; day : Z; hour : Z; minute : Z; second : Z
}.

(** ** E-mail messages

    [content_type] is what [get_content_type()] answers and [content_charset]
    what [get_content_charset()] answers; a leaf carries the bytes
    [get_payload(decode=True)] gives, a multipart message its sub-parts. *)
Inductive Message : Type :=
| Leaf (headers : list (string * string)) (content_type : string)
       (content_charset : option string) (payload : string)
| Multipart (headers : list (string * string)) (content_type : string)
            (content_charset : option string) (parts : list Message).

Definition headers_of (m : Message) : list (string * string) :=
  match m with Leaf h _ _ _ | Multipart h _ _ _ => h end.

Definition get_content_type (m : Message) : string :=
  match m with Leaf _ t _ _ | Multipart _ t _ _ => t end.

Definition get_content_charset (m : Message) : option string :=
  match m with Leaf _ _ c _ | Multipart _ _ c _ => c end.

Definition is_multipart (m : Message) : bool :=
  match m with Leaf _ _ _ _ => false | Multipart _ _ _ _ => true end.

(** [get_payload(decode=True)]: [None] on a multipart message. *)
Definition get_payload (m : Message) : option string :=
  match m with Leaf _ _ _ b => Some b | Multipart _ _ _ _ => None end.

(** [walk()]: the message itself, then its sub-parts depth first. *)
Fixpoint walk (m : Message) : list Message :=
  match m with
  | Leaf _ _ _ _ => [m]
  | Multipart _ _ _ ps => m :: flat_map walk ps
  end.

Definition lower_ascii (c : ascii) : ascii :=
  let n := nat_of_ascii c in
  if (65 <=? n)%nat && (n <=? 90)%nat then ascii_of_nat (n + 32) else c.

Fixpoint lower (s : string) : string :=
  match s with
  | EmptyString => EmptyString
  | String c rest => String (lower_ascii c) (lower rest)
  end.

(** Header lookup ignores case and takes the first field of that name. *)
Fixpoint find_header (name : string) (hs : list (string * string)) : option string :=
  match hs with
  | [] => None
  | (k, v) :: rest => if lower k =? lower name then Some v else find_header name rest
  end.

(** [email_message.get(name)] and [email_message.get(name, failobj)]. *)
Definition get (m : Message) (name : string) : option string :=
  find_header name (headers_of m).

Definition get_or (m : Message) (name failobj : string) : string :=
  match get m name with Some v => v | None => failobj end.

(** A chunk of a decoded header is a [str] or undecoded [bytes]. *)
Inductive chunk : Type :=
| Str (s : string)
| Bytes (b : string).

(** ** What the watcher keeps and what it leaves behind *)

Record email_data : Type := mk_email_data {
  ed_subject : string; ed_sender : string; ed_date : datetime; ed_body : string
}.

Record job_data : Type := mk_job_data {
  jd_company : json; jd_position : json; jd_status : json;
  jd_date : string; jd_notes : json
}.

(** A row of the [jobs] table. *)
Record job : Type := mk_job {
  id : Z;
  company : sql_value;
  position : sql_value;
  status : sql_value;
  application_date : sql_value;
  last_updated : sql_value;
  notes : sql_value;
  updated : sql_value;
  email_hash : sql_value
}.

Inductive level : Type := DEBUG | INFO | WARNING | ERROR.

(** One constructor per logging call of the two files. *)
Inductive message : Type :=
| Connected_to_server
| Error_connecting (e : exn)
| Error_fetching_email (num : string) (e : exn)
| IMAP4_error_during_fetch (e : exn)
| Unexpected_error_during_fetch (e : exn)
| Error_parsing_email (e : exn)
| Error_decoding_header (e : exn)
| Error_decoding_payload (e : exn)
| Error_decoding_JSON (parsed_result : string)
| Updated_existing_job (company position : json)
| Inserted_new_job (company position : json)
| Database_updated (company position : json)
| Database_error (e : exn)
| Not_job_related (email_id : string)
| Failed_to_parse (email_id : string)
| Starting_to_fetch (last_checked : datetime)
| Processing_email (email_id : string)
| Finished_processing
| IMAP4_error_in_run (e : exn)
| Connection_error_in_run (e : exn)
| Unexpected_error_in_run (e : exn)
| Logged_out
| Error_during_logout (e : exn)
| Deleted_job (job_id : Z) (hash : sql_value)
| Delete_of_missing_job (job_id : Z).

Inductive event : Type :=
| Log (l : level) (m : message)
| Print_running
| Print_error (e : exn)
| Sleep (seconds : nat)
| Backoff_wait.

Inductive colour : Type := Red | Green.

Inductive label : Type :=
| Last_sync_never
| Last_sync_error
| Last_sync_at (text : string).

Record World : Type := mk_World {
  jobs : list job;                 (* job_applications.db, table jobs *)
  trace : list event;              (* oldest first *)
  last_checked_json : option string;  (* contents of last_checked.json *)
  mail : bool;                     (* self.mail is not None *)
  stop_flag : bool;                (* self.stop_flag *)
  handshakes : nat;                (* IMAP handshakes attempted so far *)
  db_calls : nat;                  (* runs of update_database's body so far *)
  email_watcher : bool;            (* HomeScreen.email_watcher is not None *)
  last_sync_label : label;
  status_indicator : colour
}.

(** ** The environment *)

(** Where one IMAP handshake stops. *)
Inductive handshake_outcome : Type :=
| Handshake_ok
| Fails_in_IMAP4_SSL (e : exn)
| Fails_in_login (e : exn)
| Fails_in_select (e : exn).

(** Where one run of [update_database]'s body meets an [sqlite3.Error]. *)
Inductive db_fault : Type :=
| No_fault
| Fault_in_connect
| Fault_in_select
| Fault_in_write
| Fault_in_commit.

(** What lies outside the two files, during one cycle.  The classifier, the
    mailbox and the codecs answer as functions of what they are asked: within
    a cycle each message is asked about once.  Nothing says that they answer
    the same in the next cycle, and a property that spans two cycles takes
    one [Env] for each. *)
Record Env : Type := mk_Env {
  (* the email package and the codecs *)
  email_decode_header : string -> result (list (chunk * option string));
  bytes_decode : string -> string -> result string;
  parseaddr : string -> string * string;
  parsedate : string -> result datetime;
  parsedate_of_none : exn;
  strftime : datetime -> string -> string;
  fromisoformat : string -> result datetime;
  (* json.loads: None is JSONDecodeError *)
  json_loads : string -> option json;
  (* the classifier *)
  analyze_email : string -> result string;
  (* the IMAP server *)
  handshake : nat -> handshake_outcome;
  search_since : string -> result (list string);
  fetch_rfc822 : string -> result Message;
  logout : result unit;
  (* SQLite *)
  db_fault_at : nat -> db_fault
}.

(** ** The monad *)

Definition M (A : Type) : Type := World -> result A * World.

Definition ret {A} (a : A) : M A := fun w => (Return a, w).

Definition raise {A} (e : exn) : M A := fun w => (Raise e, w).

Definition bind {A B} (m : M A) (k : A -> M B) : M B :=
  fun w =>
    match m w with
    | (Return a, w') => k a w'
    | (Raise e, w') => (Raise e, w')
    end.

Notation "x <- m ;; k" := (bind m (fun x => k))
  (at level 61, m at next level, right associativity).
Notation "m ;; k" := (bind m (fun _ => k))
  (at level 61, right associativity).

Definition lift {A} (r : result A) : M A := fun w => (r, w).

(** [try: m except <classes> as e: handler e]; [handler] answers [None] for an
    exception its clauses do not name. *)
Definition try_except {A} (m : M A) (handler : exn -> option (M A)) : M A :=
  fun w =>
    match m w with
    | (Return a, w') => (Return a, w')
    | (Raise e, w') =>
        match handler e with
        | Some h => h w'
        | None => (Raise e, w')
        end
    end.

(** [try: m finally: f]: an exception of [f] replaces the outcome of [m]. *)
Definition try_finally {A} (m : M A) (f : M unit) : M A :=
  fun w =>
    let (r, w') := m w in
    match f w' with
    | (Return _, w'') => (r, w'')
    | (Raise e, w'') => (Raise e, w'')
    end.

Definition emit (e : event) : M unit :=
  fun w => (Return tt,
            mk_World (jobs w) (trace w ++ [e]) (last_checked_json w) (mail w)
                     (stop_flag w) (handshakes w) (db_calls w) (email_watcher w)
                     (last_sync_label w) (status_indicator w)).

Definition logging (l : level) (m : message) : M unit := emit (Log l m).

Definition get_jobs : M (list job) := fun w => (Return (jobs w), w).

Definition set_jobs (rows : list job) : M unit :=
  fun w => (Return tt,
            mk_World rows (trace w) (last_checked_json w) (mail w)
                     (stop_flag w) (handshakes w) (db_calls w) (email_watcher w)
                     (last_sync_label w) (status_indicator w)).

Definition get_mail : M bool := fun w => (Return (mail w), w).

Definition set_mail (b : bool) : M unit :=
  fun w => (Return tt,
            mk_World (jobs w) (trace w) (last_checked_json w) b
                     (stop_flag w) (handshakes w) (db_calls w) (email_watcher w)
                     (last_sync_label w) (status_indicator w)).

Definition get_stop_flag : M bool := fun w => (Return (stop_flag w), w).

Definition count_handshake : M nat :=
  fun w => (Return (handshakes w),
            mk_World (jobs w) (trace w) (last_checked_json w) (mail w)
                     (stop_flag w) (S (handshakes w)) (db_calls w) (email_watcher w)
                     (last_sync_label w) (status_indicator w)).

Definition count_db_call : M nat :=
  fun w => (Return (db_calls w),
            mk_World (jobs w) (trace w) (last_checked_json w) (mail w)
                     (stop_flag w) (handshakes w) (S (db_calls w)) (email_watcher w)
                     (last_sync_label w) (status_indicator w)).

(** *** The [backoff.on_exception] decorator

    The target is called; an exception of the watched class is followed by a
    wait and another call while tries remain, any other exception and the last
    watched one go to the caller. *)
Fixpoint on_exception {A} (retryable : exn -> bool) (retries : nat) (target : M A) : M A :=
  fun w =>
    match target w with
    | (Return a, w') => (Return a, w')
    | (Raise e, w') =>
        match retries with
        | S n =>
            if retryable e
            then (emit Backoff_wait ;; on_exception retryable n target) w'
            else (Raise e, w')
        | O => (Raise e, w')
        end
    end.

(** [@backoff.on_exception(backoff.expo, cls, max_tries=n)]. *)
Definition backoff_on_exception {A} (retryable : exn -> bool) (max_tries : nat)
    (target : M A) : M A :=
  on_exception retryable (max_tries - 1) target.

Definition is_IMAP4_error (e : exn) : bool :=
  match e with IMAP4_error => true | _ => false end.

Definition is_sqlite3_Error (e : exn) : bool :=
  match e with sqlite3_Error => true | _ => false end.

Definition newline : string := String (ascii_of_nat 10) EmptyString.

(** [f"Subject: {email_data['subject']}\n\n{email_data['body']}"]. *)
Definition email_content (d : email_data) : string :=
  "Subject: " ++ ed_subject d ++ newline ++ newline ++ ed_body d.

(** [x or default] on an optional string. *)
Definition or_default (x : option string) (default : string) : string :=
  match x with
  | Some s => if s =? "" then default else s
  | None => default
  end.

Section EmailWatcher.

Variable E : Env.

(** *** [decode_header], [decode_payload], [parse_email] *)

Definition decode_header (header : string) : M string :=
  try_except
    (chunks <- lift (email_decode_header E header) ;;
     match chunks with
     | [] => raise IndexError
     | (decoded_header, encoding) :: _ =>
         match decoded_header with
         | Bytes b => lift (bytes_decode E b (or_default encoding "utf-8"))
         | Str s => ret s
         end
     end)
    (fun e => Some (logging ERROR (Error_decoding_header e) ;; ret "")).

Definition decode_payload (part : Message) : M string :=
  try_except
    (match get_payload part with
     | Some payload =>
         lift (bytes_decode E payload (or_default (get_content_charset part) "utf-8"))
     | None => raise (AttributeError "decode")
     end)
    (fun e => Some (logging ERROR (Error_decoding_payload e) ;; ret "")).

(** [email.utils.parsedate_to_datetime]: no header ([None]) is refused before
    any parsing, with [parsedate_of_none]: a [TypeError] up to Python 3.9, a
    [ValueError] since. *)
Definition parsedate_to_datetime (header : option string) : M datetime :=
  match header with
  | None => raise (parsedate_of_none E)
  | Some s => lift (parsedate E s)
  end.

(** The loop over [walk()]: the first [text/plain] part is decoded and ends the
    loop; without one the body stays empty. *)
Fixpoint body_of_parts (ps : list Message) : M string :=
  match ps with
  | [] => ret ""
  | part :: rest =>
      if get_content_type part =? "text/plain" then decode_payload part
      else body_of_parts rest
  end.

Definition parse_email (email_message : Message) : M (option email_data) :=
  try_except
    (subject <- decode_header (get_or email_message "Subject" "") ;;
     let sender := snd (parseaddr E (get_or email_message "From" "")) in
     date <- parsedate_to_datetime (get email_message "Date") ;;
     body <- (if is_multipart email_message
              then body_of_parts (walk email_message)
              else decode_payload email_message) ;;
     ret (Some (mk_email_data subject sender date body)))
    (fun e => Some (logging ERROR (Error_parsing_email e) ;; ret None)).

(** *** [interpret_email] *)

Definition interpret_email (d : email_data) : M (option job_data) :=
  parsed_result <- lift (analyze_email E (email_content d)) ;;
  try_except
    (result <- match json_loads E parsed_result with
               | Some v => ret v
               | None => raise JSONDecodeError
               end ;;
     job_related <- lift (subscript result "job_related") ;;
     if truthy job_related then
       company <- lift (subscript result "company_name") ;;
       position <- lift (subscript result "job_position") ;;
       status <- lift (subscript result "application_status") ;;
       let date := strftime E (ed_date d) "%Y-%m-%d" in
       notes <- lift (subscript result "email_content") ;;
       ret (Some (mk_job_data company position status date notes))
     else ret None)
    (fun e =>
       match e with
       | JSONDecodeError =>
           Some (logging ERROR (Error_decoding_JSON parsed_result) ;; ret None)
       | _ => None
       end).

(** *** [update_database]

    The connection is a transaction on the rows read at its start: the
    statements build the rows to be, [commit] stores them, and an attempt that
    ends before [commit] returns leaves the table as it was. *)

(** [SELECT id, status FROM jobs WHERE company = ? AND position = ?], then
    [fetchone()]. *)
Definition find_job (c p : sql_value) (rows : list job) : option job :=
  find (fun r => sql_eqb (company r) c && sql_eqb (position r) p) rows.

Definition execute_select (fault : db_fault) (jd : job_data) (rows : list job)
    : M (option (Z * sql_value)) :=
  match sql_bind (jd_company jd), sql_bind (jd_position jd), fault with
  | Some c, Some p, (No_fault | Fault_in_write | Fault_in_commit) =>
      ret (option_map (fun r => (id r, status r)) (find_job c p rows))
  | _, _, _ => raise sqlite3_Error
  end.

Definition separator : sql_value := SqlText (newline ++ newline).

(** [UPDATE jobs SET status = ?, last_updated = ?,
    notes = notes || '\n\n' || ?, updated = 1 WHERE id = ?]; Python has turned
    the two escapes into line feeds before SQLite sees the statement. *)
Definition execute_update_status (fault : db_fault) (jd : job_data) (job_id : Z)
    (rows : list job) : M (list job) :=
  match sql_bind (jd_status jd), sql_bind (jd_notes jd), fault with
  | Some s, Some n, (No_fault | Fault_in_commit) =>
      ret (map (fun r =>
                  if (id r =? job_id)%Z
                  then mk_job (id r) (company r) (position r) s
                              (application_date r) (SqlText (jd_date jd))
                              (sql_concat (sql_concat (notes r) separator) n)
                              (SqlInteger 1) (email_hash r)
                  else r) rows)
  | _, _, _ => raise sqlite3_Error
  end.

(** [UPDATE jobs SET last_updated = ?, notes = notes || '\n\n' || ?
    WHERE id = ?]. *)
Definition execute_update_notes (fault : db_fault) (jd : job_data) (job_id : Z)
    (rows : list job) : M (list job) :=
  match sql_bind (jd_notes jd), fault with
  | Some n, (No_fault | Fault_in_commit) =>
      ret (map (fun r =>
                  if (id r =? job_id)%Z
                  then mk_job (id r) (company r) (position r) (status r)
                              (application_date r) (SqlText (jd_date jd))
                              (sql_concat (sql_concat (notes r) separator) n)
                              (updated r) (email_hash r)
                  else r) rows)
  | _, _ => raise sqlite3_Error
  end.

(** The row id SQLite gives an inserted row: 1 on an empty table, one past
    the largest in use on any other.  The table is taken to be declared
    without [AUTOINCREMENT], which is outside the two files; the case of the
    largest 64-bit id being in use is left out. *)
Definition lastrowid (rows : list job) : Z :=
  match rows with
  | [] => 1%Z
  | r :: rest => (fold_right (fun x acc => Z.max (id x) acc) (id r) rest + 1)%Z
  end.

(** [INSERT INTO jobs (company, position, status, application_date,
    last_updated, notes, updated) VALUES (?, ?, ?, ?, ?, ?, 1)]. *)
Definition execute_insert (fault : db_fault) (jd : job_data) (rows : list job)
    : M (list job) :=
  match sql_bind (jd_company jd), sql_bind (jd_position jd),
        sql_bind (jd_status jd), sql_bind (jd_notes jd), fault with
  | Some c, Some p, Some s, Some n, (No_fault | Fault_in_commit) =>
      ret (rows ++ [mk_job (lastrowid rows) c p s (SqlText (jd_date jd))
                           (SqlText (jd_date jd)) n (SqlInteger 1) SqlNull])%list
  | _, _, _, _, _ => raise sqlite3_Error
  end.

Definition sqlite3_connect (fault : db_fault) : M unit :=
  match fault with
  | Fault_in_connect => raise sqlite3_Error
  | _ => ret tt
  end.

Definition commit (fault : db_fault) (rows : list job) : M unit :=
  match fault with
  | Fault_in_commit => raise sqlite3_Error
  | _ => set_jobs rows
  end.

(** [if conn: conn.rollback()] and [if conn: conn.close()]: when
    [sqlite3.connect] itself raised, the local [conn] was never assigned. *)
Definition if_conn (fault : db_fault) : M unit :=
  match fault with
  | Fault_in_connect => raise (UnboundLocalError "conn")
  | _ => ret tt
  end.

Definition update_database_body (jd : job_data) : M unit :=
  n <- count_db_call ;;
  let fault := db_fault_at E n in
  try_finally
    (try_except
       (sqlite3_connect fault ;;
        rows <- get_jobs ;;
        existing_job <- execute_select fault jd rows ;;
        pending <- match existing_job with
                   | Some (job_id, current_status) =>
                       p <- (if py_ne (jd_status jd) current_status
                             then execute_update_status fault jd job_id rows
                             else execute_update_notes fault jd job_id rows) ;;
                       logging DEBUG
                         (Updated_existing_job (jd_company jd) (jd_position jd)) ;;
                       ret p
                   | None =>
                       p <- execute_insert fault jd rows ;;
                       logging DEBUG
                         (Inserted_new_job (jd_company jd) (jd_position jd)) ;;
                       ret p
                   end ;;
        commit fault pending ;;
        logging DEBUG (Database_updated (jd_company jd) (jd_position jd)))
       (fun e =>
          match e with
          | sqlite3_Error =>
              Some (logging ERROR (Database_error e) ;; if_conn fault ;; raise e)
          | _ => None
          end))
    (if_conn fault).

Definition update_database (jd : job_data) : M unit :=
  backoff_on_exception is_sqlite3_Error 3 (update_database_body jd).

(** *** [process_email] *)

Definition process_email (email_id : string) (email_message : Message) : M unit :=
  parsed <- parse_email email_message ;;
  match parsed with
  | Some d =>
      interpreted <- interpret_email d ;;
      match interpreted with
      | Some jd => update_database jd
      | None => logging DEBUG (Not_job_related email_id)
      end
  | None => logging WARNING (Failed_to_parse email_id)
  end.

(** *** [connect] *)

Definition connect_body : M bool :=
  try_except
    (n <- count_handshake ;;
     match handshake E n with
     | Handshake_ok =>
         set_mail true ;; logging DEBUG Connected_to_server ;; ret true
     | Fails_in_IMAP4_SSL e => raise e
     | Fails_in_login e | Fails_in_select e => set_mail true ;; raise e
     end)
    (fun e =>
       match e with
       | IMAP4_error => Some (logging ERROR (Error_connecting e) ;; ret false)
       | _ => None
       end).

Definition connect : M bool :=
  backoff_on_exception is_IMAP4_error 3 connect_body.

(** *** [fetch_new_emails]

    The generator, given the body of the [for] loop that consumes it: [body]
    answers [true] for [break].  A message that cannot be fetched is logged
    and passed over inside the generator. *)
Fixpoint fetch_each (nums : list string) (body : string -> Message -> M bool) : M unit :=
  match nums with
  | [] => ret tt
  | num :: rest =>
      match fetch_rfc822 E num with
      | Return email_message =>
          stop <- body num email_message ;;
          if stop then ret tt else fetch_each rest body
      | Raise e =>
          logging ERROR (Error_fetching_email num e) ;; fetch_each rest body
      end
  end.

Definition fetch_new_emails (last_checked : datetime)
    (body : string -> Message -> M bool) : M unit :=
  let date_string := strftime E last_checked "%d-%b-%Y" in
  match search_since E date_string with
  | Return nums => fetch_each nums body
  | Raise IMAP4_error => logging ERROR (IMAP4_error_during_fetch IMAP4_error)
  | Raise e => logging ERROR (Unexpected_error_during_fetch e)
  end.

(** *** [run] *)

Definition loop_body (email_id : string) (email_message : Message) : M bool :=
  stop <- get_stop_flag ;;
  if stop then ret true
  else
    logging DEBUG (Processing_email email_id) ;;
    process_email email_id email_message ;;
    ret false.

Definition run_logout : M unit :=
  has_mail <- get_mail ;;
  if has_mail
  then try_except
         (lift (logout E) ;; logging DEBUG Logged_out)
         (fun e => Some (logging ERROR (Error_during_logout e)))
  else ret tt.

Definition run (last_checked : datetime) : M unit :=
  try_finally
    (try_except
       (connected <- connect ;;
        if connected then
          logging DEBUG (Starting_to_fetch last_checked) ;;
          fetch_new_emails last_checked loop_body ;;
          logging DEBUG Finished_processing
        else ret tt)
       (fun e =>
          match e with
          | IMAP4_error => Some (logging ERROR (IMAP4_error_in_run e))
          | ConnectionError => Some (logging ERROR (Connection_error_in_run e))
          | _ => Some (logging ERROR (Unexpected_error_in_run e))
          end))
    run_logout.

End EmailWatcher.

(** ** The call sites in [home_screen.py] *)

Definition get_email_watcher : M bool := fun w => (Return (email_watcher w), w).

Definition get_last_checked_json : M (option string) :=
  fun w => (Return (last_checked_json w), w).

Definition set_last_sync_label (l : label) : M unit :=
  fun w => (Return tt,
            mk_World (jobs w) (trace w) (last_checked_json w) (mail w)
                     (stop_flag w) (handshakes w) (db_calls w) (email_watcher w)
                     l (status_indicator w)).

Definition set_status_indicator (c : colour) : M unit :=
  fun w => (Return tt,
            mk_World (jobs w) (trace w) (last_checked_json w) (mail w)
                     (stop_flag w) (handshakes w) (db_calls w) (email_watcher w)
                     (last_sync_label w) c).

(** Every attribute an [EmailWatcher] object has: what [__init__] assigns and
    what the class defines. *)
Definition EmailWatcher_attributes : list string :=
  ["connect_attempts"; "max_connect_attempts"; "email_address"; "password";
   "inbox"; "imap_server"; "mail"; "stop_flag";
   "connect"; "fetch_new_emails"; "parse_email"; "decode_header";
   "decode_payload"; "interpret_email"; "update_database"; "process_email";
   "run"].

(** [self.email_watcher.<name>]: [None] has none of the names, the watcher
    those of [EmailWatcher_attributes]. *)
Definition getattr_email_watcher (name : string) : M unit :=
  present <- get_email_watcher ;;
  if present && existsb (String.eqb name) EmailWatcher_attributes
  then ret tt
  else raise (AttributeError name).

Section HomeScreen.

Variable E : Env.

(** Calling the bound method [run] with the positional arguments [args]: its
    signature is [run(self, last_checked)]. *)
Definition call_run (args : list datetime) : M unit :=
  getattr_email_watcher "run" ;;
  match args with
  | [last_checked] => run E last_checked
  | _ => raise TypeError
  end.

Definition update_sync_time : M unit :=
  try_except
    (file <- get_last_checked_json ;;
     text <- match file with
             | Some text => ret text
             | None => raise FileNotFoundError
             end ;;
     data <- match json_loads E text with
             | Some v => ret v
             | None => raise JSONDecodeError
             end ;;
     field <- lift (subscript data "last_checked") ;;
     last_checked <- match field with
                     | JStr iso => lift (fromisoformat E iso)
                     | _ => raise TypeError
                     end ;;
     set_last_sync_label
       (Last_sync_at (strftime E last_checked "%Y-%m-%d %H:%M:%S")))
    (fun e =>
       match e with
       | FileNotFoundError => Some (set_last_sync_label Last_sync_never)
       | JSONDecodeError => Some (set_last_sync_label Last_sync_error)
       | _ => None
       end).

Definition update_status_indicator : M unit :=
  present <- get_email_watcher ;;
  connected <- (if present then connect E else ret false) ;;
  set_status_indicator (if connected then Green else Red).

(** One turn of the [while] loop of [run_email_watcher]: the call is
    [self.email_watcher.run()], without arguments. *)
Definition run_email_watcher_turn : M unit :=
  try_finally
    (try_except
       (emit Print_running ;;
        call_run [] ;;
        update_sync_time ;;
        emit (Sleep 300))
       (fun e => Some (emit (Print_error e) ;; emit (Sleep 60))))
    update_status_indicator.

(** [getattr(self.email_watcher, 'stop_flag', False)]. *)
Definition getattr_stop_flag : M bool :=
  fun w => (Return (email_watcher w && stop_flag w), w).

(** The loop itself never ends on its own; [turns] bounds how many turns are
    followed. *)
Fixpoint run_email_watcher (turns : nat) : M unit :=
  match turns with
  | O => ret tt
  | S n =>
      stop <- getattr_stop_flag ;;
      if stop then ret tt
      else run_email_watcher_turn ;; run_email_watcher n
  end.

(** [delete_job]; [confirmed] is the answer [confirm.get() == "Yes"]. *)
Definition delete_job (confirmed : bool) (job_id : Z) : M unit :=
  if confirmed then
    rows <- get_jobs ;;
    match find (fun r => (id r =? job_id)%Z) rows with
    | Some r =>
        let hash := email_hash r in
        set_jobs (filter (fun r => negb (id r =? job_id)%Z) rows) ;;
        present <- get_email_watcher ;;
        (if present then getattr_email_watcher "remove_processed_hash"
         else ret tt) ;;
        logging INFO (Deleted_job job_id hash)
    | None => logging WARNING (Delete_of_missing_job job_id)
    end
  else ret tt.

End HomeScreen.

(** ** The job list on screen

    The window keeps [self.job_rows], a dict from the id of a job to its grid
    row and widgets, and [self.next_row], the next free grid row.  A widget is
    modelled by the text the code last put into it; what the window prints
    and the message boxes it opens are kept as [notices]. *)

(** The dict of one row: its grid row, the texts of its entries, dropdown
    and label, and the notes its [Notes] button was created with. *)
Record job_row : Type := mk_job_row {
  row : Z;
  company_entry : string;
  position_entry : string;
  status_dropdown : string;
  application_date_entry : string;
  last_updated_label : string;
  notes_button : string
}.

(** The keys of that dict. *)
Definition job_row_keys : list string :=
  ["row"; "company"; "position"; "status"; "application_date"; "last_updated";
   "notes"; "delete"].

Inductive notice : Type :=
| Print_field_not_found (field : string) (job_id : Z)
| Print_unhandled_field (field : string)
| Print_remove_of_missing_row (job_id : Z)
| Print_database_error (e : exn)
| Print_error_refreshing (e : exn)
| Messagebox (title message : string).

Record Screen : Type := mk_Screen {
  job_rows : list (Z * job_row);
  next_row : Z;
  notices : list notice
}.

(** A Python dict with integer keys, in insertion order: [d.get(k)],
    [d[k] = v] (a key already there keeps its place) and [del d[k]]. *)
Fixpoint dict_get {V} (k : Z) (d : list (Z * V)) : option V :=
  match d with
  | [] => None
  | (k', v) :: rest => if (k' =? k)%Z then Some v else dict_get k rest
  end.

Fixpoint dict_set {V} (k : Z) (v : V) (d : list (Z * V)) : list (Z * V) :=
  match d with
  | [] => [(k, v)]
  | (k', v') :: rest =>
      if (k' =? k)%Z then (k, v) :: rest else (k', v') :: dict_set k v rest
  end.

Definition dict_del {V} (k : Z) (d : list (Z * V)) : list (Z * V) :=
  filter (fun kv => negb (fst kv =? k)%Z) d.

Definition print_notice (n : notice) (s : Screen) : Screen :=
  mk_Screen (job_rows s) (next_row s) (notices s ++ [n])%list.

(** *** [add_job_row] *)

Definition add_job_row (job_id : Z)
    (company position status app_date last_updated notes : string)
    (s : Screen) : Screen :=
  let row := next_row s in
  mk_Screen
    (dict_set job_id
       (mk_job_row row company position status app_date last_updated notes)
       (job_rows s))
    (next_row s + 1)
    (notices s).

(** *** [update_job_row] *)

Definition update_job_row (job_id : Z) (field value : string) (s : Screen) : Screen :=
  match dict_get job_id (job_rows s) with
  | Some r =>
      if field =? "last_updated" then
        mk_Screen
          (dict_set job_id
             (mk_job_row (row r) (company_entry r) (position_entry r)
                         (status_dropdown r) (application_date_entry r) value
                         (notes_button r))
             (job_rows s))
          (next_row s) (notices s)
      else if existsb (String.eqb field) ["company"; "position"; "application_date"]
      then
        if existsb (String.eqb field) job_row_keys then
          mk_Screen
            (dict_set job_id
               (mk_job_row (row r)
                  (if field =? "company" then value else company_entry r)
                  (if field =? "position" then value else position_entry r)
                  (status_dropdown r)
                  (if field =? "application_date" then value
                   else application_date_entry r)
                  (last_updated_label r) (notes_button r))
               (job_rows s))
            (next_row s) (notices s)
        else print_notice (Print_field_not_found field job_id) s
      else if field =? "status" then
        mk_Screen
          (dict_set job_id
             (mk_job_row (row r) (company_entry r) (position_entry r) value
                         (application_date_entry r) (last_updated_label r)
                         (notes_button r))
             (job_rows s))
          (next_row s) (notices s)
      else if field =? "notes" then s
      else print_notice (Print_unhandled_field field) s
  | None => s
  end.

(** *** [remove_job_row] *)

Definition remove_job_row (job_id : Z) (s : Screen) : Screen :=
  match dict_get job_id (job_rows s) with
  | Some r =>
      mk_Screen
        (map (fun kv =>
                if (row (snd kv) >? row r)%Z
                then (fst kv,
                      mk_job_row (row (snd kv) - 1) (company_entry (snd kv))
                                 (position_entry (snd kv)) (status_dropdown (snd kv))
                                 (application_date_entry (snd kv))
                                 (last_updated_label (snd kv))
                                 (notes_button (snd kv)))
                else kv)
             (dict_del job_id (job_rows s)))
        (next_row s - 1)
        (notices s)
  | None => print_notice (Print_remove_of_missing_row job_id) s
  end.

(** *** Code that works on the window and on the world

    The same monad, over the pair of the two. *)
Definition UI (A : Type) : Type := Screen -> World -> result A * (Screen * World).

Definition ui_ret {A} (a : A) : UI A := fun s w => (Return a, (s, w)).

Definition ui_raise {A} (e : exn) : UI A := fun s w => (Raise e, (s, w)).

Definition ui_bind {A B} (m : UI A) (k : A -> UI B) : UI B :=
  fun s w =>
    match m s w with
    | (Return a, (s', w')) => k a s' w'
    | (Raise e, sw) => (Raise e, sw)
    end.

Notation "x <~ m ;; k" := (ui_bind m (fun x => k))
  (at level 61, m at next level, right associativity).
Notation "m ;;; k" := (ui_bind m (fun _ => k))
  (at level 61, right associativity).

Definition ui_try_except {A} (m : UI A) (handler : exn -> option (UI A)) : UI A :=
  fun s w =>
    match m s w with
    | (Return a, sw) => (Return a, sw)
    | (Raise e, (s', w')) =>
        match handler e with
        | Some h => h s' w'
        | None => (Raise e, (s', w'))
        end
    end.

Definition ui_try_finally {A} (m : UI A) (f : UI unit) : UI A :=
  fun s w =>
    match m s w with
    | (r, (s', w')) =>
        match f s' w' with
        | (Return _, sw) => (r, sw)
        | (Raise e, sw) => (Raise e, sw)
        end
    end.

(** A computation on the world, run from the window. *)
Definition on_world {A} (m : M A) : UI A :=
  fun s w => let (r, w') := m w in (r, (s, w')).

(** A method that works on the widgets alone. *)
Definition on_screen (f : Screen -> Screen) : UI unit :=
  fun s w => (Return tt, (f s, w)).

(** What SQLite does to one connection opened by the window. *)
Inductive connection_fault : Type :=
| Connection_ok
| Connect_fails
| Execute_fails
| Commit_fails.

(** The columns [update_job] is called for: by the entries and the dropdown
    of a row, and by the notes window. *)
Inductive job_field : Type :=
| Field_company
| Field_position
| Field_status
| Field_application_date
| Field_notes.

Definition field_name (f : job_field) : string :=
  match f with
  | Field_company => "company"
  | Field_position => "position"
  | Field_status => "status"
  | Field_application_date => "application_date"
  | Field_notes => "notes"
  end.

(** [UPDATE jobs SET {field} = ?, last_updated = ? WHERE id = ?]. *)
Definition execute_update_field (f : job_field) (value current_date : string)
    (job_id : Z) (rows : list job) : list job :=
  map (fun r =>
         if (id r =? job_id)%Z then
           match f with
           | Field_company =>
               mk_job (id r) (SqlText value) (position r) (status r)
                      (application_date r) (SqlText current_date) (notes r)
                      (updated r) (email_hash r)
           | Field_position =>
               mk_job (id r) (company r) (SqlText value) (status r)
                      (application_date r) (SqlText current_date) (notes r)
                      (updated r) (email_hash r)
           | Field_status =>
               mk_job (id r) (company r) (position r) (SqlText value)
                      (application_date r) (SqlText current_date) (notes r)
                      (updated r) (email_hash r)
           | Field_application_date =>
               mk_job (id r) (company r) (position r) (status r)
                      (SqlText value) (SqlText current_date) (notes r)
                      (updated r) (email_hash r)
           | Field_notes =>
               mk_job (id r) (company r) (position r) (status r)
                      (application_date r) (SqlText current_date) (SqlText value)
                      (updated r) (email_hash r)
           end
         else r) rows.

Section Window.

Variable E : Env.

(** The value a row gets in the [updated] column when an [INSERT] does not
    name it: the default the table declares, outside the two files. *)
Variable default_updated : sql_value.

(** [sqlite3.connect("job_applications.db")]. *)
Definition ui_connect (fault : connection_fault) : UI unit :=
  match fault with
  | Connect_fails => ui_raise sqlite3_Error
  | _ => ui_ret tt
  end.

(** [cursor.execute(...)] of a statement whose effect on the rows is
    [statement]: the rows to be, held by the connection until [commit]. *)
Definition ui_execute (fault : connection_fault) (statement : list job -> list job)
    : UI (list job) :=
  match fault with
  | Execute_fails => ui_raise sqlite3_Error
  | _ => rows <~ on_world get_jobs ;; ui_ret (statement rows)
  end.

Definition ui_commit (fault : connection_fault) (pending : list job) : UI unit :=
  match fault with
  | Commit_fails => ui_raise sqlite3_Error
  | _ => on_world (set_jobs pending)
  end.

(** *** [add_new_job]; [now] is what [datetime.now()] answers. *)
Definition add_new_job (fault : connection_fault) (now : datetime) : UI unit :=
  ui_connect fault ;;;
  let current_date := strftime E now "%Y-%m-%d" in
  rows <~ on_world get_jobs ;;
  let job_id := lastrowid rows in
  pending <~ ui_execute fault
    (fun rows =>
       (rows ++ [mk_job (lastrowid rows) (SqlText "New Company")
                        (SqlText "New Position") (SqlText "Applied")
                        (SqlText current_date) (SqlText current_date) (SqlText "")
                        default_updated SqlNull])%list) ;;
  ui_commit fault pending ;;;
  on_screen (add_job_row job_id "New Company" "New Position" "Applied"
                         current_date current_date "").

(** *** [update_job] *)
Definition update_job (fault : connection_fault) (now : datetime)
    (job_id : Z) (field : job_field) (value : string) : UI unit :=
  ui_connect fault ;;;
  ui_try_finally
    (ui_try_except
       (let current_date := strftime E now "%Y-%m-%d" in
        pending <~ ui_execute fault
          (execute_update_field field value current_date job_id) ;;
        ui_commit fault pending ;;;
        on_screen (update_job_row job_id (field_name field) value) ;;;
        if negb (field_name field =? "notes")
        then on_screen (update_job_row job_id "last_updated" current_date)
        else ui_ret tt)
       (fun e =>
          match e with
          | sqlite3_Error =>
              Some (on_screen (print_notice (Print_database_error e)) ;;;
                    on_screen
                      (print_notice
                         (Messagebox "Database Error"
                            "An error occurred while updating the job.")))
          | _ => None
          end))
    (ui_ret tt).

(** *** [refresh_emails_and_jobs]

    [refresh_jobs] redraws the list from the table; it stands here for
    whatever it does. *)
Variable refresh_jobs : UI unit.

Definition refresh_emails_and_jobs : UI unit :=
  present <~ on_world get_email_watcher ;;
  if present then
    ui_try_except
      (on_world (call_run E []) ;;;
       refresh_jobs ;;;
       on_world (update_sync_time E) ;;;
       on_world (update_status_indicator E) ;;;
       on_screen
         (print_notice (Messagebox "Success" "Emails checked and jobs refreshed!")))
      (fun e =>
         Some (on_screen (print_notice (Print_error_refreshing e)) ;;;
               on_screen
                 (print_notice
                    (Messagebox "Error"
                       "Failed to refresh emails. Please try again."))))
  else
    on_screen
      (print_notice
         (Messagebox "Error"
            "Email watcher not configured. Please set up email configuration first.")).

End Window.

(** ** A concrete environment

    One mailbox, one classifier and one database for the examples below: the
    library functions are given on the inputs the examples use. *)
Module Demo.

Definition two_digits (n : Z) : string :=
  NilZero.string_of_int (Z.to_int (n / 10)) ++ NilZero.string_of_int (Z.to_int (n mod 10)).

Definition four_digits (n : Z) : string :=
  two_digits (n / 100) ++ two_digits (n mod 100).

Definition month_abbr (m : Z) : string :=
  nth (Z.to_nat (m - 1))
      ["Jan"; "Feb"; "Mar"; "Apr"; "May"; "Jun";
       "Jul"; "Aug"; "Sep"; "Oct"; "Nov"; "Dec"] "".

Definition demo_strftime (d : datetime) (format : string) : string :=
  if format =? "%Y-%m-%d" then
    four_digits (year d) ++ "-" ++ two_digits (month d) ++ "-" ++ two_digits (day d)
  else if format =? "%d-%b-%Y" then
    two_digits (day d) ++ "-" ++ month_abbr (month d) ++ "-" ++ four_digits (year d)
  else if format =? "%Y-%m-%d %H:%M:%S" then
    four_digits (year d) ++ "-" ++ two_digits (month d) ++ "-" ++ two_digits (day d)
    ++ " " ++ two_digits (hour d) ++ ":" ++ two_digits (minute d) ++ ":"
    ++ two_digits (second d)
  else format.

Definition known_charsets : list string := ["utf-8"; "us-ascii"; "ascii"; "iso-8859-1"].

(** ASCII bytes decode to themselves under every known charset. *)
Definition demo_bytes_decode (b charset : string) : result string :=
  if existsb (String.eqb (lower charset)) known_charsets then Return b
  else Raise LookupError.

Definition jan15 : datetime := mk_datetime 2024 1 15 9 30 0.
Definition jan16 : datetime := mk_datetime 2024 1 16 14 0 0.
Definition jan14 : datetime := mk_datetime 2024 1 14 8 0 0.

Definition demo_parsedate (s : string) : result datetime :=
  if s =? "Mon, 15 Jan 2024 09:30:00 +0000" then Return jan15
  else if s =? "Tue, 16 Jan 2024 14:00:00 +0000" then Return jan16
  else Raise ValueError.

Definition demo_parseaddr (s : string) : string * string :=
  if s =? "Acme Recruiting <jobs@acme.example>"
  then ("Acme Recruiting", "jobs@acme.example")
  else ("", s).

Definition demo_fromisoformat (s : string) : result datetime :=
  if s =? "2024-01-14T08:00:00" then Return jan14 else Raise ValueError.

Definition q (s : string) : string :=
  String (ascii_of_nat 34) s ++ String (ascii_of_nat 34) "".

(** The classifier's answers, as text. *)
Definition verdict_interview : string :=
  "{" ++ q "job_related" ++ ": true, " ++ q "company_name" ++ ": " ++ q "Acme"
  ++ ", " ++ q "job_position" ++ ": " ++ q "Backend Engineer"
  ++ ", " ++ q "application_status" ++ ": " ++ q "Interview"
  ++ ", " ++ q "email_content" ++ ": " ++ q "Interview scheduled" ++ "}".

Definition verdict_applied : string :=
  "{" ++ q "job_related" ++ ": true, " ++ q "company_name" ++ ": " ++ q "Acme"
  ++ ", " ++ q "job_position" ++ ": " ++ q "Backend Engineer"
  ++ ", " ++ q "application_status" ++ ": " ++ q "Applied"
  ++ ", " ++ q "email_content" ++ ": " ++ q "Application received" ++ "}".

Definition verdict_unrelated : string := "{" ++ q "job_related" ++ ": false}".

Definition verdict_null : string := "{" ++ q "job_related" ++ ": null}".

Definition verdict_empty_object : string := "{}".

Definition verdict_prose : string := "Sorry, I cannot classify this email.".

Definition checkpoint_text : string :=
  "{" ++ q "last_checked" ++ ": " ++ q "2024-01-14T08:00:00" ++ "}".

Definition interview_doc : json :=
  JObj [("job_related", JBool true); ("company_name", JStr "Acme");
        ("job_position", JStr "Backend Engineer");
        ("application_status", JStr "Interview");
        ("email_content", JStr "Interview scheduled")].

Definition applied_doc : json :=
  JObj [("job_related", JBool true); ("company_name", JStr "Acme");
        ("job_position", JStr "Backend Engineer");
        ("application_status", JStr "Applied");
        ("email_content", JStr "Application received")].

(** [json.loads] on the texts above; the prose is not JSON. *)
Definition demo_json_loads (s : string) : option json :=
  if s =? verdict_interview then Some interview_doc
  else if s =? verdict_applied then Some applied_doc
  else if s =? verdict_unrelated then Some (JObj [("job_related", JBool false)])
  else if s =? verdict_null then Some (JObj [("job_related", JNull)])
  else if s =? verdict_empty_object then Some (JObj [])
  else if s =? checkpoint_text
       then Some (JObj [("last_checked", JStr "2024-01-14T08:00:00")])
  else None.

Definition date_header : string * string :=
  ("Date", "Mon, 15 Jan 2024 09:30:00 +0000").

Definition from_header : string * string :=
  ("From", "Acme Recruiting <jobs@acme.example>").

(** The interview invitation of the end-to-end scenario. *)
Definition msg_interview : Message :=
  Leaf [("Subject", "Your application to Acme"); from_header; date_header]
       "text/plain" (Some "utf-8") "We would like to invite you to an interview.".

Definition msg_applied : Message :=
  Leaf [("Subject", "Application received"); from_header; date_header]
       "text/plain" (Some "utf-8") "Thank you for applying.".

Definition msg_newsletter : Message :=
  Leaf [("Subject", "Weekly digest"); from_header; date_header]
       "text/plain" (Some "utf-8") "This week in tech.".

Definition msg_prose : Message :=
  Leaf [("Subject", "Hello"); from_header; date_header]
       "text/plain" (Some "utf-8") "Long time no see.".

Definition msg_null : Message :=
  Leaf [("Subject", "Invoice"); from_header; date_header]
       "text/plain" (Some "utf-8") "Your invoice is attached.".

Definition msg_shapeless : Message :=
  Leaf [("Subject", "Reminder"); from_header; date_header]
       "text/plain" (Some "utf-8") "Do not forget.".

(** An HTML-only multipart message, with and without a [Date] header. *)
Definition html_part : Message :=
  Leaf [] "text/html" (Some "utf-8") "<p>Your application to Acme</p>".

Definition msg_html_only : Message :=
  Multipart [("Subject", "Your application to Acme"); from_header; date_header]
            "multipart/alternative" None [html_part].

Definition msg_html_only_undated : Message :=
  Multipart [("Subject", "Your application to Acme"); from_header]
            "multipart/alternative" None [html_part].

(** A multipart message whose second part is the first plain-text one. *)
Definition msg_alternative : Message :=
  Multipart [("Subject", "Your application to Acme"); from_header; date_header]
            "multipart/alternative" None
            [html_part;
             Leaf [] "text/plain" None "Plain text first.";
             Leaf [] "text/plain" None "Plain text second."].

Definition msg_undated : Message :=
  Leaf [("Subject", "Your application to Acme"); from_header]
       "text/plain" (Some "utf-8") "We would like to invite you to an interview.".

Definition content_of (m : Message) (body : string) : string :=
  "Subject: " ++ get_or m "Subject" "" ++ newline ++ newline ++ body.

Definition demo_analyze_email (content : string) : result string :=
  if content =? content_of msg_interview "We would like to invite you to an interview."
  then Return verdict_interview
  else if content =? content_of msg_applied "Thank you for applying."
  then Return verdict_applied
  else if content =? content_of msg_newsletter "This week in tech."
  then Return verdict_unrelated
  else if content =? content_of msg_null "Your invoice is attached."
  then Return verdict_null
  else if content =? content_of msg_shapeless "Do not forget."
  then Return verdict_empty_object
  else Return verdict_prose.

Definition demo_fetch (num : string) : result Message :=
  if num =? "1" then Return msg_interview
  else if num =? "2" then Return msg_applied
  else if num =? "3" then Return msg_newsletter
  else if num =? "4" then Return msg_prose
  else if num =? "5" then Return msg_null
  else if num =? "6" then Return msg_shapeless
  else if num =? "7" then Return msg_undated
  else Raise IMAP4_error.

(** The environment with the server's handshakes, the message numbers the
    search answers and the database faults left open. *)
Definition env (classifier : string -> result string)
    (handshakes : nat -> handshake_outcome) (nums : list string)
    (faults : nat -> db_fault) : Env :=
  mk_Env (fun h => Return [(Str h, None)]) demo_bytes_decode demo_parseaddr
         demo_parsedate ValueError demo_strftime demo_fromisoformat demo_json_loads
         classifier handshakes (fun _ => Return nums) demo_fetch
         (Return tt) faults.

(** A healthy server and database. *)
Definition healthy (nums : list string) : Env :=
  env demo_analyze_email (fun _ => Handshake_ok) nums (fun _ => No_fault).

(** A healthy server and database, and a classifier that gives every message
    the answer [raw]. *)
Definition answering (raw : string) : Env :=
  env (fun _ => Return raw) (fun _ => Handshake_ok) ["1"] (fun _ => No_fault).

(** A fresh application with a configured watcher and a checkpoint file. *)
Definition start : World :=
  mk_World [] [] (Some checkpoint_text) false false 0 0 true Last_sync_never Red.

End Demo.

(** ** Scenarios *)

Local Open Scope list_scope.

(** The record of the merge scenario: an application to Acme first seen on
    10 January, with status Applied. *)
Definition tracked_job : job :=
  mk_job 1 (SqlText "Acme") (SqlText "Backend Engineer") (SqlText "Applied")
         (SqlText "2024-01-10") (SqlText "2024-01-10")
         (SqlText "Application received") (SqlInteger 0) SqlNull.

(** The application with that one record stored. *)
Definition tracked : World :=
  mk_World [tracked_job] [] (Some Demo.checkpoint_text) false false 0 0 true
           Last_sync_never Red.

(** The record the interview invitation produces. *)
Definition ingested_job : job :=
  mk_job 1 (SqlText "Acme") (SqlText "Backend Engineer") (SqlText "Interview")
         (SqlText "2024-01-15") (SqlText "2024-01-15")
         (SqlText "Interview scheduled") (SqlInteger 1) SqlNull.

(** Verdicts that leave a field out: one without a company, one without a
    note; and the verdict of the interview invitation. *)
Definition verdict_without_company : job_data :=
  mk_job_data JNull (JStr "Backend Engineer") (JStr "Applied") "2024-01-15"
              (JStr "Application received").

Definition verdict_without_note : job_data :=
  mk_job_data (JStr "Acme") (JStr "Backend Engineer") (JStr "Applied")
              "2024-01-10" JNull.

Definition interview_verdict : job_data :=
  mk_job_data (JStr "Acme") (JStr "Backend Engineer") (JStr "Interview")
              "2024-01-15" (JStr "Interview scheduled").

(** A classifier that names no company: every message is an application for
    the position, the company [null]. *)
Definition verdict_no_company : string :=
  ("{" ++ Demo.q "job_related" ++ ": true, " ++ Demo.q "company_name" ++ ": null"
   ++ ", " ++ Demo.q "job_position" ++ ": " ++ Demo.q "Backend Engineer"
   ++ ", " ++ Demo.q "application_status" ++ ": " ++ Demo.q "Applied"
   ++ ", " ++ Demo.q "email_content" ++ ": " ++ Demo.q "Application received"
   ++ "}")%string.

Definition nameless : Env :=
  mk_Env (fun h => Return [(Str h, None)]) Demo.demo_bytes_decode
         Demo.demo_parseaddr Demo.demo_parsedate ValueError Demo.demo_strftime
         Demo.demo_fromisoformat
         (fun text =>
            if (text =? verdict_no_company)%string
            then Some (JObj [("job_related", JBool true); ("company_name", JNull);
                             ("job_position", JStr "Backend Engineer");
                             ("application_status", JStr "Applied");
                             ("email_content", JStr "Application received")])
            else Demo.demo_json_loads text)
         (fun _ => Return verdict_no_company) (fun _ => Handshake_ok)
         (fun _ => Return ["2"]) Demo.demo_fetch (Return tt) (fun _ => No_fault).

(** A database that fails every commit, behind a healthy mail server. *)
Definition failing_commits : Env :=
  Demo.env Demo.demo_analyze_email (fun _ => Handshake_ok) ["1"; "2"]
           (fun _ => Fault_in_commit).

(** A database whose first commit fails and which works from then on. *)
Definition failing_once : Env :=
  Demo.env Demo.demo_analyze_email (fun _ => Handshake_ok) ["1"; "3"]
           (fun n => match n with O => Fault_in_commit | S _ => No_fault end).

(** ** The vocabulary of the properties *)

(** The world [w] with [evs] logged on top. *)
Definition add_trace (evs : list event) (w : World) : World :=
  mk_World (jobs w) (trace w ++ evs) (last_checked_json w) (mail w)
           (stop_flag w) (handshakes w) (db_calls w) (email_watcher w)
           (last_sync_label w) (status_indicator w).

(** [m] does nothing but log, and what it answers and logs does not depend on
    the world it starts in. *)
Definition logs_only {A} (m : M A) : Prop :=
  exists r evs, forall w, m w = (r, add_trace evs w).

(** The text [decode_payload] answers for a part: the decoded payload, or the
    empty string when there is none or its charset is unknown. *)
Definition decoded_text (E : Env) (part : Message) : string :=
  match get_payload part with
  | Some payload =>
      match bytes_decode E payload (or_default (get_content_charset part) "utf-8") with
      | Return s => s
      | Raise _ => ""
      end
  | None => ""
  end.

(** The first part of a list whose declared content type is [text/plain]. *)
Definition first_text_plain (ps : list Message) : option Message :=
  find (fun part => get_content_type part =? "text/plain") ps.

(** [m] always ends in a world that [R] relates to the one it started in. *)
Definition respects (R : World -> World -> Prop) {A} (m : M A) : Prop :=
  forall w, R w (snd (m w)).

(** How a successful [update_database] changes the table, for the key
    [(c, p)] its [SELECT] looked up: the rows are rewritten in place with
    their keys kept, or one row with that key is added when none had it. *)
Inductive upserted (c p : sql_value) (rows rows' : list job) : Prop :=
| upserted_update (r : job) (f : job -> job) :
    find_job c p rows = Some r ->
    rows' = map f rows ->
    (forall x, company (f x) = company x /\ position (f x) = position x) ->
    upserted c p rows rows'
| upserted_insert (new : job) :
    find_job c p rows = None ->
    rows' = rows ++ [new] ->
    company new = c -> position new = p ->
    upserted c p rows rows'.

(** The faults that strike after the connection is open, during the lookup,
    the insert or update, or the commit. *)
Definition store_fault (f : db_fault) : bool :=
  match f with
  | Fault_in_select | Fault_in_write | Fault_in_commit => true
  | No_fault | Fault_in_connect => false
  end.

(** The table after the merge of a verdict (company [c], position [p],
    status [s], note [n]) observed on date [d].  A record [r] found under the
    key keeps its id, key, application date and hash, gets [last_updated = d]
    and the note appended after a blank line; its status becomes [s] and it is
    marked as updated when its status was another one, and status and mark
    stay when the status was [s] already; the other rows stay.  Without such
    a record, one is added with the verdict's company, position and status,
    [application_date = last_updated = d] and the note as its notes. *)
Definition merged_by_key (c p s d n : string) (rows rows' : list job) : Prop :=
  match find_job (SqlText c) (SqlText p) rows with
  | Some r =>
      exists r',
        find_job (SqlText c) (SqlText p) rows' = Some r' /\
        List.length rows' = List.length rows /\
        (forall x, In x rows -> id x <> id r -> In x rows') /\
        id r' = id r /\ company r' = company r /\ position r' = position r /\
        application_date r' = application_date r /\
        email_hash r' = email_hash r /\
        last_updated r' = SqlText d /\
        notes r' = sql_concat (sql_concat (notes r) separator) (SqlText n) /\
        (forall old, notes r = SqlText old ->
                     notes r' = SqlText (old ++ newline ++ newline ++ n)%string) /\
        (status r <> SqlText s ->
         status r' = SqlText s /\ updated r' = SqlInteger 1) /\
        (status r = SqlText s ->
         status r' = SqlText s /\ updated r' = updated r)
  | None =>
      exists r',
        rows' = rows ++ [r'] /\
        find_job (SqlText c) (SqlText p) rows' = Some r' /\
        company r' = SqlText c /\ position r' = SqlText p /\
        status r' = SqlText s /\
        application_date r' = SqlText d /\ last_updated r' = SqlText d /\
        notes r' = SqlText n /\ updated r' = SqlInteger 1
  end.

(** The record [r] is the one of the application to company [c] for the
    position [p]. *)
Definition carries_key (c p : string) (r : job) : Prop :=
  company r = SqlText c /\ position r = SqlText p.

(** The three-branch merge as the specification words it, for the verdict
    (company [c], position [p], status [s], note [n]) observed on date [d];
    nothing here refers to the lookup of the code.

    When some record carries the key, the first one that does, [r], is
    replaced by [r'], which is again the first record to carry the key: [r']
    has the id, key, application date and hash of [r] and
    [last_updated = d]; the note is appended after a blank line when the
    stored notes are text (notes that are [NULL] stay [NULL]); a status other
    than [s] becomes [s] and the record is marked as updated, a status [s]
    stays with the mark as it was.  The table keeps its length and every
    record with another id.

    When no record carries the key, one is added at the end with company
    [c], position [p], status [s], [application_date = last_updated = d],
    the note as its notes, and the mark. *)
Definition merged_as_specified (c p s d n : string) (rows rows' : list job) : Prop :=
  (exists before r after before' r' after',
     rows = before ++ r :: after /\
     carries_key c p r /\
     (forall x, In x before -> ~ carries_key c p x) /\
     rows' = before' ++ r' :: after' /\
     carries_key c p r' /\
     (forall x, In x before' -> ~ carries_key c p x) /\
     List.length rows' = List.length rows /\
     (forall x, In x rows -> id x <> id r -> In x rows') /\
     id r' = id r /\
     application_date r' = application_date r /\
     email_hash r' = email_hash r /\
     last_updated r' = SqlText d /\
     (forall old, notes r = SqlText old ->
                  notes r' = SqlText (old ++ newline ++ newline ++ n)%string) /\
     (notes r = SqlNull -> notes r' = SqlNull) /\
     (status r <> SqlText s ->
      status r' = SqlText s /\ updated r' = SqlInteger 1) /\
     (status r = SqlText s ->
      status r' = SqlText s /\ updated r' = updated r))
  \/
  ((forall x, In x rows -> ~ carries_key c p x) /\
   exists r',
     rows' = rows ++ [r'] /\
     company r' = SqlText c /\ position r' = SqlText p /\
     status r' = SqlText s /\
     application_date r' = SqlText d /\ last_updated r' = SqlText d /\
     notes r' = SqlText n /\ updated r' = SqlInteger 1).

(** No two records, at two places of the table, are of the same
    application: carry the same company and the same position, both text. *)
Definition no_duplicate_keys (rows : list job) : Prop :=
  forall c p i j a b,
    nth_error rows i = Some a -> nth_error rows j = Some b ->
    carries_key c p a -> carries_key c p b ->
    i = j.

(** The second of two cycles, run in [E2] after one in [E1], finds the
    mailbox unchanged and the classifier of the same opinion: the search
    from the checkpoint lists the same numbers, and each message is fetched,
    parsed and interpreted as in the first. *)
Definition same_mailbox_and_verdicts (E1 E2 : Env) (last_checked : datetime) : Prop :=
  search_since E2 (strftime E2 last_checked "%d-%b-%Y")
  = search_since E1 (strftime E1 last_checked "%d-%b-%Y") /\
  (forall num, fetch_rfc822 E2 num = fetch_rfc822 E1 num) /\
  (forall m, parse_email E2 m = parse_email E1 m) /\
  (forall d, interpret_email E2 d = interpret_email E1 d).

(** The [WHERE] clause of the lookup, on one row. *)
Definition matches (c p : sql_value) (r : job) : bool :=
  sql_eqb (company r) c && sql_eqb (position r) p.

(** Every (company, position) key the lookup can match is carried by at most
    one record. *)
Definition unique_keys (rows : list job) : Prop :=
  forall c p, List.length (filter (matches c p) rows) <= 1.

(** The same for the keys that are text. *)
Definition unique_text_keys (rows : list job) : Prop :=
  forall c p : string,
    List.length (filter (matches (SqlText c) (SqlText p)) rows) <= 1.

(** A later world keeps the keys unique if the earlier one had them so. *)
Definition keeps_unique_keys (w w' : World) : Prop :=
  unique_keys (jobs w) -> unique_keys (jobs w').

(** Some record carries the key [(c, p)]. *)
Definition has_key (c p : sql_value) (rows : list job) : bool :=
  existsb (matches c p) rows.

(** A later world has every key the earlier one had. *)
Definition keeps_keys (w w' : World) : Prop :=
  forall c p, has_key c p (jobs w) = true -> has_key c p (jobs w') = true.

(** Relations between a world and a later one, by the field that stays. *)
Definition same_stop_flag (w w' : World) : Prop := stop_flag w' = stop_flag w.

Definition same_jobs (w w' : World) : Prop := jobs w' = jobs w.

(** A verdict as the data model has it: company, position, status and note
    are text. *)
Definition text_verdict (jd : job_data) : Prop :=
  exists c p s n, jd = mk_job_data (JStr c) (JStr p) (JStr s) (jd_date jd) (JStr n).

(** The classifier of [E] only gives job-related verdicts of that kind. *)
Definition text_verdicts (E : Env) : Prop :=
  forall d w jd, fst (interpret_email E d w) = Return (Some jd) -> text_verdict jd.

(** The world in which the message loop of a cycle starts. *)
Definition loop_start (E : Env) (last_checked : datetime) (w : World) : World :=
  add_trace [Log DEBUG (Starting_to_fetch last_checked)] (snd (connect E w)).

Definition same_checkpoint (w w' : World) : Prop :=
  last_checked_json w' = last_checked_json w.

(** An event that is a log line. *)
Definition is_log (ev : event) : Prop :=
  match ev with Log _ _ => True | _ => False end.

(** The world after one handshake: the attempt is counted, [self.mail] may
    have been assigned, and something may have been logged. *)
Definition after_handshake (assigned : bool) (evs : list event) (w : World) : World :=
  mk_World (jobs w) (trace w ++ evs) (last_checked_json w) (assigned || mail w)
           (stop_flag w) (S (handshakes w)) (db_calls w) (email_watcher w)
           (last_sync_label w) (status_indicator w).

(** *** What the further properties speak of *)

(** What identifies a record and is fixed when it is created. *)
Definition identity (r : job) : Z * sql_value * sql_value * sql_value * sql_value :=
  (id r, company r, position r, application_date r, email_hash r).

(** What one run of [update_database]'s body, or the decorated function, can
    do to the table: nothing, a rewrite in place that keeps every row's
    identity, or one more row at the end, with the next row id and a key that
    no row carried. *)
Inductive stored (jd : job_data) (rows rows' : list job) : Prop :=
| stored_nothing :
    rows' = rows -> stored jd rows rows'
| stored_update (f : job -> job) :
    rows' = map f rows ->
    (forall x, identity (f x) = identity x) ->
    stored jd rows rows'
| stored_insert (new : job) :
    rows' = rows ++ [new] ->
    id new = lastrowid rows ->
    sql_bind (jd_company jd) = Some (company new) ->
    sql_bind (jd_position jd) = Some (position new) ->
    find_job (company new) (position new) rows = None ->
    stored jd rows rows'.

(** A later world still has every earlier row, in place and with its
    identity; rows may have been added after them. *)
Definition keeps_rows (w w' : World) : Prop :=
  exists added,
    map identity (jobs w') = map identity (jobs w) ++ added.

(** A verdict one of whose fields SQLite cannot bind (a list or a dict). *)
Definition unbindable (jd : job_data) : Prop :=
  sql_bind (jd_company jd) = None \/ sql_bind (jd_position jd) = None \/
  sql_bind (jd_status jd) = None \/ sql_bind (jd_notes jd) = None.

(** The numbers SQLite takes: the integers of 64 bits. *)
Definition fits_sqlite (v : json) : Prop :=
  match v with
  | JNum n => (- 2 ^ 63 <= n < 2 ^ 63)%Z
  | _ => True
  end.

(** A field of a verdict that is [null] or text. *)
Definition null_or_text (v : json) : Prop :=
  v = JNull \/ exists s, v = JStr s.

(** What a cycle leaves of the store once a stop was asked for. *)
Definition stays_stopped (w w' : World) : Prop :=
  stop_flag w = true ->
  stop_flag w' = true /\ jobs w' = jobs w /\ db_calls w' = db_calls w.

(** The table and the count of database connections. *)
Definition store (w : World) : list job * nat := (jobs w, db_calls w).

(** The log only grows. *)
Definition grows_trace (w w' : World) : Prop :=
  exists evs, trace w' = trace w ++ evs.

(** The entry [run] ends with when it has a connection to close. *)
Definition is_logout_entry (ev : event) : Prop :=
  ev = Log DEBUG Logged_out \/ exists e, ev = Log ERROR (Error_during_logout e).

(** Worlds that differ in their log only. *)
Definition same_but_trace (w1 w2 : World) : Prop :=
  jobs w1 = jobs w2 /\ last_checked_json w1 = last_checked_json w2 /\
  mail w1 = mail w2 /\ stop_flag w1 = stop_flag w2 /\
  handshakes w1 = handshakes w2 /\ db_calls w1 = db_calls w2 /\
  email_watcher w1 = email_watcher w2 /\
  last_sync_label w1 = last_sync_label w2 /\
  status_indicator w1 = status_indicator w2.

(** [m] does not read the log: from worlds that differ in their log only it
    answers the same and ends in worlds that differ in their log only. *)
Definition trace_blind {A} (m : M A) : Prop :=
  forall w1 w2, same_but_trace w1 w2 ->
    fst (m w1) = fst (m w2) /\ same_but_trace (snd (m w1)) (snd (m w2)).

(** The message numbers the server can deliver. *)
Definition fetchable (E : Env) (num : string) : bool :=
  match fetch_rfc822 E num with
  | Return _ => true
  | Raise _ => false
  end.

(** *** The window *)

(** The grid is packed: one entry per job id, one grid row per entry, and
    the rows in use are those from 1 up to [next_row]. *)
Definition grid_ok (s : Screen) : Prop :=
  NoDup (map fst (job_rows s)) /\
  NoDup (map (fun kv => row (snd kv)) (job_rows s)) /\
  (forall kv, In kv (job_rows s) -> (1 <= row (snd kv) < next_row s)%Z) /\
  next_row s = (1 + Z.of_nat (List.length (job_rows s)))%Z.

(** The widgets of a row show the record [j]. *)
Definition shows (r : job_row) (j : job) : Prop :=
  company j = SqlText (company_entry r) /\
  position j = SqlText (position_entry r) /\
  status j = SqlText (status_dropdown r) /\
  application_date j = SqlText (application_date_entry r) /\
  last_updated j = SqlText (last_updated_label r).

(** Every row on screen stands for a stored record and shows it. *)
Definition screen_agrees (s : Screen) (w : World) : Prop :=
  forall k r, dict_get k (job_rows s) = Some r ->
    exists j, In j (jobs w) /\ id j = k /\ shows r j.

(** The window before any job is listed. *)
Definition empty_screen : Screen := mk_Screen [] 1 [].

(** The window listing the record of the merge scenario. *)
Definition tracked_screen : Screen :=
  mk_Screen [(1%Z, mk_job_row 1 "Acme" "Backend Engineer" "Applied" "2024-01-10"
                              "2024-01-10" "Application received")] 2 [].

(** * Properties *)

(** ** Worlds that differ by what was logged *)

Lemma add_trace_nil (w : World) : add_trace [] w = w.
Proof. destruct w; unfold add_trace; simpl; now rewrite app_nil_r. Qed.

Lemma add_trace_app (e1 e2 : list event) (w : World) :
  add_trace e2 (add_trace e1 w) = add_trace (e1 ++ e2) w.
Proof. unfold add_trace; simpl; now rewrite app_assoc. Qed.

Lemma emit_add_trace (e : event) (w : World) :
  emit e w = (Return tt, add_trace [e] w).
Proof. reflexivity. Qed.

Lemma logs_only_ret {A} (a : A) : logs_only (ret a).
Proof. exists (Return a), []; intro w; now rewrite add_trace_nil. Qed.

Lemma logs_only_raise {A} (e : exn) : logs_only (@raise A e).
Proof. exists (Raise e), []; intro w; now rewrite add_trace_nil. Qed.

Lemma logs_only_lift {A} (r : result A) : logs_only (lift r).
Proof. exists r, []; intro w; now rewrite add_trace_nil. Qed.

Lemma logs_only_emit (e : event) : logs_only (emit e).
Proof. exists (Return tt), [e]; intro w; apply emit_add_trace. Qed.

Lemma logs_only_bind {A B} (m : M A) (k : A -> M B) :
  logs_only m -> (forall a, logs_only (k a)) -> logs_only (bind m k).
Proof.
  intros (r & evs & Hm) Hk. destruct r as [a|e].
  - destruct (Hk a) as (r' & evs' & Hka).
    exists r', (evs ++ evs'); intro w.
    unfold bind; now rewrite Hm, Hka, add_trace_app.
  - exists (Raise e), evs; intro w. unfold bind; now rewrite Hm.
Qed.

Lemma logs_only_try_except {A} (m : M A) (handler : exn -> option (M A)) :
  logs_only m -> (forall e h, handler e = Some h -> logs_only h) ->
  logs_only (try_except m handler).
Proof.
  intros (r & evs & Hm) Hh. destruct r as [a|e].
  - exists (Return a), evs; intro w. unfold try_except; now rewrite Hm.
  - destruct (handler e) as [h|] eqn:He.
    + destruct (Hh e h He) as (r' & evs' & Hhw).
      exists r', (evs ++ evs'); intro w.
      unfold try_except; now rewrite Hm, He, Hhw, add_trace_app.
    + exists (Raise e), evs; intro w. unfold try_except; now rewrite Hm, He.
Qed.

Ltac logs_step :=
  first
    [ apply logs_only_ret | apply logs_only_raise | apply logs_only_lift
    | apply logs_only_emit
    | apply logs_only_bind; [ | intro ]
    | apply logs_only_try_except; [ | intros ? ? ] ].

Section ParseProperties.

Variable E : Env.

Lemma decode_header_logs (header : string) : logs_only (decode_header E header).
Proof.
  unfold decode_header. apply logs_only_try_except.
  - apply logs_only_bind; [ apply logs_only_lift | intros [ | [[s|b] enc] rest ] ];
      logs_step.
  - intros e h [= <-]. unfold logging. repeat logs_step.
Qed.

(** [decode_header] never raises. *)
Lemma decode_header_returns (header : string) :
  exists s evs, forall w, decode_header E header w = (Return s, add_trace evs w).
Proof.
  unfold decode_header, try_except, bind, lift, logging.
  destruct (email_decode_header E header) as [[ | [[s|b] enc] rest ] | e].
  - exists "", [Log ERROR (Error_decoding_header IndexError)]; intro w; reflexivity.
  - exists s, []; intro w; simpl; now rewrite add_trace_nil.
  - destruct (bytes_decode E b (or_default enc "utf-8")) as [s|e].
    + exists s, []; intro w; simpl; now rewrite add_trace_nil.
    + exists "", [Log ERROR (Error_decoding_header e)]; intro w; reflexivity.
  - exists "", [Log ERROR (Error_decoding_header e)]; intro w; reflexivity.
Qed.

Lemma decode_payload_returns (part : Message) :
  exists evs, forall w,
    decode_payload E part w = (Return (decoded_text E part), add_trace evs w).
Proof.
  unfold decode_payload, decoded_text, try_except, bind, lift, logging.
  destruct (get_payload part) as [payload|].
  - destruct (bytes_decode E payload _) as [s|e].
    + exists []; intro w; simpl; now rewrite add_trace_nil.
    + exists [Log ERROR (Error_decoding_payload e)]; intro w; reflexivity.
  - exists [Log ERROR (Error_decoding_payload (AttributeError "decode"))];
      intro w; reflexivity.
Qed.

Lemma body_of_parts_returns (ps : list Message) :
  exists evs, forall w,
    body_of_parts E ps w =
      (Return (match first_text_plain ps with
               | Some part => decoded_text E part
               | None => ""
               end), add_trace evs w).
Proof.
  induction ps as [ | part rest IH ]; simpl.
  - exists []; intro w; unfold ret; now rewrite add_trace_nil.
  - destruct (get_content_type part =? "text/plain").
    + apply decode_payload_returns.
    + exact IH.
Qed.

Lemma parse_email_logs (m : Message) : logs_only (parse_email E m).
Proof.
  unfold parse_email. apply logs_only_try_except.
  - apply logs_only_bind; [ apply decode_header_logs | intro subject ].
    apply logs_only_bind.
    + unfold parsedate_to_datetime. destruct (get m "Date"); logs_step.
    + intro date. apply logs_only_bind; [ | intro; logs_step ].
      destruct (is_multipart m).
      * destruct (body_of_parts_returns (walk m)) as (evs & H).
        eexists _, evs; exact H.
      * destruct (decode_payload_returns m) as (evs & H).
        eexists _, evs; exact H.
  - intros e h [= <-]. unfold logging. repeat logs_step.
Qed.

(** What [parse_email] answers, whatever the world. *)
Lemma parse_email_dated (m : Message) (s : string) (date : datetime) :
  get m "Date" = Some s -> parsedate E s = Return date ->
  exists subject evs, forall w,
    parse_email E m w =
      (Return (Some (mk_email_data subject
                       (snd (parseaddr E (get_or m "From" ""))) date
                       (if is_multipart m
                        then match first_text_plain (walk m) with
                             | Some part => decoded_text E part
                             | None => ""
                             end
                        else decoded_text E m))),
       add_trace evs w).
Proof.
  intros Hget Hdate.
  destruct (decode_header_returns (get_or m "Subject" "")) as (subject & e1 & H1).
  assert (Hbody : exists evs, forall w,
             (if is_multipart m then body_of_parts E (walk m) else decode_payload E m) w
             = (Return (if is_multipart m
                        then match first_text_plain (walk m) with
                             | Some part => decoded_text E part
                             | None => ""
                             end
                        else decoded_text E m), add_trace evs w)).
  { destruct (is_multipart m);
      [ apply body_of_parts_returns | apply decode_payload_returns ]. }
  destruct Hbody as (e2 & H2).
  exists subject, (e1 ++ e2); intro w.
  unfold parse_email, try_except, bind, parsedate_to_datetime.
  rewrite H1, Hget. unfold lift. rewrite Hdate, H2. unfold ret.
  now rewrite add_trace_app.
Qed.

Lemma parse_email_undated (m : Message) :
  get m "Date" = None ->
  exists evs, forall w,
    parse_email E m w =
      (Return None,
       add_trace (evs ++ [Log ERROR (Error_parsing_email (parsedate_of_none E))]) w).
Proof.
  intro Hget.
  destruct (decode_header_returns (get_or m "Subject" "")) as (subject & e1 & H1).
  exists e1; intro w.
  unfold parse_email, try_except, bind, parsedate_to_datetime.
  rewrite H1, Hget. unfold raise, logging. rewrite emit_add_trace. unfold ret.
  now rewrite add_trace_app.
Qed.

Lemma parse_email_some_inv (m : Message) (w w' : World) (d : email_data) :
  parse_email E m w = (Return (Some d), w') ->
  exists s, get m "Date" = Some s /\ parsedate E s = Return (ed_date d).
Proof.
  intro H.
  destruct (get m "Date") as [s|] eqn:Hget.
  - destruct (parsedate E s) as [date|e] eqn:Hdate.
    + destruct (parse_email_dated m s date Hget Hdate) as (subject & evs & Hp).
      rewrite Hp in H. injection H as Hd _. subst d. exists s; split; auto.
    + exfalso.
      destruct (decode_header_returns (get_or m "Subject" "")) as (subject & e1 & H1).
      revert H. unfold parse_email, try_except, bind, parsedate_to_datetime.
      rewrite H1, Hget. unfold lift. rewrite Hdate.
      unfold logging. rewrite emit_add_trace. unfold ret. discriminate.
  - destruct (parse_email_undated m Hget) as (evs & Hp).
    rewrite Hp in H. discriminate.
Qed.

End ParseProperties.

(** ** Decoding a message *)

Lemma find_first_split {A} (f : A -> bool) (l : list A) (x : A) :
  find f l = Some x ->
  exists pre post, l = pre ++ x :: post /\ f x = true /\
                   Forall (fun y => f y = false) pre.
Proof.
  induction l as [ | a l IH ]; simpl; [ discriminate | ].
  destruct (f a) eqn:Hfa.
  - intros [= <-]. exists [], l; repeat split; auto.
  - intro H. destruct (IH H) as (pre & post & -> & Hx & Hpre).
    exists (a :: pre), post; repeat split; auto.
Qed.

(** C9, the claim as it holds: a multipart message whose [Date] header is
    present and parses decodes successfully; without a [text/plain] part among
    the parts [walk()] visits its body is empty, and otherwise the body is the
    decoded text of the first such part. *)
Theorem multipart_body_is_first_plain_text_part
    (E : Env) (m : Message) (s : string) (date : datetime) (w : World) :
  is_multipart m = true ->
  get m "Date" = Some s ->
  parsedate E s = Return date ->
  exists d w',
    parse_email E m w = (Return (Some d), w') /\
    jobs w' = jobs w /\
    match first_text_plain (walk m) with
    | None => ed_body d = ""%string
    | Some part =>
        ed_body d = decoded_text E part /\
        exists pre post,
          walk m = pre ++ part :: post /\
          get_content_type part = "text/plain"%string /\
          Forall (fun p => get_content_type p <> "text/plain"%string) pre
    end.
Proof.
  intros Hmulti Hget Hdate.
  destruct (parse_email_dated E m s date Hget Hdate) as (subject & evs & Hp).
  eexists _, _; split; [ apply Hp | split; [ reflexivity | ] ].
  rewrite Hmulti; simpl.
  destruct (first_text_plain (walk m)) as [part|] eqn:Hfind; [ | reflexivity ].
  split; [ reflexivity | ].
  destruct (find_first_split _ _ _ Hfind) as (pre & post & Hw & Hx & Hpre).
  exists pre, post; repeat split; auto.
  - now apply String.eqb_eq.
  - eapply Forall_impl; [ | exact Hpre ]. intros p Hp'. now apply String.eqb_neq.
Qed.

Lemma multipart_body_is_first_plain_text_part_witness :
  exists d w',
    parse_email (Demo.healthy []) Demo.msg_alternative Demo.start
      = (Return (Some d), w') /\
    jobs w' = jobs Demo.start /\
    match first_text_plain (walk Demo.msg_alternative) with
    | None => ed_body d = ""%string
    | Some part =>
        ed_body d = decoded_text (Demo.healthy []) part /\
        exists pre post,
          walk Demo.msg_alternative = pre ++ part :: post /\
          get_content_type part = "text/plain"%string /\
          Forall (fun p => get_content_type p <> "text/plain"%string) pre
    end.
Proof.
  apply (multipart_body_is_first_plain_text_part (Demo.healthy [])
           Demo.msg_alternative "Mon, 15 Jan 2024 09:30:00 +0000" Demo.jan15
           Demo.start); reflexivity.
Defined.

(** C9 as stated fails: an HTML-only multipart message without a [Date]
    header has no plain-text part, and decoding it answers the failure value
    [None], not a message with an empty body. *)
Lemma html_only_undated_message_fails_to_decode :
  is_multipart Demo.msg_html_only_undated = true /\
  first_text_plain (walk Demo.msg_html_only_undated) = None /\
  parse_email (Demo.healthy []) Demo.msg_html_only_undated Demo.start
    = (Return None,
       add_trace [Log ERROR (Error_parsing_email ValueError)] Demo.start).
Proof. repeat split. Qed.

(** With the [Date] header in place the same message decodes to an empty
    body. *)
Example html_only_message_decodes_to_empty_body :
  exists d,
    fst (parse_email (Demo.healthy []) Demo.msg_html_only Demo.start)
      = Return (Some d) /\ ed_body d = ""%string.
Proof. eexists; split; reflexivity. Qed.

(** C10: a message without a [Date] header fails to decode as a whole
    ([parse_email] answers [None], whatever its subject, sender and body are)
    and [process_email] passes over it with a warning, touching neither the
    classifier nor the store; and [parse_email] answers a record only for a
    message whose [Date] header is present and parses. *)
Theorem undated_message_is_skipped
    (E : Env) (m : Message) (email_id : string) (w : World) :
  get m "Date" = None ->
  (exists w', parse_email E m w = (Return None, w') /\ jobs w' = jobs w) /\
  (exists evs,
     process_email E email_id m w =
       (Return tt,
        add_trace (evs ++ [Log ERROR (Error_parsing_email (parsedate_of_none E));
                           Log WARNING (Failed_to_parse email_id)]) w)) /\
  (forall m' d w1 w2,
     parse_email E m' w1 = (Return (Some d), w2) ->
     exists s, get m' "Date" = Some s /\ parsedate E s = Return (ed_date d)).
Proof.
  intro Hget.
  destruct (parse_email_undated E m Hget) as (evs & Hp).
  repeat split.
  - eexists; split; [ apply Hp | reflexivity ].
  - exists evs. unfold process_email, bind. rewrite Hp.
    unfold logging. rewrite emit_add_trace, add_trace_app.
    now rewrite <- app_assoc.
  - intros m' d w1 w2. apply parse_email_some_inv.
Qed.

Lemma undated_message_is_skipped_witness :
  (exists w',
     parse_email (Demo.healthy ["7"]) Demo.msg_undated Demo.start
       = (Return None, w') /\ jobs w' = jobs Demo.start) /\
  (exists evs,
     process_email (Demo.healthy ["7"]) "7" Demo.msg_undated Demo.start =
       (Return tt,
        add_trace (evs ++ [Log ERROR (Error_parsing_email ValueError);
                           Log WARNING (Failed_to_parse "7")]) Demo.start)) /\
  (forall m' d w1 w2,
     parse_email (Demo.healthy ["7"]) m' w1 = (Return (Some d), w2) ->
     exists s, get m' "Date" = Some s /\
               parsedate (Demo.healthy ["7"]) s = Return (ed_date d)).
Proof.
  apply (undated_message_is_skipped (Demo.healthy ["7"]) Demo.msg_undated "7"
           Demo.start).
  reflexivity.
Defined.

(** ** Interpreting the classifier's answer *)

Section InterpretProperties.

Variable E : Env.

Lemma interpret_email_logs (d : email_data) : logs_only (interpret_email E d).
Proof.
  unfold interpret_email.
  apply logs_only_bind; [ apply logs_only_lift | intro raw ].
  apply logs_only_try_except.
  - apply logs_only_bind; [ destruct (json_loads E raw); logs_step | intro v ].
    apply logs_only_bind; [ apply logs_only_lift | intro flag ].
    destruct (truthy flag); repeat logs_step.
  - intros e h. destruct e; intros [= <-]. unfold logging. repeat logs_step.
Qed.

(** An answer that is not JSON: one error entry, and [None]. *)
Lemma interpret_email_unparseable (d : email_data) (raw : string) (w : World) :
  analyze_email E (email_content d) = Return raw ->
  json_loads E raw = None ->
  interpret_email E d w
    = (Return None, add_trace [Log ERROR (Error_decoding_JSON raw)] w).
Proof.
  intros Hraw Hloads.
  unfold interpret_email, bind, lift, try_except. rewrite Hraw, Hloads.
  reflexivity.
Qed.

(** A verdict whose [job_related] is false: [None], and nothing logged. *)
Lemma interpret_email_unrelated
    (d : email_data) (raw : string) (v flag : json) (w : World) :
  analyze_email E (email_content d) = Return raw ->
  json_loads E raw = Some v ->
  subscript v "job_related" = Return flag ->
  truthy flag = false ->
  interpret_email E d w = (Return None, w).
Proof.
  intros Hraw Hloads Hsub Hflag.
  unfold interpret_email, bind, lift, try_except. rewrite Hraw, Hloads.
  unfold ret. rewrite Hsub, Hflag. reflexivity.
Qed.

(** A job-related verdict with all four fields. *)
Lemma interpret_email_related
    (d : email_data) (raw : string) (v flag c p s n : json) (w : World) :
  analyze_email E (email_content d) = Return raw ->
  json_loads E raw = Some v ->
  subscript v "job_related" = Return flag ->
  truthy flag = true ->
  subscript v "company_name" = Return c ->
  subscript v "job_position" = Return p ->
  subscript v "application_status" = Return s ->
  subscript v "email_content" = Return n ->
  interpret_email E d w
    = (Return (Some (mk_job_data c p s (strftime E (ed_date d) "%Y-%m-%d") n)), w).
Proof.
  intros Hraw Hloads Hsub Hflag Hc Hp Hs Hn.
  unfold interpret_email, bind, lift, try_except. rewrite Hraw, Hloads.
  unfold ret. rewrite Hsub, Hflag, Hc, Hp, Hs, Hn. reflexivity.
Qed.

End InterpretProperties.

(** C3, the claim as it holds: an answer of the classifier that is not JSON is
    logged as an error and the message is passed over, the store untouched and
    nothing raised; [interpret_email] answers it with the same [None] it gives
    a verdict whose [job_related] is false, [process_email] logs both as not
    job-related, and only the error entry tells the two apart. *)
Theorem unparseable_answer_is_logged_and_skipped
    (E : Env) (m : Message) (email_id : string) (d : email_data) (raw : string)
    (w : World) :
  fst (parse_email E m w) = Return (Some d) ->
  analyze_email E (email_content d) = Return raw ->
  json_loads E raw = None ->
  interpret_email E d w
    = (Return None, add_trace [Log ERROR (Error_decoding_JSON raw)] w) /\
  (exists evs,
     process_email E email_id m w =
       (Return tt,
        add_trace (evs ++ [Log ERROR (Error_decoding_JSON raw);
                           Log DEBUG (Not_job_related email_id)]) w)) /\
  (forall E' raw' v flag,
     parse_email E' m = parse_email E m ->
     analyze_email E' (email_content d) = Return raw' ->
     json_loads E' raw' = Some v ->
     subscript v "job_related" = Return flag ->
     truthy flag = false ->
     interpret_email E' d w = (Return None, w) /\
     exists evs,
       process_email E' email_id m w =
         (Return tt, add_trace (evs ++ [Log DEBUG (Not_job_related email_id)]) w)).
Proof.
  intros Hparse Hraw Hloads.
  destruct (parse_email_logs E m) as (r & evs & Hp).
  rewrite Hp in Hparse; simpl in Hparse; subst r.
  split; [ now apply interpret_email_unparseable | split ].
  - exists evs. unfold process_email, bind. rewrite Hp.
    rewrite (interpret_email_unparseable E d raw _ Hraw Hloads).
    unfold logging. now rewrite emit_add_trace, !add_trace_app.
  - intros E' raw' v flag HE' Hraw' Hloads' Hsub Hflag.
    split; [ now apply (interpret_email_unrelated E' d raw' v flag) | ].
    exists evs. unfold process_email, bind. rewrite HE', Hp.
    rewrite (interpret_email_unrelated E' d raw' v flag _ Hraw' Hloads' Hsub Hflag).
    unfold logging. now rewrite emit_add_trace, !add_trace_app.
Qed.

Lemma unparseable_answer_is_logged_and_skipped_witness :
  interpret_email (Demo.healthy ["4"])
      (mk_email_data "Hello" "jobs@acme.example" Demo.jan15 "Long time no see.")
      Demo.start
    = (Return None,
       add_trace [Log ERROR (Error_decoding_JSON Demo.verdict_prose)] Demo.start) /\
  (exists evs,
     process_email (Demo.healthy ["4"]) "4" Demo.msg_prose Demo.start =
       (Return tt,
        add_trace (evs ++ [Log ERROR (Error_decoding_JSON Demo.verdict_prose);
                           Log DEBUG (Not_job_related "4")]) Demo.start)) /\
  (forall E' raw' v flag,
     parse_email E' Demo.msg_prose = parse_email (Demo.healthy ["4"]) Demo.msg_prose ->
     analyze_email E'
       (email_content
          (mk_email_data "Hello" "jobs@acme.example" Demo.jan15 "Long time no see."))
       = Return raw' ->
     json_loads E' raw' = Some v ->
     subscript v "job_related" = Return flag ->
     truthy flag = false ->
     interpret_email E'
         (mk_email_data "Hello" "jobs@acme.example" Demo.jan15 "Long time no see.")
         Demo.start = (Return None, Demo.start) /\
     exists evs,
       process_email E' "4" Demo.msg_prose Demo.start =
         (Return tt, add_trace (evs ++ [Log DEBUG (Not_job_related "4")]) Demo.start)).
Proof.
  apply (unparseable_answer_is_logged_and_skipped (Demo.healthy ["4"])
           Demo.msg_prose "4"
           (mk_email_data "Hello" "jobs@acme.example" Demo.jan15 "Long time no see.")
           Demo.verdict_prose Demo.start); reflexivity.
Defined.

(** C3 as stated fails.  For one and the same message, a classifier answer
    that is not JSON and the well-formed verdict whose [job_related] is false
    make [interpret_email] answer the same value, and [process_email] logs the
    message as not job-related in both cases; an answer of the wrong shape,
    with [null] for [job_related], ends in exactly the world the well-formed
    verdict ends in. *)
Lemma unparseable_answer_is_handled_as_not_job_related :
  json_loads (Demo.answering Demo.verdict_prose) Demo.verdict_prose = None /\
  fst (interpret_email (Demo.answering Demo.verdict_prose)
         (mk_email_data "Your application to Acme" "jobs@acme.example" Demo.jan15
                        "We would like to invite you to an interview.")
         Demo.start)
  = fst (interpret_email (Demo.answering Demo.verdict_unrelated)
           (mk_email_data "Your application to Acme" "jobs@acme.example" Demo.jan15
                          "We would like to invite you to an interview.")
           Demo.start) /\
  process_email (Demo.answering Demo.verdict_prose) "1" Demo.msg_interview Demo.start
  = (Return tt,
     add_trace [Log ERROR (Error_decoding_JSON Demo.verdict_prose);
                Log DEBUG (Not_job_related "1")] Demo.start) /\
  process_email (Demo.answering Demo.verdict_unrelated) "1" Demo.msg_interview Demo.start
  = (Return tt, add_trace [Log DEBUG (Not_job_related "1")] Demo.start) /\
  process_email (Demo.answering Demo.verdict_null) "1" Demo.msg_interview Demo.start
  = process_email (Demo.answering Demo.verdict_unrelated) "1" Demo.msg_interview
      Demo.start.
Proof. repeat split. Qed.

(** ** What a computation leaves in place

    [R w w'] relates a world to a later one.  A computation respects [R] when
    it always ends in a world related to the one it started in; the lemmas
    follow the shape of the code, so that a property of the primitive steps
    carries over to [run] and to the loop that calls it. *)

Section Frame.

Variable R : World -> World -> Prop.

Hypothesis R_refl : forall w, R w w.
Hypothesis R_trans : forall a b c, R a b -> R b c -> R a c.

Lemma respects_ret {A} (a : A) : respects R (ret a).
Proof. intro w; apply R_refl. Qed.

Lemma respects_raise {A} (e : exn) : respects R (@raise A e).
Proof. intro w; apply R_refl. Qed.

Lemma respects_lift {A} (r : result A) : respects R (lift r).
Proof. intro w; apply R_refl. Qed.

Lemma respects_bind {A B} (m : M A) (k : A -> M B) :
  respects R m -> (forall a, respects R (k a)) -> respects R (bind m k).
Proof.
  intros Hm Hk w. specialize (Hm w). unfold bind.
  destruct (m w) as [[a|e] w1]; simpl in *; [ | exact Hm ].
  eapply R_trans; [ exact Hm | apply Hk ].
Qed.

Lemma respects_try_except {A} (m : M A) (handler : exn -> option (M A)) :
  respects R m -> (forall e h, handler e = Some h -> respects R h) ->
  respects R (try_except m handler).
Proof.
  intros Hm Hh w. specialize (Hm w). unfold try_except.
  destruct (m w) as [[a|e] w1]; simpl in *; [ exact Hm | ].
  destruct (handler e) as [h|] eqn:He; [ | exact Hm ].
  eapply R_trans; [ exact Hm | apply (Hh e h He) ].
Qed.

Lemma respects_try_finally {A} (m : M A) (f : M unit) :
  respects R m -> respects R f -> respects R (try_finally m f).
Proof.
  intros Hm Hf w. specialize (Hm w). unfold try_finally.
  destruct (m w) as [r w1]; simpl in *. specialize (Hf w1).
  destruct (f w1) as [[u|e] w2]; simpl in *; eapply R_trans; eauto.
Qed.

Hypothesis R_trace : forall evs w, R w (add_trace evs w).

Lemma respects_emit (e : event) : respects R (emit e).
Proof. intro w; rewrite emit_add_trace; apply R_trace. Qed.

Lemma respects_logs_only {A} (m : M A) : logs_only m -> respects R m.
Proof. intros (r & evs & H) w; rewrite H; apply R_trace. Qed.

Lemma respects_on_exception {A} (retryable : exn -> bool) (n : nat) (target : M A) :
  respects R target -> respects R (on_exception retryable n target).
Proof.
  intro Ht. induction n as [ | n IH ]; intro w; simpl; specialize (Ht w);
    destruct (target w) as [[a|e] w1]; simpl in *; try exact Ht.
  destruct (retryable e); simpl; [ | exact Ht ].
  eapply R_trans; [ exact Ht | ].
  apply (respects_bind (emit Backoff_wait) (fun _ => on_exception retryable n target));
    [ apply respects_emit | intro; exact IH ].
Qed.

Hypothesis R_mail : forall b w, R w (snd (set_mail b w)).
Hypothesis R_handshake : forall w, R w (snd (count_handshake w)).

Variable E : Env.

Lemma connect_respects : respects R (connect E).
Proof.
  unfold connect, backoff_on_exception. apply respects_on_exception.
  unfold connect_body. apply respects_try_except.
  - apply respects_bind; [ exact R_handshake | intro n ].
    destruct (handshake E n); unfold logging;
      repeat first [ apply respects_bind; [ | intro ]
                   | apply respects_ret | apply respects_raise
                   | apply respects_emit | exact (R_mail _) ].
  - intros e h. destruct e; intros [= <-].
    apply respects_bind; [ apply respects_emit | intro; apply respects_ret ].
Qed.

Lemma run_logout_respects : respects R (run_logout E).
Proof.
  unfold run_logout.
  apply respects_bind; [ intro w; apply R_refl | intros [ | ] ];
    [ | apply respects_ret ].
  apply respects_try_except.
  - apply respects_bind; [ apply respects_lift | intro; apply respects_emit ].
  - intros e h [= <-]. apply respects_emit.
Qed.

Hypothesis update_respects : forall jd, respects R (update_database_body E jd).

Lemma update_database_respects (jd : job_data) : respects R (update_database E jd).
Proof.
  unfold update_database, backoff_on_exception.
  apply respects_on_exception, update_respects.
Qed.

Lemma process_email_respects (email_id : string) (m : Message) :
  respects R (process_email E email_id m).
Proof.
  unfold process_email.
  apply respects_bind; [ apply respects_logs_only, parse_email_logs | ].
  intros [d| ]; [ | apply respects_emit ].
  apply respects_bind; [ apply respects_logs_only, interpret_email_logs | ].
  intros [jd| ]; [ apply update_database_respects | apply respects_emit ].
Qed.

Lemma loop_body_respects (email_id : string) (m : Message) :
  respects R (loop_body E email_id m).
Proof.
  unfold loop_body.
  apply respects_bind; [ intro w; apply R_refl | intros [ | ] ];
    [ apply respects_ret | ].
  apply respects_bind; [ apply respects_emit | intro ].
  apply respects_bind; [ apply process_email_respects | intro; apply respects_ret ].
Qed.

Lemma fetch_each_respects (nums : list string) (body : string -> Message -> M bool) :
  (forall num m, respects R (body num m)) -> respects R (fetch_each E nums body).
Proof.
  intro Hbody. induction nums as [ | num rest IH ]; simpl.
  - apply respects_ret.
  - destruct (fetch_rfc822 E num) as [m|e].
    + apply respects_bind; [ apply Hbody | intros [ | ] ];
        [ apply respects_ret | exact IH ].
    + apply respects_bind; [ apply respects_emit | intro; exact IH ].
Qed.

Lemma fetch_new_emails_respects (last_checked : datetime)
    (body : string -> Message -> M bool) :
  (forall num m, respects R (body num m)) ->
  respects R (fetch_new_emails E last_checked body).
Proof.
  intro Hbody. unfold fetch_new_emails.
  destruct (search_since E _) as [nums|e].
  - now apply fetch_each_respects.
  - destruct e; apply respects_emit.
Qed.

Lemma run_respects (last_checked : datetime) : respects R (run E last_checked).
Proof.
  unfold run. apply respects_try_finally; [ | apply run_logout_respects ].
  apply respects_try_except.
  - apply respects_bind; [ apply connect_respects | intros [ | ] ];
      [ | apply respects_ret ].
    apply respects_bind; [ apply respects_emit | intro ].
    apply respects_bind; [ | intro; apply respects_emit ].
    apply fetch_new_emails_respects, loop_body_respects.
  - intros e h. destruct e; intros [= <-]; apply respects_emit.
Qed.

Hypothesis R_label : forall l w, R w (snd (set_last_sync_label l w)).
Hypothesis R_indicator : forall c w, R w (snd (set_status_indicator c w)).

Lemma update_sync_time_respects : respects R (update_sync_time E).
Proof.
  unfold update_sync_time. apply respects_try_except.
  - apply respects_bind; [ intro w; apply R_refl | intro file ].
    apply respects_bind;
      [ destruct file; [ apply respects_ret | apply respects_raise ] | intro text ].
    apply respects_bind;
      [ destruct (json_loads E text); [ apply respects_ret | apply respects_raise ]
      | intro data ].
    apply respects_bind; [ apply respects_lift | intro field ].
    apply respects_bind; [ | intro; exact (R_label _) ].
    destruct field; first [ apply respects_lift | apply respects_raise ].
  - intros e h. destruct e; intros [= <-]; exact (R_label _).
Qed.

Lemma update_status_indicator_respects : respects R (update_status_indicator E).
Proof.
  unfold update_status_indicator.
  apply respects_bind; [ intro w; apply R_refl | intro present ].
  apply respects_bind; [ | intro; exact (R_indicator _) ].
  destruct present; [ apply connect_respects | apply respects_ret ].
Qed.

Lemma call_run_respects (args : list datetime) : respects R (call_run E args).
Proof.
  unfold call_run, getattr_email_watcher.
  apply respects_bind.
  - apply respects_bind; [ intro w; apply R_refl | intro present ].
    destruct (_ && _); [ apply respects_ret | apply respects_raise ].
  - intro. destruct args as [ | lc [ | ] ];
      first [ apply run_respects | apply respects_raise ].
Qed.

Lemma run_email_watcher_turn_respects : respects R (run_email_watcher_turn E).
Proof.
  unfold run_email_watcher_turn.
  apply respects_try_finally; [ | apply update_status_indicator_respects ].
  apply respects_try_except.
  - apply respects_bind; [ apply respects_emit | intro ].
    apply respects_bind; [ apply call_run_respects | intro ].
    apply respects_bind; [ apply update_sync_time_respects | intro ].
    apply respects_emit.
  - intros e h [= <-].
    apply respects_bind; [ apply respects_emit | intro; apply respects_emit ].
Qed.

Lemma run_email_watcher_respects (turns : nat) : respects R (run_email_watcher E turns).
Proof.
  induction turns as [ | n IH ]; simpl.
  - apply respects_ret.
  - apply respects_bind; [ intro w; apply R_refl | intros [ | ] ];
      [ apply respects_ret | ].
    apply respects_bind; [ apply run_email_watcher_turn_respects | intro; exact IH ].
Qed.

End Frame.

(** ** The store *)

#[local] Arguments py_ne : simpl never.

Ltac split_statement :=
  match goal with
  | |- context [ match sql_bind ?x with _ => _ end ] =>
      destruct (sql_bind x) eqn:?
  | |- context [ match find_job ?c ?p ?r with _ => _ end ] =>
      destruct (find_job c p r) eqn:?
  | |- context [ if py_ne ?a ?b then _ else _ ] =>
      destruct (py_ne a b) eqn:?
  end.

Ltac run_body :=
  unfold try_finally, try_except, bind, sqlite3_connect, ret, raise, get_jobs,
    execute_select, option_map, execute_update_status, execute_update_notes,
    execute_insert, commit, if_conn, logging, emit, set_jobs;
  simpl.

Section StoreProperties.

Variable E : Env.

(** One run of the body either raises and leaves the table as it was, or
    returns after an upsert. *)
Lemma update_database_body_outcome (jd : job_data) (w : World) :
  match update_database_body E jd w with
  | (Raise e, w') => jobs w' = jobs w
  | (Return _, w') =>
      exists c p,
        sql_bind (jd_company jd) = Some c /\
        sql_bind (jd_position jd) = Some p /\
        upserted c p (jobs w) (jobs w')
  end.
Proof.
  unfold update_database_body, bind at 1, count_db_call at 1. cbv beta iota.
  destruct (db_fault_at E (db_calls w)); run_body;
    repeat (split_statement; simpl); try reflexivity.
  all: eexists _, _; split; [ reflexivity | split; [ reflexivity | ] ].
  all: first
         [ eapply upserted_update;
           [ eassumption | reflexivity
           | intro x; cbv beta; destruct (id x =? _)%Z; simpl; auto ]
         | eapply upserted_insert; [ eassumption | reflexivity.. ] ].
Qed.

(** Every run of the body counts as one call. *)
Lemma update_database_body_counts (jd : job_data) (w : World) :
  db_calls (snd (update_database_body E jd w)) = S (db_calls w).
Proof.
  unfold update_database_body, bind at 1, count_db_call at 1. cbv beta iota.
  destruct (db_fault_at E (db_calls w)); run_body;
    repeat (split_statement; simpl); reflexivity.
Qed.

(** A fault after the connection is open: the error is logged, the
    transaction rolled back and the [sqlite3.Error] raised again. *)
Lemma update_database_body_store_fault (jd : job_data) (w : World) :
  store_fault (db_fault_at E (db_calls w)) = true ->
  exists w',
    update_database_body E jd w = (Raise sqlite3_Error, w') /\
    jobs w' = jobs w /\
    db_calls w' = S (db_calls w) /\
    exists evs, trace w' = trace w ++ evs ++ [Log ERROR (Database_error sqlite3_Error)].
Proof.
  intro Hfault.
  unfold update_database_body, bind at 1, count_db_call at 1. cbv beta iota.
  destruct (db_fault_at E (db_calls w)); try discriminate; run_body;
    repeat (split_statement; simpl);
    eexists; (split; [ reflexivity | ]); simpl; repeat split;
    first [ now exists [] | eexists [_]; now rewrite <- app_assoc ].
Qed.

(** When [sqlite3.connect] itself fails, the handler trips over the unbound
    [conn] and that is what the caller sees. *)
Lemma update_database_body_connect_fault (jd : job_data) (w : World) :
  db_fault_at E (db_calls w) = Fault_in_connect ->
  exists w',
    update_database_body E jd w = (Raise (UnboundLocalError "conn"), w') /\
    jobs w' = jobs w.
Proof.
  intro Hfault.
  unfold update_database_body, bind at 1, count_db_call at 1. cbv beta iota.
  rewrite Hfault. run_body. eexists; split; reflexivity.
Qed.

(** *** The decorator around it *)

Lemma on_exception_return {A} (retryable : exn -> bool) (n : nat) (target : M A)
    (w w' : World) (a : A) :
  target w = (Return a, w') ->
  on_exception retryable n target w = (Return a, w').
Proof. intro H; destruct n; simpl; now rewrite H. Qed.

(** While the target keeps raising, the decorator keeps whatever each failed
    call and each wait keep; a returning call is a call of the target from
    such a world. *)
Lemma on_exception_outcome {A} (retryable : exn -> bool) (target : M A)
    (I : World -> World -> Prop) :
  (forall w, I w w) ->
  (forall a b c, I a b -> I b c -> I a c) ->
  (forall w, I w (add_trace [Backoff_wait] w)) ->
  (forall w e w', target w = (Raise e, w') -> I w w') ->
  forall n w,
    match on_exception retryable n target w with
    | (Raise e, w') => I w w'
    | (Return a, w') => exists w1, I w w1 /\ target w1 = (Return a, w')
    end.
Proof.
  intros Irefl Itrans Iwait Iraise. induction n as [ | n IH ]; intro w; simpl.
  - destruct (target w) as [[a|e] w'] eqn:Ht.
    + exists w; auto.
    + eauto.
  - destruct (target w) as [[a|e] w'] eqn:Ht.
    + exists w; auto.
    + destruct (retryable e); [ | eauto ].
      unfold bind. rewrite emit_add_trace.
      specialize (IH (add_trace [Backoff_wait] w')).
      destruct (on_exception retryable n target _) as [[a|e'] w''].
      * destruct IH as (w1 & HI & Hret). exists w1; split; [ | exact Hret ].
        eapply Itrans; [ eapply Iraise, Ht | ]. eapply Itrans; [ apply Iwait | exact HI ].
      * eapply Itrans; [ eapply Iraise, Ht | ]. eapply Itrans; [ apply Iwait | exact IH ].
Qed.

(** The decorated [update_database]: an exception means the table is as it
    was; a return means one upsert happened on the table as it was. *)
Lemma update_database_outcome (jd : job_data) (w : World) :
  match update_database E jd w with
  | (Raise e, w') => jobs w' = jobs w
  | (Return _, w') =>
      exists c p,
        sql_bind (jd_company jd) = Some c /\
        sql_bind (jd_position jd) = Some p /\
        upserted c p (jobs w) (jobs w')
  end.
Proof.
  unfold update_database, backoff_on_exception.
  pose proof (on_exception_outcome is_sqlite3_Error (update_database_body E jd)
                (fun a b => jobs b = jobs a)) as H.
  specialize (H (fun _ => eq_refl)).
  specialize (H (fun a b c Hab Hbc => eq_trans Hbc Hab)).
  specialize (H (fun _ => eq_refl)).
  assert (Hraise : forall w0 e w', update_database_body E jd w0 = (Raise e, w') ->
                                   jobs w' = jobs w0).
  { intros w0 e w' Hb. pose proof (update_database_body_outcome jd w0) as Ho.
    now rewrite Hb in Ho. }
  specialize (H Hraise (3 - 1) w).
  destruct (on_exception _ _ _ w) as [[u|e] w']; [ | exact H ].
  destruct H as (w1 & Hjobs & Hret).
  pose proof (update_database_body_outcome jd w1) as Ho. rewrite Hret in Ho.
  now rewrite Hjobs in Ho.
Qed.

End StoreProperties.

(** *** The merge, branch by branch *)

Lemma find_map_keep {A} (pred : A -> bool) (f : A -> A) (l : list A) :
  (forall x, pred (f x) = pred x) ->
  find pred (map f l) = option_map f (find pred l).
Proof.
  intro Hkeep. induction l as [ | a l IH ]; simpl; [ reflexivity | ].
  rewrite Hkeep. destruct (pred a); [ reflexivity | exact IH ].
Qed.

Lemma find_app_none {A} (pred : A -> bool) (l l' : list A) :
  find pred l = None -> find pred (l ++ l') = find pred l'.
Proof.
  induction l as [ | a l IH ]; simpl; [ reflexivity | ].
  destruct (pred a); [ discriminate | exact IH ].
Qed.

Lemma append_assoc (a b c : string) : ((a ++ b) ++ c = a ++ (b ++ c))%string.
Proof. induction a as [ | x a IH ]; simpl; [ reflexivity | now rewrite IH ]. Qed.

Lemma py_ne_text_false (s : string) (v : sql_value) :
  py_ne (JStr s) v = false <-> v = SqlText s.
Proof.
  destruct v as [ | k | t ]; unfold py_ne; split; try discriminate.
  - intro H. apply negb_false_iff, String.eqb_eq in H. now subst.
  - intros [= ->]. now rewrite String.eqb_refl.
Qed.

Lemma py_ne_text_true (s : string) (v : sql_value) :
  py_ne (JStr s) v = true <-> v <> SqlText s.
Proof.
  split.
  - intros H Heq. apply py_ne_text_false in Heq. congruence.
  - intro H. destruct (py_ne (JStr s) v) eqn:Hne; [ reflexivity | ].
    now apply py_ne_text_false in Hne.
Qed.

Lemma find_job_key (c p : sql_value) (rows : list job) (r : job) :
  find_job c p rows = Some r ->
  sql_eqb (company r) c = true /\ sql_eqb (position r) p = true /\ In r rows.
Proof.
  intro H. apply find_some in H. destruct H as (Hin & Hkey).
  apply andb_true_iff in Hkey. tauto.
Qed.

(** What [update_database] does with a verdict whose fields are text when no
    database error strikes, by the branch it takes. *)
Lemma update_database_text_verdict
    (E : Env) (w : World) (c p s d n : string) :
  db_fault_at E (db_calls w) = No_fault ->
  exists w',
    update_database E (mk_job_data (JStr c) (JStr p) (JStr s) d (JStr n)) w
      = (Return tt, w') /\
    merged_by_key c p s d n (jobs w) (jobs w').
Proof.
  unfold merged_by_key.
  intro Hfault.
  assert (Hconcat : forall old,
             sql_concat (sql_concat (SqlText old) separator) (SqlText n)
             = SqlText (old ++ newline ++ newline ++ n)%string).
  { intro old. unfold sql_concat, separator; simpl.
    now rewrite !append_assoc. }
  destruct (find_job (SqlText c) (SqlText p) (jobs w)) as [r|] eqn:Hfind.
  - destruct (find_job_key _ _ _ _ Hfind) as (Hc & Hp & Hin).
    destruct (py_ne (JStr s) (status r)) eqn:Hne.
    + eexists; split.
      { unfold update_database, backoff_on_exception. apply on_exception_return.
        unfold update_database_body, bind at 1, count_db_call at 1.
        cbv beta iota. rewrite Hfault. run_body. rewrite Hfind; simpl.
        rewrite Hne. reflexivity. }
      simpl. unfold find_job. rewrite find_map_keep.
      2:{ intro x. destruct (id x =? id r)%Z; reflexivity. }
      fold (find_job (SqlText c) (SqlText p) (jobs w)). rewrite Hfind. simpl.
      rewrite Z.eqb_refl. eexists; split; [ reflexivity | ]. simpl.
      repeat split; auto; try congruence;
        first
          [ apply List.length_map
          | intros x Hx Hid; apply in_map_iff; exists x; split; [ | exact Hx ];
            apply Z.eqb_neq in Hid; now rewrite Hid
          | intros old Hold; rewrite Hold; exact (Hconcat old)
          | match goal with
            | H : status r = SqlText s |- _ =>
                apply py_ne_text_false in H; congruence
            end ].
    + eexists; split.
      { unfold update_database, backoff_on_exception. apply on_exception_return.
        unfold update_database_body, bind at 1, count_db_call at 1.
        cbv beta iota. rewrite Hfault. run_body. rewrite Hfind; simpl.
        rewrite Hne. reflexivity. }
      apply py_ne_text_false in Hne.
      simpl. unfold find_job. rewrite find_map_keep.
      2:{ intro x. destruct (id x =? id r)%Z; reflexivity. }
      fold (find_job (SqlText c) (SqlText p) (jobs w)). rewrite Hfind. simpl.
      rewrite Z.eqb_refl. eexists; split; [ reflexivity | ]. simpl.
      repeat split; auto; try congruence;
        first
          [ apply List.length_map
          | intros x Hx Hid; apply in_map_iff; exists x; split; [ | exact Hx ];
            apply Z.eqb_neq in Hid; now rewrite Hid
          | intros old Hold; rewrite Hold; exact (Hconcat old)
          | match goal with
            | H : status r = SqlText s |- _ =>
                apply py_ne_text_false in H; congruence
            end ].
  - eexists; split.
    { unfold update_database, backoff_on_exception. apply on_exception_return.
      unfold update_database_body, bind at 1, count_db_call at 1.
      cbv beta iota. rewrite Hfault. run_body. rewrite Hfind; simpl.
      reflexivity. }
    simpl. eexists; split; [ reflexivity | ].
    split; [ | repeat split ].
    unfold find_job. rewrite find_app_none by exact Hfind.
    simpl. now rewrite !String.eqb_refl.
Qed.

(** Only a run of the body that meets no fault returns. *)
Lemma update_database_body_returns_without_fault
    (E : Env) (jd : job_data) (w w' : World) (u : unit) :
  update_database_body E jd w = (Return u, w') ->
  db_fault_at E (db_calls w) = No_fault.
Proof.
  unfold update_database_body, bind at 1, count_db_call at 1. cbv beta iota.
  destruct (db_fault_at E (db_calls w)); run_body;
    repeat (split_statement; simpl); first [ reflexivity | discriminate ].
Qed.

(** Whenever [update_database] returns on a text verdict, the table is merged
    as the lookup of the code finds the record. *)
Lemma update_database_text_merged
    (E : Env) (w w' : World) (c p s d n : string) :
  update_database E (mk_job_data (JStr c) (JStr p) (JStr s) d (JStr n)) w
    = (Return tt, w') ->
  merged_by_key c p s d n (jobs w) (jobs w').
Proof.
  intro Hret.
  pose proof (on_exception_outcome is_sqlite3_Error
                (update_database_body E
                   (mk_job_data (JStr c) (JStr p) (JStr s) d (JStr n)))
                same_jobs) as H.
  specialize (H (fun _ => eq_refl)).
  specialize (H (fun a b c0 Hab Hbc => eq_trans Hbc Hab)).
  specialize (H (fun _ => eq_refl)).
  assert (Hraise : forall w0 e w1,
             update_database_body E
               (mk_job_data (JStr c) (JStr p) (JStr s) d (JStr n)) w0
             = (Raise e, w1) -> same_jobs w0 w1).
  { intros w0 e w1 Hb.
    pose proof (update_database_body_outcome E
                  (mk_job_data (JStr c) (JStr p) (JStr s) d (JStr n)) w0) as Ho.
    now rewrite Hb in Ho. }
  specialize (H Hraise (3 - 1) w).
  unfold update_database, backoff_on_exception in Hret. rewrite Hret in H.
  destruct H as (w1 & Hjobs & Hbody). unfold same_jobs in Hjobs.
  pose proof (update_database_body_returns_without_fault E _ _ _ _ Hbody) as Hfault.
  destruct (update_database_text_verdict E w1 c p s d n Hfault)
    as (w'' & Hup & Hmerged).
  unfold update_database, backoff_on_exception in Hup.
  rewrite (on_exception_return _ _ _ _ _ _ Hbody) in Hup.
  injection Hup as <-. now rewrite Hjobs in Hmerged.
Qed.

(** The lookup of the code and the key of the specification: on text, the
    [WHERE] clause holds of a record exactly when the record carries the
    key, and [fetchone] answers the first record that does. *)
Lemma sql_eqb_text (v : sql_value) (t : string) :
  sql_eqb v (SqlText t) = true <-> v = SqlText t.
Proof.
  destruct v as [ | k | t' ]; simpl; split; intro H; try discriminate.
  - apply String.eqb_eq in H. now subst.
  - injection H as ->. apply String.eqb_refl.
Qed.

Lemma where_clause_is_the_key (c p : string) (r : job) :
  sql_eqb (company r) (SqlText c) && sql_eqb (position r) (SqlText p) = true
  <-> carries_key c p r.
Proof.
  unfold carries_key. rewrite andb_true_iff, !sql_eqb_text. tauto.
Qed.

Lemma find_job_is_the_first_with_the_key (c p : string) (rows : list job) (r : job) :
  find_job (SqlText c) (SqlText p) rows = Some r ->
  exists before after,
    rows = before ++ r :: after /\
    carries_key c p r /\
    forall x, In x before -> ~ carries_key c p x.
Proof.
  intro Hfind. unfold find_job in Hfind.
  destruct (find_first_split _ _ _ Hfind) as (before & after & Hrows & Hr & Hbefore).
  exists before, after. split; [ exact Hrows | ].
  split; [ now apply where_clause_is_the_key | ].
  intros x Hx Hkey. rewrite Forall_forall in Hbefore.
  specialize (Hbefore x Hx). cbv beta in Hbefore.
  apply where_clause_is_the_key in Hkey. congruence.
Qed.

Lemma find_job_finds_none_with_the_key (c p : string) (rows : list job) :
  find_job (SqlText c) (SqlText p) rows = None ->
  forall x, In x rows -> ~ carries_key c p x.
Proof.
  intros Hfind x Hx Hkey. unfold find_job in Hfind.
  pose proof (find_none _ _ Hfind x Hx) as H. cbv beta in H.
  apply where_clause_is_the_key in Hkey. congruence.
Qed.

Lemma merged_by_key_as_specified (c p s d n : string) (rows rows' : list job) :
  merged_by_key c p s d n rows rows' -> merged_as_specified c p s d n rows rows'.
Proof.
  unfold merged_by_key, merged_as_specified.
  destruct (find_job (SqlText c) (SqlText p) rows) as [r| ] eqn:Hfind.
  - intros (r' & Hfind' & Hlen & Hothers & Hid & Hco & Hpo & Hdate & Hhash & Hlast
              & Hnotes & Hold & Hnew & Hsame).
    left.
    destruct (find_job_is_the_first_with_the_key c p rows r Hfind)
      as (before & after & Hrows & Hkey & Hbefore).
    destruct (find_job_is_the_first_with_the_key c p rows' r' Hfind')
      as (before' & after' & Hrows' & Hkey' & Hbefore').
    exists before, r, after, before', r', after'.
    repeat (split; [ assumption | ]).
    split; [ | split; assumption ].
    intro Hnull. rewrite Hnotes, Hnull. reflexivity.
  - intros (r' & Hrows' & _ & Hrest). right.
    split; [ now apply find_job_finds_none_with_the_key | ].
    exists r'. split; [ exact Hrows' | exact Hrest ].
Qed.




Example merge_with_a_new_status :
  jobs (snd (update_database (Demo.healthy [])
               (mk_job_data (JStr "Acme") (JStr "Backend Engineer")
                            (JStr "Interview") "2024-01-15"
                            (JStr "Interview scheduled"))
               tracked))
  = [mk_job 1 (SqlText "Acme") (SqlText "Backend Engineer") (SqlText "Interview")
            (SqlText "2024-01-10") (SqlText "2024-01-15")
            (SqlText ("Application received" ++ newline ++ newline
                        ++ "Interview scheduled"))
            (SqlInteger 1) SqlNull].
Proof. reflexivity. Qed.

Example merge_with_the_same_status :
  jobs (snd (update_database (Demo.healthy [])
               (mk_job_data (JStr "Acme") (JStr "Backend Engineer")
                            (JStr "Applied") "2024-01-15"
                            (JStr "Still under review"))
               tracked))
  = [mk_job 1 (SqlText "Acme") (SqlText "Backend Engineer") (SqlText "Applied")
            (SqlText "2024-01-10") (SqlText "2024-01-15")
            (SqlText ("Application received" ++ newline ++ newline
                        ++ "Still under review"))
            (SqlInteger 0) SqlNull].
Proof. reflexivity. Qed.

Example merge_without_a_record :
  jobs (snd (update_database (Demo.healthy [])
               (mk_job_data (JStr "Globex") (JStr "Data Engineer")
                            (JStr "Applied") "2024-01-15"
                            (JStr "Application received"))
               tracked))
  = [tracked_job;
     mk_job 2 (SqlText "Globex") (SqlText "Data Engineer") (SqlText "Applied")
            (SqlText "2024-01-15") (SqlText "2024-01-15")
            (SqlText "Application received") (SqlInteger 1) SqlNull].
Proof. reflexivity. Qed.

(** *** One record per key *)

Lemma sql_eqb_eq (a b : sql_value) : sql_eqb a b = true -> a = b.
Proof.
  destruct a, b; simpl; try discriminate.
  - intro H. apply Z.eqb_eq in H. now subst.
  - intro H. apply String.eqb_eq in H. now subst.
Qed.

Lemma matches_same_key (c p c' p' : sql_value) (r : job) :
  matches c p r = true -> matches c' p' r = true -> c' = c /\ p' = p.
Proof.
  unfold matches. intros H H'.
  apply andb_true_iff in H, H'. destruct H as (Hc & Hp), H' as (Hc' & Hp').
  apply sql_eqb_eq in Hc, Hp, Hc', Hp'. split; congruence.
Qed.

Lemma filter_map_keep {A} (pred : A -> bool) (f : A -> A) (l : list A) :
  (forall x, pred (f x) = pred x) ->
  List.length (filter pred (map f l)) = List.length (filter pred l).
Proof.
  intro Hkeep. induction l as [ | a l IH ]; simpl; [ reflexivity | ].
  rewrite Hkeep. destruct (pred a); simpl; now rewrite IH.
Qed.

Lemma find_none_filter {A} (pred : A -> bool) (l : list A) :
  find pred l = None -> filter pred l = [].
Proof.
  induction l as [ | a l IH ]; simpl; [ reflexivity | ].
  destruct (pred a); [ discriminate | exact IH ].
Qed.

Lemma upserted_unique_keys (c p : sql_value) (rows rows' : list job) :
  upserted c p rows rows' -> unique_keys rows -> unique_keys rows'.
Proof.
  intros [ r f Hfind -> Hkeep | new Hfind -> Hc Hp ] Huniq c' p'.
  - rewrite filter_map_keep; [ apply Huniq | ].
    intro x. unfold matches. destruct (Hkeep x) as (-> & ->). reflexivity.
  - rewrite filter_app, length_app. simpl.
    destruct (matches c' p' new) eqn:Hnew; simpl; [ | specialize (Huniq c' p'); lia ].
    assert (Hsame : matches c p new = true).
    { unfold matches in *. rewrite Hc, Hp in *.
      apply andb_true_iff in Hnew. destruct Hnew as (H1 & H2).
      pose proof (sql_eqb_eq _ _ H1). pose proof (sql_eqb_eq _ _ H2). subst c' p'.
      now rewrite H1, H2. }
    destruct (matches_same_key _ _ _ _ _ Hsame Hnew) as (-> & ->).
    unfold find_job in Hfind. fold (matches c p) in Hfind.
    change (fun r : job => sql_eqb (company r) c && sql_eqb (position r) p)
      with (matches c p) in Hfind.
    rewrite (find_none_filter _ _ Hfind). simpl. lia.
Qed.

Lemma run_keeps_unique_keys (E : Env) (last_checked : datetime) (w : World) :
  keeps_unique_keys w (snd (run E last_checked w)).
Proof.
  apply (run_respects keeps_unique_keys); unfold keeps_unique_keys; auto.
  intros jd w0 Huniq.
  pose proof (update_database_body_outcome E jd w0) as Ho.
  destruct (update_database_body E jd w0) as [[u|e] w']; simpl.
  - destruct Ho as (c & p & _ & _ & Hup). eapply upserted_unique_keys; eauto.
  - now rewrite Ho.
Qed.

(** The same for the keys that are text, in the words of the specification. *)
Lemma filter_nil_none {A} (f : A -> bool) (l : list A) :
  filter f l = [] <-> forall x, In x l -> f x = false.
Proof.
  induction l as [ | a l IH ]; simpl.
  - split; [ intros _ x [] | reflexivity ].
  - destruct (f a) eqn:Ha.
    + split; [ discriminate | ]. intro H. specialize (H a (or_introl eq_refl)).
      congruence.
    + rewrite IH. split.
      * intros H x [ <- | Hx ]; auto.
      * intros H x Hx. apply H. now right.
Qed.

Lemma filter_at_most_one {A} (f : A -> bool) (l : list A) :
  List.length (filter f l) <= 1 <->
  (forall i j a b,
     nth_error l i = Some a -> nth_error l j = Some b ->
     f a = true -> f b = true -> i = j).
Proof.
  induction l as [ | x l IH ]; simpl.
  - split; [ intros _ [ | i ] j a b H; discriminate | lia ].
  - destruct (f x) eqn:Hx; simpl.
    + split.
      * intros Hlen.
        assert (Hnone : forall y, In y l -> f y = false).
        { apply filter_nil_none. destruct (filter f l); [ reflexivity | simpl in Hlen; lia ]. }
        intros [ | i ] [ | j ] a b Ha Hb Hfa Hfb; simpl in *; try reflexivity.
        -- apply nth_error_In in Hb. specialize (Hnone b Hb). congruence.
        -- apply nth_error_In in Ha. specialize (Hnone a Ha). congruence.
        -- apply nth_error_In in Ha. specialize (Hnone a Ha). congruence.
      * intros Hone.
        assert (Hnil : filter f l = []).
        { apply filter_nil_none. intros y Hy.
          destruct (f y) eqn:Hfy; [ exfalso | reflexivity ].
          destruct (In_nth_error _ _ Hy) as (k & Hk).
          specialize (Hone 0 (S k) x y eq_refl Hk Hx Hfy). discriminate. }
        rewrite Hnil. simpl. lia.
    + rewrite IH. split.
      * intros Hone [ | i ] [ | j ] a b Ha Hb Hfa Hfb; simpl in *;
          try (injection Ha as <-; congruence);
          try (injection Hb as <-; congruence).
        f_equal. now apply (Hone i j a b).
      * intros Hone i j a b Ha Hb Hfa Hfb.
        specialize (Hone (S i) (S j) a b Ha Hb Hfa Hfb). now injection Hone.
Qed.

Lemma matches_text (c p : string) (r : job) :
  matches (SqlText c) (SqlText p) r = true <-> carries_key c p r.
Proof. unfold matches. apply where_clause_is_the_key. Qed.

Lemma no_duplicate_keys_unique_text_keys (rows : list job) :
  no_duplicate_keys rows <-> unique_text_keys rows.
Proof.
  unfold no_duplicate_keys, unique_text_keys. split.
  - intros H c p. apply filter_at_most_one. intros i j a b Ha Hb Hfa Hfb.
    apply (H c p i j a b Ha Hb); now apply matches_text.
  - intros H c p i j a b Ha Hb Hka Hkb.
    apply (proj1 (filter_at_most_one _ _) (H c p) i j a b Ha Hb);
      now apply matches_text.
Qed.

Lemma upserted_unique_text_keys (c p : sql_value) (rows rows' : list job) :
  upserted c p rows rows' -> unique_text_keys rows -> unique_text_keys rows'.
Proof.
  intros [ r f Hfind -> Hkeep | new Hfind -> Hc Hp ] Huniq c' p'.
  - rewrite filter_map_keep; [ apply Huniq | ].
    intro x. unfold matches. destruct (Hkeep x) as (-> & ->). reflexivity.
  - rewrite filter_app, length_app. simpl.
    destruct (matches (SqlText c') (SqlText p') new) eqn:Hnew; simpl;
      [ | specialize (Huniq c' p'); lia ].
    apply matches_text in Hnew. destruct Hnew as (Hc' & Hp').
    assert (Hce : c = SqlText c') by congruence.
    assert (Hpe : p = SqlText p') by congruence.
    rewrite Hce, Hpe in Hfind.
    unfold find_job in Hfind.
    change (fun r : job => sql_eqb (company r) (SqlText c')
                           && sql_eqb (position r) (SqlText p'))
      with (matches (SqlText c') (SqlText p')) in Hfind.
    rewrite (find_none_filter _ _ Hfind). simpl. lia.
Qed.

(** No cycle, whatever its mail server, classifier and database, makes two
    records of one application. *)
Lemma run_keeps_no_duplicate_keys (E : Env) (last_checked : datetime) (w : World) :
  no_duplicate_keys (jobs w) -> no_duplicate_keys (jobs (snd (run E last_checked w))).
Proof.
  rewrite !no_duplicate_keys_unique_text_keys.
  apply (run_respects
           (fun a b => unique_text_keys (jobs a) -> unique_text_keys (jobs b)));
    auto.
  intros jd w0 Huniq.
  pose proof (update_database_body_outcome E jd w0) as Ho.
  destruct (update_database_body E jd w0) as [[u|e] w']; simpl.
  - destruct Ho as (c & p & _ & _ & Hup). eapply upserted_unique_text_keys; eauto.
  - now rewrite Ho.
Qed.

(** ** A store failure inside a cycle *)

Section CycleProperties.

Variable E : Env.

Lemma on_exception_retry {A} (retryable : exn -> bool) (n : nat) (target : M A)
    (w w1 : World) (e : exn) :
  target w = (Raise e, w1) -> retryable e = true ->
  on_exception retryable (S n) target w
    = on_exception retryable n target (add_trace [Backoff_wait] w1).
Proof. intros Ht Hr. simpl. now rewrite Ht, Hr. Qed.

Lemma on_exception_give_up {A} (retryable : exn -> bool) (target : M A)
    (w w1 : World) (e : exn) :
  target w = (Raise e, w1) ->
  on_exception retryable 0 target w = (Raise e, w1).
Proof. intro Ht. simpl. now rewrite Ht. Qed.

(** Three failed attempts in a row: the third error reaches the caller. *)
Lemma update_database_gives_up (jd : job_data) (w : World) :
  (forall k, k < 3 -> store_fault (db_fault_at E (db_calls w + k)) = true) ->
  exists w',
    update_database E jd w = (Raise sqlite3_Error, w') /\
    jobs w' = jobs w /\
    db_calls w' = db_calls w + 3.
Proof.
  intro Hfaults.
  unfold update_database, backoff_on_exception. change (3 - 1) with 2.
  destruct (update_database_body_store_fault E jd w) as (w1 & H1 & J1 & C1 & _).
  { specialize (Hfaults 0). rewrite Nat.add_0_r in Hfaults. apply Hfaults; lia. }
  rewrite (on_exception_retry _ _ _ _ _ _ H1 eq_refl).
  destruct (update_database_body_store_fault E jd (add_trace [Backoff_wait] w1))
    as (w2 & H2 & J2 & C2 & _).
  { simpl. rewrite C1. specialize (Hfaults 1).
    replace (db_calls w + 1) with (S (db_calls w)) in Hfaults by lia.
    apply Hfaults; lia. }
  rewrite (on_exception_retry _ _ _ _ _ _ H2 eq_refl).
  destruct (update_database_body_store_fault E jd (add_trace [Backoff_wait] w2))
    as (w3 & H3 & J3 & C3 & _).
  { simpl. rewrite C2. simpl. rewrite C1. specialize (Hfaults 2).
    replace (db_calls w + 2) with (S (S (db_calls w))) in Hfaults by lia.
    apply Hfaults; lia. }
  rewrite (on_exception_give_up _ _ _ _ _ H3).
  exists w3; split; [ reflexivity | split ].
  - rewrite J3; simpl. rewrite J2; simpl. exact J1.
  - rewrite C3; simpl. rewrite C2; simpl. rewrite C1. lia.
Qed.

(** A message that decodes and is classified as job-related is handed to
    [update_database], whatever the world. *)
Lemma process_email_reaches_the_store
    (email_id : string) (m : Message) (d : email_data) (jd : job_data) (w : World) :
  fst (parse_email E m w) = Return (Some d) ->
  fst (interpret_email E d w) = Return (Some jd) ->
  exists evs, forall w0,
    process_email E email_id m w0 = update_database E jd (add_trace evs w0).
Proof.
  intros Hparse Hinterpret.
  destruct (parse_email_logs E m) as (r1 & e1 & H1).
  destruct (interpret_email_logs E d) as (r2 & e2 & H2).
  rewrite H1 in Hparse; rewrite H2 in Hinterpret; simpl in *; subst r1 r2.
  exists (e1 ++ e2); intro w0.
  unfold process_email, bind. now rewrite H1, H2, add_trace_app.
Qed.

Lemma run_logout_returns (w : World) : fst (run_logout E w) = Return tt.
Proof.
  unfold run_logout, bind, get_mail, try_except, lift, logging.
  destruct (mail w); [ | reflexivity ].
  destruct (logout E) as [[]|e]; reflexivity.
Qed.

(** [run] catches whatever its cycle raises. *)
Lemma run_returns (last_checked : datetime) (w : World) :
  fst (run E last_checked w) = Return tt.
Proof.
  unfold run, try_finally.
  match goal with |- context [ try_except ?m ?h w ] =>
    destruct (try_except m h w) as [r w1] eqn:Htry end.
  assert (Hr : r = Return tt).
  { revert Htry. unfold try_except.
    match goal with |- (match ?c with _ => _ end = _ -> _) =>
      destruct c as [[[]|e] w0] end.
    - now intros [= <- _].
    - destruct e; unfold logging; rewrite emit_add_trace; now intros [= <- _]. }
  subst r. pose proof (run_logout_returns w1) as Hl.
  destruct (run_logout E w1) as [[[]|e] w2]; simpl in *; [ reflexivity | discriminate ].
Qed.

Lemma update_database_body_same_checkpoint (jd : job_data) :
  respects same_checkpoint (update_database_body E jd).
Proof.
  intro w. unfold same_checkpoint.
  unfold update_database_body, bind at 1, count_db_call at 1. cbv beta iota.
  destruct (db_fault_at E (db_calls w)); run_body;
    repeat (split_statement; simpl); reflexivity.
Qed.

Lemma run_same_checkpoint (last_checked : datetime) (w : World) :
  last_checked_json (snd (run E last_checked w)) = last_checked_json w.
Proof.
  apply (run_respects same_checkpoint); unfold same_checkpoint; auto.
  - intros a b c Hab Hbc. congruence.
  - apply update_database_body_same_checkpoint.
Qed.

End CycleProperties.

(** C7, the claim as it holds: a store failure.  One attempt that fails
    during the lookup, the insert or update, or the commit logs the error,
    leaves the stored records as they were and raises the [sqlite3.Error]
    again; the decorator tries three times in all, and when all three fail the
    error reaches the caller with the records still unchanged; in the cycle
    the exception leaves the loop at that message, so that no later message is
    processed; and [run] ends without ever writing the checkpoint. *)
Theorem store_failure_rolls_back_and_aborts_the_cycle (E : Env) :
  (forall jd w,
     store_fault (db_fault_at E (db_calls w)) = true ->
     exists w',
       update_database_body E jd w = (Raise sqlite3_Error, w') /\
       jobs w' = jobs w /\
       db_calls w' = S (db_calls w) /\
       exists evs,
         trace w' = trace w ++ evs ++ [Log ERROR (Database_error sqlite3_Error)]) /\
  (forall jd w e w', update_database E jd w = (Raise e, w') -> jobs w' = jobs w) /\
  (forall num m rest d jd w,
     fetch_rfc822 E num = Return m ->
     stop_flag w = false ->
     fst (parse_email E m w) = Return (Some d) ->
     fst (interpret_email E d w) = Return (Some jd) ->
     (forall k, k < 3 -> store_fault (db_fault_at E (db_calls w + k)) = true) ->
     exists w',
       fetch_each E (num :: rest) (loop_body E) w = (Raise sqlite3_Error, w') /\
       jobs w' = jobs w /\
       db_calls w' = db_calls w + 3) /\
  (forall last_checked w,
     fst (run E last_checked w) = Return tt /\
     last_checked_json (snd (run E last_checked w)) = last_checked_json w).
Proof.
  repeat split.
  - intros jd w. apply update_database_body_store_fault.
  - intros jd w e w' H. pose proof (update_database_outcome E jd w) as Ho.
    now rewrite H in Ho.
  - intros num m rest d jd w Hfetch Hstop Hparse Hinterpret Hfaults.
    destruct (process_email_reaches_the_store E num m d jd w Hparse Hinterpret)
      as (evs & Hprocess).
    destruct (update_database_gives_up E jd
                (add_trace evs (add_trace [Log DEBUG (Processing_email num)] w)))
      as (w' & Hup & Hjobs & Hcalls); [ exact Hfaults | ].
    exists w'. split; [ | split; [ exact Hjobs | exact Hcalls ] ].
    simpl. rewrite Hfetch.
    unfold bind at 1. unfold loop_body, bind at 1, get_stop_flag.
    rewrite Hstop. unfold bind at 1, logging. rewrite emit_add_trace.
    unfold bind. now rewrite Hprocess, Hup.
  - apply run_returns.
  - apply run_same_checkpoint.
Qed.

Lemma store_failure_rolls_back_and_aborts_the_cycle_witness :
  exists w',
    fetch_each failing_commits ["1"; "2"] (loop_body failing_commits) Demo.start
      = (Raise sqlite3_Error, w') /\
    jobs w' = jobs Demo.start /\
    db_calls w' = db_calls Demo.start + 3.
Proof.
  apply (proj1 (proj2 (proj2
           (store_failure_rolls_back_and_aborts_the_cycle failing_commits)))
           "1" Demo.msg_interview ["2"]
           (mk_email_data "Your application to Acme" "jobs@acme.example" Demo.jan15
                          "We would like to invite you to an interview.")
           (mk_job_data (JStr "Acme") (JStr "Backend Engineer") (JStr "Interview")
                        "2024-01-15" (JStr "Interview scheduled"))
           Demo.start); reflexivity.
Defined.

(** C7 as stated fails: a store failure does not by itself abort the cycle.
    The first commit fails, is rolled back and raised again; the decorator
    waits and calls [update_database] a second time, which stores the record;
    the cycle goes on to the next message and finishes. *)
Lemma transient_store_failure_does_not_abort_the_cycle :
  run failing_once Demo.jan14 Demo.start
  = (Return tt,
     mk_World [ingested_job]
       [Log DEBUG Connected_to_server;
        Log DEBUG (Starting_to_fetch Demo.jan14);
        Log DEBUG (Processing_email "1");
        Log DEBUG (Inserted_new_job (JStr "Acme") (JStr "Backend Engineer"));
        Log ERROR (Database_error sqlite3_Error);
        Backoff_wait;
        Log DEBUG (Inserted_new_job (JStr "Acme") (JStr "Backend Engineer"));
        Log DEBUG (Database_updated (JStr "Acme") (JStr "Backend Engineer"));
        Log DEBUG (Processing_email "3");
        Log DEBUG (Not_job_related "3");
        Log DEBUG Finished_processing;
        Log DEBUG Logged_out]
       (Some Demo.checkpoint_text) true false 1 2 true Last_sync_never Red).
Proof. vm_compute. reflexivity. Qed.

(** The whole cycle on a database that fails every commit: three attempts on
    the first message,
    the error logged by [run], the second message never reached, nothing
    stored and the checkpoint file as it was. *)
Example cycle_with_failing_commits :
  run failing_commits Demo.jan14 Demo.start
  = (Return tt,
     mk_World []
       [Log DEBUG Connected_to_server;
        Log DEBUG (Starting_to_fetch Demo.jan14);
        Log DEBUG (Processing_email "1");
        Log DEBUG (Inserted_new_job (JStr "Acme") (JStr "Backend Engineer"));
        Log ERROR (Database_error sqlite3_Error);
        Backoff_wait;
        Log DEBUG (Inserted_new_job (JStr "Acme") (JStr "Backend Engineer"));
        Log ERROR (Database_error sqlite3_Error);
        Backoff_wait;
        Log DEBUG (Inserted_new_job (JStr "Acme") (JStr "Backend Engineer"));
        Log ERROR (Database_error sqlite3_Error);
        Log ERROR (Unexpected_error_in_run sqlite3_Error);
        Log DEBUG Logged_out]
       (Some Demo.checkpoint_text) true false 1 3 true Last_sync_never Red).
Proof. reflexivity. Qed.

(** ** Connecting *)

Section ConnectProperties.

Variable E : Env.

(** One call of [connect_body] makes one handshake, logs at most one line and
    never lets an [IMAP4.error] out. *)
Lemma connect_body_outcome (w : World) :
  exists r assigned evs,
    connect_body E w = (r, after_handshake assigned evs w) /\
    Forall is_log evs /\
    match r with
    | Raise e => is_IMAP4_error e = false
    | Return _ => True
    end.
Proof.
  unfold connect_body, try_except, bind at 1, count_handshake at 1. cbv beta iota.
  destruct (handshake E (handshakes w)) as [ | e | e | e ];
    unfold bind, set_mail, logging, emit, ret, raise; simpl.
  - exists (Return true), true, [Log DEBUG Connected_to_server].
    repeat split; repeat first [ exact I | constructor ].
  - destruct e;
      first [ solve [ exists (Return false), false,
                                [Log ERROR (Error_connecting IMAP4_error)];
                      unfold after_handshake; simpl; repeat split;
                      repeat first [ exact I | constructor ] ]
            | solve [ eexists (Raise _), false, [];
                      unfold after_handshake; simpl; rewrite app_nil_r;
                      repeat split; repeat first [ exact I | constructor ] ] ].
  - destruct e;
      first [ solve [ exists (Return false), true,
                                [Log ERROR (Error_connecting IMAP4_error)];
                      unfold after_handshake; simpl; repeat split;
                      repeat first [ exact I | constructor ] ]
            | solve [ eexists (Raise _), true, [];
                      unfold after_handshake; simpl; rewrite app_nil_r;
                      repeat split; repeat first [ exact I | constructor ] ] ].
  - destruct e;
      first [ solve [ exists (Return false), true,
                                [Log ERROR (Error_connecting IMAP4_error)];
                      unfold after_handshake; simpl; repeat split;
                      repeat first [ exact I | constructor ] ]
            | solve [ eexists (Raise _), true, [];
                      unfold after_handshake; simpl; rewrite app_nil_r;
                      repeat split; repeat first [ exact I | constructor ] ] ].
Qed.

(** The decorator never sees the exception it waits for, so [connect] is one
    call of its body. *)
Lemma connect_is_one_attempt (w : World) : connect E w = connect_body E w.
Proof.
  unfold connect, backoff_on_exception. change (3 - 1) with 2. simpl.
  destruct (connect_body_outcome w) as (r & assigned & evs & H & _ & Hr).
  rewrite H. destruct r as [b|e]; [ reflexivity | now rewrite Hr ].
Qed.

End ConnectProperties.

(** C6, what the code does: [connect] makes exactly one handshake per call,
    whatever its outcome, and waits for nothing; a handshake that ends in an
    [IMAP4.error] is caught inside the body, before the decorator can see it,
    and answered with [False] at once. *)
Theorem connect_never_retries (E : Env) (w : World) :
  connect E w = connect_body E w /\
  handshakes (snd (connect E w)) = S (handshakes w) /\
  exists evs,
    trace (snd (connect E w)) = trace w ++ evs /\ ~ In Backoff_wait evs.
Proof.
  rewrite connect_is_one_attempt.
  destruct (connect_body_outcome E w) as (r & assigned & evs & H & Hlog & _).
  rewrite H; simpl. repeat split.
  exists evs; split; [ reflexivity | ].
  intro Hin. rewrite Forall_forall in Hlog. apply (Hlog _ Hin).
Qed.

(** A server that rejects the first login and would accept the second:
    [connect] answers [False] after the one attempt. *)
Example connect_gives_up_after_one_rejected_login :
  connect
    (Demo.env Demo.demo_analyze_email
       (fun n => match n with O => Fails_in_login IMAP4_error | _ => Handshake_ok end)
       [] (fun _ => No_fault))
    Demo.start
  = (Return false,
     mk_World [] [Log ERROR (Error_connecting IMAP4_error)]
              (Some Demo.checkpoint_text) true false 1 0 true Last_sync_never Red).
Proof. reflexivity. Qed.

(** ** The poller *)

Section PollerProperties.

Variable E : Env.

Lemma update_status_indicator_outcome (w : World) :
  exists evs,
    trace (snd (update_status_indicator E w)) = trace w ++ evs /\
    Forall is_log evs /\
    jobs (snd (update_status_indicator E w)) = jobs w.
Proof.
  unfold update_status_indicator, bind, get_email_watcher.
  destruct (email_watcher w).
  - rewrite connect_is_one_attempt.
    destruct (connect_body_outcome E w) as (r & assigned & evs & H & Hlog & _).
    rewrite H. exists evs. destruct r; simpl; auto.
  - exists []. simpl. rewrite app_nil_r. auto.
Qed.

(** The call [self.email_watcher.run()] never enters [run]. *)
Lemma call_run_without_arguments (w : World) :
  call_run E [] w
  = (Raise (if email_watcher w then TypeError else AttributeError "run"), w).
Proof.
  unfold call_run, getattr_email_watcher, bind, get_email_watcher.
  destruct (email_watcher w); reflexivity.
Qed.

(** A turn, computed: the three lines of the [except] branch, then the
    [finally] clause. *)
Lemma run_email_watcher_turn_unfolded (w : World) :
  run_email_watcher_turn E w
  = let e := if email_watcher w then TypeError else AttributeError "run" in
    let w1 := add_trace [Print_running; Print_error e; Sleep 60] w in
    match update_status_indicator E w1 with
    | (Return _, w2) => (Return tt, w2)
    | (Raise e', w2) => (Raise e', w2)
    end.
Proof.
  unfold run_email_watcher_turn, try_finally, try_except, bind.
  rewrite emit_add_trace, call_run_without_arguments, !emit_add_trace.
  rewrite !add_trace_app. reflexivity.
Qed.

End PollerProperties.

(** C8, what the code does: every turn of the poller loop ends in the
    [except] branch, because [run] is called without the [last_checked] it
    requires: the turn prints the error, sleeps 60 seconds and updates the
    status indicator; it never sleeps 300 seconds, and it changes neither the
    stored records nor the checkpoint file. *)
Theorem every_turn_takes_the_recovery_sleep (E : Env) (w : World) :
  exists e evs,
    trace (snd (run_email_watcher_turn E w))
      = trace w ++ [Print_running; Print_error e; Sleep 60] ++ evs /\
    Forall is_log evs /\
    (e = TypeError \/ e = AttributeError "run") /\
    jobs (snd (run_email_watcher_turn E w)) = jobs w.
Proof.
  rewrite run_email_watcher_turn_unfolded. cbv zeta.
  match goal with |- context [ update_status_indicator E ?w1 ] =>
    destruct (update_status_indicator_outcome E w1) as (evs & Htrace & Hlog & Hjobs);
    destruct (update_status_indicator E w1) as [[[]|e'] w2] end;
    simpl in *;
    (eexists _, evs; split;
     [ rewrite Htrace, <- app_assoc; reflexivity
     | split; [ exact Hlog | split; [ | exact Hjobs ] ] ]);
    destruct (email_watcher w); auto.
Qed.

(** A turn on a healthy mailbox with one new message. *)
Example turn_on_a_healthy_mailbox :
  run_email_watcher_turn (Demo.healthy ["1"]) Demo.start
  = (Return tt,
     mk_World []
       [Print_running; Print_error TypeError; Sleep 60;
        Log DEBUG Connected_to_server]
       (Some Demo.checkpoint_text) true false 1 0 true Last_sync_never Green).
Proof. reflexivity. Qed.

(** A mail server that cannot be reached: [connect], called by the [finally]
    clause to update the indicator, lets the [OSError] of [IMAP4_SSL] through,
    and the loop ends with it after one turn. *)
Example unreachable_server_ends_the_poller :
  run_email_watcher
    (Demo.env Demo.demo_analyze_email (fun _ => Fails_in_IMAP4_SSL OSError) []
              (fun _ => No_fault))
    3 Demo.start
  = (Raise OSError,
     mk_World [] [Print_running; Print_error TypeError; Sleep 60]
              (Some Demo.checkpoint_text) false false 1 0 true Last_sync_never Red).
Proof. reflexivity. Qed.

(** C4, what the code does: nothing writes the checkpoint.  A cycle started
    with any checkpoint, a turn of the poller loop and any number of turns all
    leave [last_checked.json] as they found it. *)
Theorem checkpoint_is_never_written
    (E : Env) (last_checked : datetime) (turns : nat) (w : World) :
  last_checked_json (snd (run E last_checked w)) = last_checked_json w /\
  last_checked_json (snd (run_email_watcher_turn E w)) = last_checked_json w /\
  last_checked_json (snd (run_email_watcher E turns w)) = last_checked_json w.
Proof.
  assert (Htrans : forall a b c : World,
             same_checkpoint a b -> same_checkpoint b c -> same_checkpoint a c).
  { unfold same_checkpoint; intros; congruence. }
  repeat split.
  - apply run_same_checkpoint.
  - apply (run_email_watcher_turn_respects same_checkpoint);
      unfold same_checkpoint; auto.
    apply update_database_body_same_checkpoint.
  - apply (run_email_watcher_respects same_checkpoint);
      unfold same_checkpoint; auto.
    apply update_database_body_same_checkpoint.
Qed.

(** A cycle that stores a record, started at the checkpoint of 14 January:
    the file still holds that checkpoint afterwards. *)
Example cycle_leaves_the_checkpoint :
  last_checked_json (snd (run (Demo.healthy ["1"]) Demo.jan14 Demo.start))
    = Some Demo.checkpoint_text /\
  List.length (jobs (snd (run (Demo.healthy ["1"]) Demo.jan14 Demo.start))) = 1.
Proof. split; reflexivity. Qed.

(** ** Deleting a record *)

(** C5, what the code does.  Ingesting the invitation stores a record whose
    [email_hash] is [NULL]; deleting that record removes the row and then
    fails on [remove_processed_hash], which [EmailWatcher] does not have; the
    next cycle stores the message again, there being no cache of processed
    hashes to consult. *)
Theorem delete_job_fails_on_the_missing_eviction :
  jobs (snd (run (Demo.healthy ["1"]) Demo.jan14 Demo.start)) = [ingested_job] /\
  email_hash ingested_job = SqlNull /\
  existsb (String.eqb "remove_processed_hash") EmailWatcher_attributes = false /\
  fst (delete_job true 1 (snd (run (Demo.healthy ["1"]) Demo.jan14 Demo.start)))
    = Raise (AttributeError "remove_processed_hash") /\
  jobs (snd (delete_job true 1
               (snd (run (Demo.healthy ["1"]) Demo.jan14 Demo.start)))) = [] /\
  jobs (snd (run (Demo.healthy ["1"]) Demo.jan14
               (snd (delete_job true 1
                       (snd (run (Demo.healthy ["1"]) Demo.jan14 Demo.start))))))
    = [ingested_job].
Proof. repeat split. Qed.

(** ** Two cycles over the same mailbox *)

Lemma has_key_find (c p : sql_value) (rows : list job) :
  has_key c p rows = true <-> find_job c p rows <> None.
Proof.
  unfold has_key, find_job.
  change (fun r : job => sql_eqb (company r) c && sql_eqb (position r) p)
    with (matches c p).
  induction rows as [ | r rows IH ]; simpl.
  - split; [ discriminate | congruence ].
  - destruct (matches c p r); simpl; [ split; [ discriminate | reflexivity ] | exact IH ].
Qed.

Lemma existsb_map_keep {A} (pred : A -> bool) (f : A -> A) (l : list A) :
  (forall x, pred (f x) = pred x) -> existsb pred (map f l) = existsb pred l.
Proof.
  intro Hkeep. induction l as [ | a l IH ]; simpl; [ reflexivity | ].
  now rewrite Hkeep, IH.
Qed.

Lemma upserted_keeps_keys (c p : sql_value) (rows rows' : list job) :
  upserted c p rows rows' ->
  forall c' p', has_key c' p' rows = true -> has_key c' p' rows' = true.
Proof.
  intros [ r f Hfind -> Hkeep | new Hfind -> Hc Hp ] c' p' H; unfold has_key in *.
  - rewrite existsb_map_keep; [ exact H | ].
    intro x. unfold matches. destruct (Hkeep x) as (-> & ->). reflexivity.
  - rewrite existsb_app, H. reflexivity.
Qed.

Section SecondPass.

Variable E : Env.

Lemma update_database_body_same_stop_flag (jd : job_data) :
  respects same_stop_flag (update_database_body E jd).
Proof.
  intro w. unfold same_stop_flag.
  unfold update_database_body, bind at 1, count_db_call at 1. cbv beta iota.
  destruct (db_fault_at E (db_calls w)); run_body;
    repeat (split_statement; simpl); reflexivity.
Qed.

Lemma update_database_same_stop_flag (jd : job_data) (w : World) :
  stop_flag (snd (update_database E jd w)) = stop_flag w.
Proof.
  apply (update_database_respects same_stop_flag); unfold same_stop_flag; auto.
  - intros a b c Hab Hbc; congruence.
  - apply update_database_body_same_stop_flag.
Qed.

Lemma update_database_keeps_keys (jd : job_data) (w : World) :
  keeps_keys w (snd (update_database E jd w)).
Proof.
  pose proof (update_database_outcome E jd w) as Ho.
  destruct (update_database E jd w) as [[u|e] w']; simpl.
  - destruct Ho as (c & p & _ & _ & Hup). intros c' p'. now apply upserted_keeps_keys with (c := c) (p := p).
  - intros c' p'. now rewrite Ho.
Qed.

Lemma fetch_each_keeps_keys (nums : list string) (w : World) :
  keeps_keys w (snd (fetch_each E nums (loop_body E) w)).
Proof.
  apply (fetch_each_respects keeps_keys); unfold keeps_keys; auto.
  intros num m. apply loop_body_respects; auto.
  intros jd w0.
  pose proof (update_database_body_outcome E jd w0) as Ho.
  destruct (update_database_body E jd w0) as [[u|e] w']; simpl.
  - destruct Ho as (c & p & _ & _ & Hup). intros c' p'. now apply upserted_keeps_keys with (c := c) (p := p).
  - intros c' p'. now rewrite Ho.
Qed.


Lemma loop_body_stopped (num : string) (m : Message) (w : World) :
  stop_flag w = true -> loop_body E num m w = (Return true, w).
Proof. intro H. unfold loop_body, bind, get_stop_flag. now rewrite H. Qed.

(** A message in the loop, while no stop is asked for: it ends the loop with
    an exception, it is passed over, or its verdict goes to the store; which
    of the three does not depend on the world. *)
Lemma loop_body_step (num : string) (m : Message) :
  (exists e evs, forall w, stop_flag w = false ->
     loop_body E num m w = (Raise e, add_trace evs w)) \/
  (exists evs, forall w, stop_flag w = false ->
     loop_body E num m w = (Return false, add_trace evs w)) \/
  (exists d jd evs,
     (forall w, fst (interpret_email E d w) = Return (Some jd)) /\
     forall w, stop_flag w = false ->
       loop_body E num m w
       = (update_database E jd ;; ret false) (add_trace evs w)).
Proof.
  destruct (parse_email_logs E m) as (r1 & e1 & H1).
  assert (Hstart : forall w, stop_flag w = false ->
            loop_body E num m w
            = (process_email E num m ;; ret false)
                (add_trace [Log DEBUG (Processing_email num)] w)).
  { intros w Hstop. unfold loop_body, bind at 1, get_stop_flag. rewrite Hstop.
    unfold bind at 1, logging. now rewrite emit_add_trace. }
  destruct r1 as [[d| ]|e].
  - destruct (interpret_email_logs E d) as (r2 & e2 & H2).
    destruct r2 as [[jd| ]|e].
    + right; right. exists d, jd, ([Log DEBUG (Processing_email num)] ++ e1 ++ e2).
      split; [ intro w; now rewrite H2 | ].
      intros w Hstop. rewrite (Hstart w Hstop).
      unfold process_email, bind. rewrite H1, H2, !add_trace_app. reflexivity.
    + right; left.
      exists ([Log DEBUG (Processing_email num)] ++ e1 ++ e2
                ++ [Log DEBUG (Not_job_related num)]).
      intros w Hstop. rewrite (Hstart w Hstop).
      unfold process_email, bind, logging. rewrite H1, H2, emit_add_trace.
      unfold ret. now rewrite !add_trace_app, <- ?app_assoc.
    + left. exists e, ([Log DEBUG (Processing_email num)] ++ e1 ++ e2).
      intros w Hstop. rewrite (Hstart w Hstop).
      unfold process_email, bind. rewrite H1, H2. now rewrite !add_trace_app.
  - right; left.
    exists ([Log DEBUG (Processing_email num)] ++ e1
              ++ [Log WARNING (Failed_to_parse num)]).
    intros w Hstop. rewrite (Hstart w Hstop).
    unfold process_email, bind, logging. rewrite H1, emit_add_trace.
    unfold ret. now rewrite !add_trace_app, <- ?app_assoc.
  - left. exists e, ([Log DEBUG (Processing_email num)] ++ e1).
    intros w Hstop. rewrite (Hstart w Hstop).
    unfold process_email, bind. rewrite H1. now rewrite !add_trace_app.
Qed.


Lemma update_database_text_return (c p s d n : string) (w : World) :
  db_fault_at E (db_calls w) = No_fault ->
  exists w',
    update_database E (mk_job_data (JStr c) (JStr p) (JStr s) d (JStr n)) w
      = (Return tt, w') /\
    has_key (SqlText c) (SqlText p) (jobs w') = true /\
    (has_key (SqlText c) (SqlText p) (jobs w) = true ->
     List.length (jobs w') = List.length (jobs w)).
Proof.
  intro Hfault.
  destruct (update_database_text_verdict E w c p s d n Hfault) as (w' & Hup & Hcase).
  exists w'; split; [ exact Hup | ]. unfold merged_by_key in Hcase.
  destruct (find_job (SqlText c) (SqlText p) (jobs w)) as [r|] eqn:Hfind.
  - destruct Hcase as (r' & Hfind' & Hlen & _).
    split; [ apply has_key_find; congruence | intros _; exact Hlen ].
  - destruct Hcase as (r' & _ & Hfind' & _).
    split; [ apply has_key_find; congruence | ].
    intro H. apply has_key_find in H. congruence.
Qed.

(** A message in the loop, while no stop is asked for, by what
    [parse_email] and [interpret_email] answer for it. *)
Lemma loop_body_by_verdict (num : string) (m : Message)
    (r1 : result (option email_data)) (e1 : list event) :
  (forall w, parse_email E m w = (r1, add_trace e1 w)) ->
  match r1 with
  | Return (Some d) =>
      forall r2 e2,
        (forall w, interpret_email E d w = (r2, add_trace e2 w)) ->
        forall w, stop_flag w = false ->
          loop_body E num m w
          = match r2 with
            | Return (Some jd) =>
                (update_database E jd ;; ret false)
                  (add_trace ([Log DEBUG (Processing_email num)] ++ e1 ++ e2) w)
            | Return None =>
                (Return false,
                 add_trace ([Log DEBUG (Processing_email num)] ++ e1 ++ e2
                              ++ [Log DEBUG (Not_job_related num)]) w)
            | Raise e =>
                (Raise e,
                 add_trace ([Log DEBUG (Processing_email num)] ++ e1 ++ e2) w)
            end
  | Return None =>
      forall w, stop_flag w = false ->
        loop_body E num m w
        = (Return false,
           add_trace ([Log DEBUG (Processing_email num)] ++ e1
                        ++ [Log WARNING (Failed_to_parse num)]) w)
  | Raise e =>
      forall w, stop_flag w = false ->
        loop_body E num m w
        = (Raise e, add_trace ([Log DEBUG (Processing_email num)] ++ e1) w)
  end.
Proof.
  intro H1.
  assert (Hstart : forall w, stop_flag w = false ->
            loop_body E num m w
            = (process_email E num m ;; ret false)
                (add_trace [Log DEBUG (Processing_email num)] w)).
  { intros w Hstop. unfold loop_body, bind at 1, get_stop_flag. rewrite Hstop.
    unfold bind at 1, logging. now rewrite emit_add_trace. }
  destruct r1 as [[d| ]|e].
  - intros r2 e2 H2 w Hstop. rewrite (Hstart w Hstop).
    unfold process_email, bind. rewrite H1, H2.
    destruct r2 as [[jd| ]|e].
    + now rewrite !add_trace_app.
    + unfold logging. rewrite emit_add_trace. unfold ret.
      now rewrite !add_trace_app, <- ?app_assoc.
    + now rewrite !add_trace_app.
  - intros w Hstop. rewrite (Hstart w Hstop).
    unfold process_email, bind, logging. rewrite H1, emit_add_trace.
    unfold ret. now rewrite !add_trace_app, <- ?app_assoc.
  - intros w Hstop. rewrite (Hstart w Hstop).
    unfold process_email, bind. rewrite H1. now rewrite !add_trace_app.
Qed.

Lemma connect_same_jobs (w : World) : jobs (snd (connect E w)) = jobs w.
Proof.
  apply (connect_respects same_jobs); unfold same_jobs; auto.
  intros a b c Hab Hbc; congruence.
Qed.

Lemma connect_same_stop_flag (w : World) : stop_flag (snd (connect E w)) = stop_flag w.
Proof.
  apply (connect_respects same_stop_flag); unfold same_stop_flag; auto.
  intros a b c Hab Hbc; congruence.
Qed.

Lemma run_same_stop_flag (last_checked : datetime) (w : World) :
  stop_flag (snd (run E last_checked w)) = stop_flag w.
Proof.
  apply (run_respects same_stop_flag); unfold same_stop_flag; auto.
  - intros a b c Hab Hbc; congruence.
  - apply update_database_body_same_stop_flag.
Qed.

Lemma run_logout_same_jobs (w : World) : jobs (snd (run_logout E w)) = jobs w.
Proof.
  apply (run_logout_respects same_jobs); unfold same_jobs; auto.
  intros a b c Hab Hbc; congruence.
Qed.

(** The records a cycle leaves: those of its message loop when it connected
    and the search answered, the ones it found otherwise. *)
Lemma run_jobs (last_checked : datetime) (w : World) :
  match fst (connect E w), search_since E (strftime E last_checked "%d-%b-%Y") with
  | Return true, Return nums =>
      jobs (snd (run E last_checked w))
      = jobs (snd (fetch_each E nums (loop_body E) (loop_start E last_checked w)))
  | _, _ => jobs (snd (run E last_checked w)) = jobs w
  end.
Proof.
  unfold loop_start.
  pose proof (connect_same_jobs w) as Hjobs.
  assert (Hlogout : forall r wt,
             jobs (snd (let (r0, w'') := run_logout E wt in
                        match r0 with
                        | Return _ => (r : result unit, w'')
                        | Raise e => (Raise e, w'')
                        end)) = jobs wt).
  { intros r wt. pose proof (run_logout_same_jobs wt) as Hl.
    destruct (run_logout E wt) as [[[]|e] wl]; exact Hl. }
  destruct (connect E w) as [[[ | ]|e] wc] eqn:Hc; simpl fst; simpl snd in *.
  - destruct (search_since E (strftime E last_checked "%d-%b-%Y")) as [nums|e] eqn:Hs.
    + unfold run, try_finally, try_except, bind. rewrite Hc.
      unfold logging. rewrite emit_add_trace.
      unfold fetch_new_emails. rewrite Hs.
      destruct (fetch_each E nums (loop_body E) _) as [[[]|e] wf]; cbv beta iota.
      * rewrite emit_add_trace. now rewrite Hlogout.
      * destruct e; rewrite emit_add_trace; now rewrite Hlogout.
    + unfold run, try_finally, try_except, bind. rewrite Hc.
      unfold logging. rewrite emit_add_trace.
      unfold fetch_new_emails. rewrite Hs.
      destruct e; unfold logging; repeat (rewrite emit_add_trace; cbv beta iota);
        rewrite Hlogout; exact Hjobs.
  - assert (H : jobs (snd (run E last_checked w)) = jobs w).
    { unfold run, try_finally, try_except, bind. rewrite Hc. unfold ret.
      rewrite Hlogout. exact Hjobs. }
    destruct (search_since E _); exact H.
  - assert (H : jobs (snd (run E last_checked w)) = jobs w).
    { unfold run, try_finally, try_except, bind. rewrite Hc.
      destruct e; unfold logging; rewrite emit_add_trace; rewrite Hlogout;
        exact Hjobs. }
    destruct (search_since E _); exact H.
Qed.

End SecondPass.

(** The loop of a second cycle adds no record when the first left every key
    its messages give: the two cycles may differ in their mail server and
    database, not in how a message is fetched, parsed and interpreted. *)
Lemma second_pass_adds_no_record (E1 E2 : Env) :
  (forall num, fetch_rfc822 E2 num = fetch_rfc822 E1 num) ->
  (forall m, parse_email E2 m = parse_email E1 m) ->
  (forall d, interpret_email E2 d = interpret_email E1 d) ->
  (forall n, db_fault_at E1 n = No_fault) ->
  (forall n, db_fault_at E2 n = No_fault) ->
  text_verdicts E1 ->
  forall nums w1 w2,
    stop_flag w2 = stop_flag w1 ->
    (forall c p,
       has_key c p (jobs (snd (fetch_each E1 nums (loop_body E1) w1))) = true ->
       has_key c p (jobs w2) = true) ->
    List.length (jobs (snd (fetch_each E2 nums (loop_body E2) w2)))
    = List.length (jobs w2).
Proof.
  intros Hfetch Hparse Hinterpret Hfaults1 Hfaults2 Htext.
  induction nums as [ | num rest IH ]; intros w1 w2 Hstop Hkeys.
  - reflexivity.
  - simpl in *. rewrite Hfetch. destruct (fetch_rfc822 E1 num) as [m|e].
    + destruct (stop_flag w1) eqn:Hs1.
      * unfold bind. rewrite (loop_body_stopped E2 num m w2) by congruence.
        reflexivity.
      * assert (Hs2 : stop_flag w2 = false) by congruence.
        destruct (parse_email_logs E1 m) as (r1 & e1 & H1).
        assert (H1' : forall w, parse_email E2 m w = (r1, add_trace e1 w))
          by (intro w; rewrite Hparse; apply H1).
        pose proof (loop_body_by_verdict E1 num m r1 e1 H1) as L1.
        pose proof (loop_body_by_verdict E2 num m r1 e1 H1') as L2.
        destruct r1 as [[d| ]|e].
        -- destruct (interpret_email_logs E1 d) as (r2 & e2 & H2).
           assert (H2' : forall w, interpret_email E2 d w = (r2, add_trace e2 w))
             by (intro w; rewrite Hinterpret; apply H2).
           specialize (L1 r2 e2 H2 w1 Hs1). specialize (L2 r2 e2 H2' w2 Hs2).
           unfold bind at 1. unfold bind at 1 in Hkeys.
           rewrite L2. rewrite L1 in Hkeys.
           destruct r2 as [[jd| ]|e].
           ++ assert (Hjd : fst (interpret_email E1 d w1) = Return (Some jd))
                by now rewrite H2.
              destruct (Htext d w1 jd Hjd) as (c & p & s & n & Hjd').
              set (evs := [Log DEBUG (Processing_email num)] ++ e1 ++ e2) in *.
              unfold bind in *. rewrite Hjd' in *.
              destruct (update_database_text_return E1 c p s (jd_date jd) n
                          (add_trace evs w1))
                as (w1' & Hup1 & Hkey1 & _); [ apply Hfaults1 | ].
              destruct (update_database_text_return E2 c p s (jd_date jd) n
                          (add_trace evs w2))
                as (w2' & Hup2 & _ & Hlen2); [ apply Hfaults2 | ].
              rewrite Hup1 in Hkeys. rewrite Hup2. unfold ret in *.
              assert (Hs1' : stop_flag w1' = stop_flag w1).
              { pose proof (update_database_same_stop_flag E1
                              (mk_job_data (JStr c) (JStr p) (JStr s) (jd_date jd)
                                           (JStr n))
                              (add_trace evs w1)) as H.
                now rewrite Hup1 in H. }
              assert (Hs2' : stop_flag w2' = stop_flag w2).
              { pose proof (update_database_same_stop_flag E2
                              (mk_job_data (JStr c) (JStr p) (JStr s) (jd_date jd)
                                           (JStr n))
                              (add_trace evs w2)) as H.
                now rewrite Hup2 in H. }
              assert (Hkept : keeps_keys (add_trace evs w2) w2').
              { pose proof (update_database_keeps_keys E2
                              (mk_job_data (JStr c) (JStr p) (JStr s) (jd_date jd)
                                           (JStr n))
                              (add_trace evs w2)) as H.
                now rewrite Hup2 in H. }
              assert (Hpresent : has_key (SqlText c) (SqlText p) (jobs w2) = true).
              { apply Hkeys. apply (fetch_each_keeps_keys E1 rest w1'). exact Hkey1. }
              rewrite (IH w1' w2').
              ** apply Hlen2. exact Hpresent.
              ** congruence.
              ** intros c' p' H. apply Hkept. simpl. now apply Hkeys.
           ++ apply (IH (add_trace ([Log DEBUG (Processing_email num)] ++ e1 ++ e2
                                      ++ [Log DEBUG (Not_job_related num)]) w1)
                        (add_trace ([Log DEBUG (Processing_email num)] ++ e1 ++ e2
                                      ++ [Log DEBUG (Not_job_related num)]) w2));
                [ simpl; congruence | exact Hkeys ].
           ++ reflexivity.
        -- specialize (L1 w1 Hs1). specialize (L2 w2 Hs2).
           unfold bind at 1. unfold bind at 1 in Hkeys.
           rewrite L2. rewrite L1 in Hkeys.
           apply (IH (add_trace ([Log DEBUG (Processing_email num)] ++ e1
                                   ++ [Log WARNING (Failed_to_parse num)]) w1)
                     (add_trace ([Log DEBUG (Processing_email num)] ++ e1
                                   ++ [Log WARNING (Failed_to_parse num)]) w2));
             [ simpl; congruence | exact Hkeys ].
        -- specialize (L2 w2 Hs2). unfold bind at 1. rewrite L2. reflexivity.
    + unfold bind, logging in *. rewrite emit_add_trace in *.
      apply (IH (add_trace [Log ERROR (Error_fetching_email num e)] w1)
                (add_trace [Log ERROR (Error_fetching_email num e)] w2));
        [ simpl; congruence | exact Hkeys ].
Qed.

(** With databases that raise no error, text verdicts, a first cycle that
    connected and a second one that finds the mailbox unchanged and the
    classifier of the same opinion, the second cycle adds no record. *)
Lemma second_cycle_adds_no_record
    (E1 E2 : Env) (last_checked : datetime) (w : World) :
  same_mailbox_and_verdicts E1 E2 last_checked ->
  (forall n, db_fault_at E1 n = No_fault) ->
  (forall n, db_fault_at E2 n = No_fault) ->
  text_verdicts E1 ->
  fst (connect E1 w) = Return true ->
  List.length (jobs (snd (run E2 last_checked (snd (run E1 last_checked w)))))
  = List.length (jobs (snd (run E1 last_checked w))).
Proof.
  intros (Hsearch & Hfetch & Hparse & Hinterpret) Hfaults1 Hfaults2 Htext Hconnected.
  pose proof (run_jobs E1 last_checked w) as H1.
  pose proof (run_jobs E2 last_checked (snd (run E1 last_checked w))) as H2.
  rewrite Hconnected in H1. rewrite Hsearch in H2.
  destruct (search_since E1 _) as [nums|e].
  - destruct (fst (connect E2 (snd (run E1 last_checked w)))) as [[ | ]|e];
      try (now rewrite H2).
    rewrite H2.
    rewrite (second_pass_adds_no_record E1 E2 Hfetch Hparse Hinterpret
               Hfaults1 Hfaults2 Htext nums (loop_start E1 last_checked w)).
    + unfold loop_start; simpl. now rewrite connect_same_jobs.
    + unfold loop_start; simpl.
      now rewrite !connect_same_stop_flag, run_same_stop_flag.
    + intros c p H. rewrite <- H1 in H.
      unfold loop_start; simpl. now rewrite connect_same_jobs.
  - destruct (fst (connect E2 (snd (run E1 last_checked w)))) as [[ | ]|e'];
      now rewrite H2.
Qed.


(** The demonstration classifier only gives text verdicts. *)
Lemma demo_text_verdicts (nums : list string) : text_verdicts (Demo.healthy nums).
Proof.
  intros d w jd.
  unfold interpret_email, bind, lift, try_except.
  cbn [analyze_email Demo.healthy Demo.env json_loads strftime].
  unfold Demo.demo_analyze_email.
  repeat match goal with
         | |- context [ if (?c =? ?x)%string then _ else _ ] =>
             destruct (c =? x)%string
         end.
  all: cbv -[Demo.demo_strftime]; intro H; inversion H; subst; repeat eexists.
Qed.




(** * Further properties of the watcher *)

(** ** What the store keeps *)

Section StoreInvariants.

Variable E : Env.

Lemma update_database_body_stored (jd : job_data) (w : World) :
  stored jd (jobs w) (jobs (snd (update_database_body E jd w))).
Proof.
  unfold update_database_body, bind at 1, count_db_call at 1. cbv beta iota.
  destruct (db_fault_at E (db_calls w)); run_body;
    repeat (split_statement; simpl);
    first
      [ now apply stored_nothing
      | eapply stored_update;
        [ reflexivity
        | intro x; cbv beta; destruct (id x =? _)%Z; reflexivity ]
      | eapply stored_insert; [ reflexivity | reflexivity | simpl; eassumption.. ] ].
Qed.

Lemma update_database_stored (jd : job_data) (w : World) :
  stored jd (jobs w) (jobs (snd (update_database E jd w))).
Proof.
  unfold update_database, backoff_on_exception.
  pose proof (on_exception_outcome is_sqlite3_Error (update_database_body E jd)
                same_jobs (fun _ => eq_refl)
                (fun a b c Hab Hbc => eq_trans Hbc Hab) (fun _ => eq_refl)) as H.
  assert (Hraise : forall w0 e w', update_database_body E jd w0 = (Raise e, w') ->
                                   same_jobs w0 w').
  { intros w0 e w' Hb. pose proof (update_database_body_outcome E jd w0) as Ho.
    now rewrite Hb in Ho. }
  specialize (H Hraise (3 - 1) w).
  destruct (on_exception _ _ _ w) as [[u|e] w']; simpl.
  - destruct H as (w1 & Hjobs & Hret). unfold same_jobs in Hjobs.
    pose proof (update_database_body_stored jd w1) as Hs.
    rewrite Hret in Hs. simpl in Hs. now rewrite Hjobs in Hs.
  - apply stored_nothing. exact H.
Qed.

Lemma map_identity_kept (f : job -> job) (rows : list job) :
  (forall x, identity (f x) = identity x) ->
  map identity (map f rows) = map identity rows.
Proof. intro H. rewrite map_map. apply map_ext. exact H. Qed.

Lemma stored_keeps_rows (jd : job_data) (rows rows' : list job) :
  stored jd rows rows' ->
  exists added, map identity rows' = map identity rows ++ added.
Proof.
  intros [ -> | f -> Hkeep | new -> _ _ _ _ ].
  - exists []. now rewrite app_nil_r.
  - exists []. now rewrite app_nil_r, map_identity_kept.
  - exists [identity new]. now rewrite map_app.
Qed.

Lemma keeps_rows_refl (w : World) : keeps_rows w w.
Proof. exists []. now rewrite app_nil_r. Qed.

Lemma keeps_rows_trans (a b c : World) :
  keeps_rows a b -> keeps_rows b c -> keeps_rows a c.
Proof.
  intros (x & Hx) (y & Hy). exists (x ++ y). now rewrite Hy, Hx, app_assoc.
Qed.

Lemma lastrowid_above (rows : list job) (r : job) :
  In r rows -> (id r < lastrowid rows)%Z.
Proof.
  assert (Hmax : forall (rest : list job) (start : Z),
             (start <= fold_right (fun x acc => Z.max (id x) acc) start rest)%Z /\
             forall x, In x rest ->
               (id x <= fold_right (fun x acc => Z.max (id x) acc) start rest)%Z).
  { induction rest as [ | a rest IH ]; intro start; simpl.
    - split; [ lia | tauto ].
    - destruct (IH start) as (Hstart & Hrest). split; [ lia | ].
      intros x [ -> | Hin ]; [ lia | specialize (Hrest x Hin); lia ]. }
  unfold lastrowid. destruct rows as [ | a rest ]; simpl; [ tauto | ].
  destruct (Hmax rest (id a)) as (Hstart & Hrest).
  intros [ -> | Hin ]; [ lia | specialize (Hrest r Hin); lia ].
Qed.

End StoreInvariants.

(** X1: a cycle never deletes a record and never changes the id, company,
    position, application date or hash of one: after [update_database] and
    after a whole [run], the rows that were there are still there, in the
    same places and with the same identity, possibly followed by new rows. *)
Theorem records_are_never_deleted_or_rekeyed
    (E : Env) (jd : job_data) (last_checked : datetime) (w : World) :
  (exists added,
     map identity (jobs (snd (update_database E jd w)))
     = map identity (jobs w) ++ added) /\
  (exists added,
     map identity (jobs (snd (run E last_checked w)))
     = map identity (jobs w) ++ added).
Proof.
  split.
  - eapply stored_keeps_rows, update_database_stored.
  - apply (run_respects keeps_rows).
    + apply keeps_rows_refl.
    + apply keeps_rows_trans.
    + intros; exists []; simpl; now rewrite app_nil_r.
    + intros; exists []; simpl; now rewrite app_nil_r.
    + intros; exists []; simpl; now rewrite app_nil_r.
    + intros jd0 w0. eapply stored_keeps_rows, update_database_body_stored.
Qed.

(** ** The attempts of [update_database] *)

Section Attempts.

Variable E : Env.

Lemma on_exception_calls (jd : job_data) (n : nat) (w : World) :
  db_calls w
  < db_calls (snd (on_exception is_sqlite3_Error n (update_database_body E jd) w))
  <= db_calls w + S n.
Proof.
  revert w. induction n as [ | n IH ]; intro w; simpl;
    pose proof (update_database_body_counts E jd w) as Hc;
    destruct (update_database_body E jd w) as [[u|e] w1]; simpl in *; try lia.
  destruct (is_sqlite3_Error e); simpl; [ | lia ].
  unfold bind. rewrite emit_add_trace.
  specialize (IH (add_trace [Backoff_wait] w1)). simpl in IH. lia.
Qed.

(** Three calls of the body in a row that each raise [sqlite3.Error]. *)
Lemma update_database_raises_thrice (jd : job_data) (w : World) :
  (forall w0, jobs w0 = jobs w ->
     db_calls w <= db_calls w0 < db_calls w + 3 ->
     exists w',
       update_database_body E jd w0 = (Raise sqlite3_Error, w') /\
       jobs w' = jobs w0 /\ db_calls w' = S (db_calls w0)) ->
  exists w',
    update_database E jd w = (Raise sqlite3_Error, w') /\
    jobs w' = jobs w /\ db_calls w' = db_calls w + 3.
Proof.
  intro Hbody.
  unfold update_database, backoff_on_exception. change (3 - 1) with 2.
  destruct (Hbody w eq_refl) as (w1 & H1 & J1 & C1); [ lia | ].
  rewrite (on_exception_retry _ _ _ _ _ _ H1 eq_refl).
  destruct (Hbody (add_trace [Backoff_wait] w1)) as (w2 & H2 & J2 & C2);
    [ exact J1 | simpl; lia | ].
  rewrite (on_exception_retry _ _ _ _ _ _ H2 eq_refl).
  destruct (Hbody (add_trace [Backoff_wait] w2)) as (w3 & H3 & J3 & C3);
    [ simpl; simpl in J2; congruence | simpl in *; lia | ].
  rewrite (on_exception_give_up _ _ _ _ _ H3).
  exists w3. simpl in *. repeat split; [ congruence | lia ].
Qed.

Lemma py_ne_unbindable (v : json) (cell : sql_value) :
  sql_bind v = None -> py_ne v cell = true.
Proof. destruct v; simpl; try discriminate; reflexivity. Qed.

Lemma update_database_body_unbindable (jd : job_data) (w : World) :
  unbindable jd ->
  db_fault_at E (db_calls w) <> Fault_in_connect ->
  exists w',
    update_database_body E jd w = (Raise sqlite3_Error, w') /\
    jobs w' = jobs w /\ db_calls w' = S (db_calls w).
Proof.
  intros Hun Hfault.
  unfold update_database_body, bind at 1, count_db_call at 1. cbv beta iota.
  destruct (db_fault_at E (db_calls w)); try congruence; run_body;
    repeat (split_statement; simpl);
    try (eexists; split; [ reflexivity | split; reflexivity ]);
    exfalso;
    repeat match goal with
           | H : sql_bind ?x = Some _ |- _ =>
               match type of Hun with context [ sql_bind x ] => idtac end;
               revert H
           end;
    destruct Hun as [ H | [ H | [ H | H ] ] ];
    try (rewrite H; intros; discriminate);
    intros; try congruence;
    match goal with
    | Hb : py_ne _ ?cell = false |- _ =>
        rewrite (py_ne_unbindable _ cell H) in Hb; discriminate
    end.
Qed.

Lemma find_job_null (c p : sql_value) (rows : list job) :
  c = SqlNull \/ p = SqlNull -> find_job c p rows = None.
Proof.
  intro H. unfold find_job. induction rows as [ | r rows IH ]; simpl; [ reflexivity | ].
  replace (sql_eqb (company r) c && sql_eqb (position r) p) with false; [ exact IH | ].
  destruct H as [ -> | -> ];
    destruct (company r), (position r); simpl; try reflexivity;
    now rewrite ?andb_false_r.
Qed.

End Attempts.

(** X3: the decorator bounds the work of [update_database]: every call runs
    the body at least once and at most three times, whatever fails. *)
Theorem update_database_tries_at_most_three_times
    (E : Env) (jd : job_data) (w : World) :
  db_calls w < db_calls (snd (update_database E jd w)) <= db_calls w + 3.
Proof.
  unfold update_database, backoff_on_exception. change (3 - 1) with 2.
  apply on_exception_calls.
Qed.

(** X4: when [sqlite3.connect] itself raises, the [except] clause trips over
    the unassigned [conn]: the caller sees an [UnboundLocalError], which the
    decorator does not retry, after a single attempt and with the table
    untouched. *)
Theorem connect_failure_is_masked_and_not_retried
    (E : Env) (jd : job_data) (w : World) :
  db_fault_at E (db_calls w) = Fault_in_connect ->
  exists w',
    update_database E jd w = (Raise (UnboundLocalError "conn"), w') /\
    jobs w' = jobs w /\
    db_calls w' = S (db_calls w) /\
    trace w' = trace w ++ [Log ERROR (Database_error sqlite3_Error)].
Proof.
  intro Hfault.
  unfold update_database, backoff_on_exception. change (3 - 1) with 2.
  unfold on_exception.
  unfold update_database_body at 1, bind at 1, count_db_call at 1. cbv beta iota.
  rewrite Hfault. run_body.
  eexists; split; [ reflexivity | repeat split ].
Qed.

Lemma connect_failure_is_masked_and_not_retried_witness :
  exists w',
    update_database
      (Demo.env Demo.demo_analyze_email (fun _ => Handshake_ok) []
                (fun _ => Fault_in_connect))
      (mk_job_data (JStr "Acme") (JStr "Backend Engineer") (JStr "Interview")
                   "2024-01-15" (JStr "Interview scheduled"))
      tracked
    = (Raise (UnboundLocalError "conn"), w') /\
    jobs w' = jobs tracked /\
    db_calls w' = S (db_calls tracked) /\
    trace w' = trace tracked ++ [Log ERROR (Database_error sqlite3_Error)].
Proof.
  apply (connect_failure_is_masked_and_not_retried
           (Demo.env Demo.demo_analyze_email (fun _ => Handshake_ok) []
                     (fun _ => Fault_in_connect))).
  reflexivity.
Defined.

(** X5: a verdict with a field that cannot be bound (a JSON list or object
    where text is expected), and whose numbers all fit SQLite's integers, is
    refused by SQLite on every attempt: when the connection itself opens,
    [update_database] runs three times, raises [sqlite3.Error] and leaves
    the table as it was. *)
Theorem unbindable_verdict_is_refused
    (E : Env) (jd : job_data) (w : World) :
  unbindable jd ->
  fits_sqlite (jd_company jd) ->
  fits_sqlite (jd_position jd) ->
  fits_sqlite (jd_status jd) ->
  fits_sqlite (jd_notes jd) ->
  (forall k, k < 3 -> db_fault_at E (db_calls w + k) <> Fault_in_connect) ->
  exists w',
    update_database E jd w = (Raise sqlite3_Error, w') /\
    jobs w' = jobs w /\
    db_calls w' = db_calls w + 3.
Proof.
  intros Hun _ _ _ _ Hfaults. apply update_database_raises_thrice.
  intros w0 _ Hcalls. apply update_database_body_unbindable; [ exact Hun | ].
  replace (db_calls w0) with (db_calls w + (db_calls w0 - db_calls w)) by lia.
  apply Hfaults. lia.
Qed.

Lemma unbindable_verdict_is_refused_witness :
  exists w',
    update_database (Demo.healthy [])
      (mk_job_data (JArr [JStr "Acme"; JStr "Globex"]) (JStr "Backend Engineer")
                   (JNum 3) "2024-01-15" (JStr "Interview scheduled"))
      tracked
    = (Raise sqlite3_Error, w') /\
    jobs w' = jobs tracked /\
    db_calls w' = db_calls tracked + 3.
Proof.
  apply (unbindable_verdict_is_refused (Demo.healthy [])).
  - left. reflexivity.
  - exact I.
  - exact I.
  - simpl. lia.
  - exact I.
  - intros k Hk. discriminate.
Defined.

Lemma update_database_null_key
    (E : Env) (jd : job_data) (c p s n : sql_value) (w : World) :
  sql_bind (jd_company jd) = Some c ->
  sql_bind (jd_position jd) = Some p ->
  sql_bind (jd_status jd) = Some s ->
  sql_bind (jd_notes jd) = Some n ->
  c = SqlNull \/ p = SqlNull ->
  db_fault_at E (db_calls w) = No_fault ->
  exists w',
    update_database E jd w = (Return tt, w') /\
    jobs w'
    = jobs w ++ [mk_job (lastrowid (jobs w)) c p s (SqlText (jd_date jd))
                        (SqlText (jd_date jd)) n (SqlInteger 1) SqlNull].
Proof.
  intros Hc Hp Hs Hn Hnull Hfault.
  eexists; split.
  - unfold update_database, backoff_on_exception. apply on_exception_return.
    unfold update_database_body, bind at 1, count_db_call at 1.
    cbv beta iota. rewrite Hfault. run_body. rewrite Hc, Hp. simpl.
    rewrite (find_job_null c p (jobs w) Hnull). simpl.
    rewrite ?Hs, ?Hn. simpl. reflexivity.
  - reflexivity.
Qed.

Lemma null_or_text_binds (v : json) :
  null_or_text v -> exists x, sql_bind v = Some x /\ (v = JNull -> x = SqlNull).
Proof.
  intros [ -> | (s & ->) ]; simpl; eexists; split; try reflexivity; discriminate.
Qed.

(** X6: a verdict whose company or position is [null] never finds a record.
    The lookup compares with [NULL], which equals nothing, so for a verdict
    whose fields are text or [null], [update_database] adds a record at the
    end of the table, with the verdict's fields and date, whenever no
    database error strikes: also when a record with the same key, [NULL]
    included, is stored already. *)
Theorem null_key_is_inserted_every_time
    (E : Env) (jd : job_data) (w : World) :
  null_or_text (jd_company jd) ->
  null_or_text (jd_position jd) ->
  null_or_text (jd_status jd) ->
  null_or_text (jd_notes jd) ->
  jd_company jd = JNull \/ jd_position jd = JNull ->
  db_fault_at E (db_calls w) = No_fault ->
  exists w' new,
    update_database E jd w = (Return tt, w') /\
    jobs w' = jobs w ++ [new] /\
    sql_bind (jd_company jd) = Some (company new) /\
    sql_bind (jd_position jd) = Some (position new) /\
    sql_bind (jd_status jd) = Some (status new) /\
    sql_bind (jd_notes jd) = Some (notes new) /\
    application_date new = SqlText (jd_date jd) /\
    last_updated new = SqlText (jd_date jd).
Proof.
  intros Hc Hp Hs Hn Hnull Hfault.
  destruct (null_or_text_binds _ Hc) as (c & Hbc & Hnc).
  destruct (null_or_text_binds _ Hp) as (p & Hbp & Hnp).
  destruct (null_or_text_binds _ Hs) as (s & Hbs & _).
  destruct (null_or_text_binds _ Hn) as (n & Hbn & _).
  destruct (update_database_null_key E jd c p s n w Hbc Hbp Hbs Hbn) as (w' & Hup & Hjobs);
    [ tauto | exact Hfault | ].
  eexists w', _. split; [ exact Hup | ]. split; [ exact Hjobs | ].
  simpl. repeat split; assumption.
Qed.

Lemma null_key_is_inserted_every_time_witness :
  exists w' new,
    update_database (Demo.healthy [])
      (mk_job_data JNull (JStr "Backend Engineer") (JStr "Interview")
                   "2024-01-15" (JStr "Interview scheduled"))
      (mk_World [mk_job 1 SqlNull (SqlText "Backend Engineer") (SqlText "Interview")
                        (SqlText "2024-01-15") (SqlText "2024-01-15")
                        (SqlText "Interview scheduled") (SqlInteger 1) SqlNull]
                [] None false false 0 0 true Last_sync_never Red)
    = (Return tt, w') /\
    jobs w'
    = [mk_job 1 SqlNull (SqlText "Backend Engineer") (SqlText "Interview")
              (SqlText "2024-01-15") (SqlText "2024-01-15")
              (SqlText "Interview scheduled") (SqlInteger 1) SqlNull] ++ [new] /\
    Some SqlNull = Some (company new) /\
    Some (SqlText "Backend Engineer") = Some (position new) /\
    Some (SqlText "Interview") = Some (status new) /\
    Some (SqlText "Interview scheduled") = Some (notes new) /\
    application_date new = SqlText "2024-01-15" /\
    last_updated new = SqlText "2024-01-15".
Proof.
  apply (null_key_is_inserted_every_time (Demo.healthy [])
           (mk_job_data JNull (JStr "Backend Engineer") (JStr "Interview")
                        "2024-01-15" (JStr "Interview scheduled"))).
  - left; reflexivity.
  - right; eexists; reflexivity.
  - right; eexists; reflexivity.
  - right; eexists; reflexivity.
  - left; reflexivity.
  - reflexivity.
Defined.

(** ** How a cycle ends *)

Section CycleOutcomes.

Variable E : Env.

Lemma connect_accepted (w : World) :
  handshake E (handshakes w) = Handshake_ok ->
  connect E w
  = (Return true, after_handshake true [Log DEBUG Connected_to_server] w).
Proof.
  intro H. rewrite connect_is_one_attempt.
  unfold connect_body, try_except, bind at 1, count_handshake at 1.
  cbv beta iota. rewrite H. reflexivity.
Qed.

Lemma connect_true_inv (w : World) :
  fst (connect E w) = Return true -> handshake E (handshakes w) = Handshake_ok.
Proof.
  rewrite connect_is_one_attempt.
  unfold connect_body, try_except, bind at 1, count_handshake at 1.
  cbv beta iota.
  destruct (handshake E (handshakes w)) as [ | e | e | e ];
    [ reflexivity | destruct e; discriminate .. ].
Qed.

Lemma run_logout_with_mail (w : World) :
  mail w = true ->
  exists ev, run_logout E w = (Return tt, add_trace [ev] w) /\ is_logout_entry ev.
Proof.
  intro H. unfold run_logout, bind at 1, get_mail. rewrite H.
  unfold try_except, bind, lift, logging.
  destruct (logout E) as [[]|e]; rewrite emit_add_trace.
  - eexists; split; [ reflexivity | now left ].
  - eexists; split; [ reflexivity | right; now exists e ].
Qed.

Lemma subscript_raises (v : json) (key : string) (e : exn) :
  subscript v key = Raise e -> e = TypeError \/ e = KeyError key.
Proof.
  unfold subscript. destruct v; try (intros [= <-]; now left).
  destruct (lookup_field key _); [ discriminate | intros [= <-]; now right ].
Qed.

(** An exception out of [interpret_email], the classifier having answered,
    comes from a subscript of the verdict; nothing was logged before it. *)
Lemma interpret_email_raises (d : email_data) (raw : string) (e : exn) :
  analyze_email E (email_content d) = Return raw ->
  (exists w, fst (interpret_email E d w) = Raise e) ->
  (forall w, interpret_email E d w = (Raise e, w)) /\
  (e = TypeError \/ exists key, e = KeyError key).
Proof.
  intros Hraw (w & H). revert H.
  unfold interpret_email, bind at 1, lift at 1. rewrite Hraw.
  unfold try_except, bind, lift, ret, raise, logging, emit.
  destruct (json_loads E raw) as [v| ]; [ | discriminate ].
  repeat match goal with
         | |- context [ subscript v ?k ] =>
             let Hk := fresh "Hk" in
             destruct (subscript v k) as [?|?] eqn:Hk;
             [ | destruct (subscript_raises _ _ _ Hk) as [ -> | -> ] ]
         | |- context [ truthy ?f ] => destruct (truthy f)
         end;
    simpl; try discriminate; intros [= <-]; split; eauto.
Qed.

(** The fields [f] of the world that logging, assigning [self.mail] and
    counting a handshake leave alone: after a cycle they are those its
    message loop leaves, and those it found when the loop was not reached. *)
Lemma run_fields {X} (f : World -> X) (last_checked : datetime) (w : World) :
  (forall evs w0, f (add_trace evs w0) = f w0) ->
  (forall b w0, f (snd (set_mail b w0)) = f w0) ->
  (forall w0, f (snd (count_handshake w0)) = f w0) ->
  match fst (connect E w), search_since E (strftime E last_checked "%d-%b-%Y") with
  | Return true, Return nums =>
      f (snd (run E last_checked w))
      = f (snd (fetch_each E nums (loop_body E) (loop_start E last_checked w)))
  | _, _ => f (snd (run E last_checked w)) = f w
  end.
Proof.
  intros Ftrace Fmail Fhandshake.
  unfold loop_start.
  assert (Hconnect : f (snd (connect E w)) = f w).
  { apply (connect_respects (fun a b => f b = f a)); auto.
    intros a b c Hab Hbc; congruence. }
  assert (Hlogout : forall r wt,
             f (snd (let (r0, w'') := run_logout E wt in
                     match r0 with
                     | Return _ => (r : result unit, w'')
                     | Raise e => (Raise e, w'')
                     end)) = f wt).
  { intros r wt.
    assert (Hl : f (snd (run_logout E wt)) = f wt).
    { apply (run_logout_respects (fun a b => f b = f a)); auto.
      intros a b c Hab Hbc; congruence. }
    destruct (run_logout E wt) as [[[]|e] wl]; exact Hl. }
  destruct (connect E w) as [[[ | ]|e] wc] eqn:Hc; simpl fst; simpl snd in *.
  - destruct (search_since E (strftime E last_checked "%d-%b-%Y")) as [nums|e] eqn:Hs.
    + unfold run, try_finally, try_except, bind. rewrite Hc.
      unfold logging. rewrite emit_add_trace.
      unfold fetch_new_emails. rewrite Hs.
      destruct (fetch_each E nums (loop_body E) _) as [[[]|e] wf]; cbv beta iota.
      * rewrite emit_add_trace. now rewrite Hlogout, Ftrace.
      * destruct e; rewrite emit_add_trace; now rewrite Hlogout, Ftrace.
    + unfold run, try_finally, try_except, bind. rewrite Hc.
      unfold logging. rewrite emit_add_trace.
      unfold fetch_new_emails. rewrite Hs.
      destruct e; unfold logging; repeat (rewrite emit_add_trace; cbv beta iota);
        rewrite Hlogout, ?Ftrace; exact Hconnect.
  - assert (H : f (snd (run E last_checked w)) = f w).
    { unfold run, try_finally, try_except, bind. rewrite Hc. unfold ret.
      rewrite Hlogout. exact Hconnect. }
    destruct (search_since E _); exact H.
  - assert (H : f (snd (run E last_checked w)) = f w).
    { unfold run, try_finally, try_except, bind. rewrite Hc.
      destruct e; unfold logging; rewrite emit_add_trace; rewrite Hlogout, Ftrace;
        exact Hconnect. }
    destruct (search_since E _); exact H.
Qed.

Lemma run_store (last_checked : datetime) (w : World) :
  match fst (connect E w), search_since E (strftime E last_checked "%d-%b-%Y") with
  | Return true, Return nums =>
      store (snd (run E last_checked w))
      = store (snd (fetch_each E nums (loop_body E) (loop_start E last_checked w)))
  | _, _ => store (snd (run E last_checked w)) = store w
  end.
Proof. apply run_fields; reflexivity. Qed.

Lemma fetch_each_stays_stopped (nums : list string) (w : World) :
  stays_stopped w (snd (fetch_each E nums (loop_body E) w)).
Proof.
  apply (fetch_each_respects stays_stopped); unfold stays_stopped.
  - auto.
  - intros a b c Hab Hbc Ha. destruct (Hab Ha) as (Hb & Hj & Hd).
    destruct (Hbc Hb) as (Hc & Hj' & Hd'). repeat split; congruence.
  - intros evs w0 H0. simpl. auto.
  - intros num m w0 H0. rewrite (loop_body_stopped E num m w0 H0). auto.
Qed.

(** A message at which the loop stops: it ends the loop when a stop was asked
    for and raises otherwise, and only logs. *)
Lemma loop_body_raising (num : string) (m : Message) (d : email_data)
    (e : exn) (evs : list event) :
  (forall w, parse_email E m w = (Return (Some d), add_trace evs w)) ->
  (forall w, interpret_email E d w = (Raise e, w)) ->
  forall w,
    loop_body E num m w
    = if stop_flag w then (Return true, w)
      else (Raise e, add_trace ([Log DEBUG (Processing_email num)] ++ evs) w).
Proof.
  intros H1 H2 w. unfold loop_body, bind at 1, get_stop_flag.
  destruct (stop_flag w); [ reflexivity | ].
  unfold bind at 1, logging. rewrite emit_add_trace.
  unfold bind at 1, process_email, bind at 1. rewrite H1.
  unfold bind at 1. rewrite H2. now rewrite add_trace_app.
Qed.

(** The loop over a list that holds such a message leaves the store the
    loop over the numbers listed before it leaves. *)
Lemma fetch_each_ends_at (before rest : list string) (num : string) (m : Message)
    (e : exn) (evs : list event) :
  fetch_rfc822 E num = Return m ->
  (forall w, loop_body E num m w
             = if stop_flag w then (Return true, w) else (Raise e, add_trace evs w)) ->
  forall w,
    store (snd (fetch_each E (before ++ num :: rest) (loop_body E) w))
    = store (snd (fetch_each E before (loop_body E) w)).
Proof.
  intros Hfetch Hbody. induction before as [ | b before IH ]; intro w; simpl.
  - rewrite Hfetch. unfold bind. rewrite Hbody.
    destruct (stop_flag w); reflexivity.
  - destruct (fetch_rfc822 E b) as [mb|eb].
    + unfold bind.
      destruct (loop_body E b mb w) as [[[ | ]|e'] w1];
        [ reflexivity | apply IH | reflexivity ].
    + unfold bind, logging. rewrite emit_add_trace. apply IH.
Qed.

Lemma loop_body_goes_on (num : string) (m : Message) (w : World) :
  stop_flag w = false -> fst (loop_body E num m w) <> Return true.
Proof.
  intro Hstop. unfold loop_body, bind at 1, get_stop_flag. rewrite Hstop.
  unfold bind at 1, logging. rewrite emit_add_trace. unfold bind.
  destruct (process_email E num m _) as [[[]|e] w1]; discriminate.
Qed.

Lemma loop_body_same_stop_flag (num : string) (m : Message) (w : World) :
  stop_flag (snd (loop_body E num m w)) = stop_flag w.
Proof.
  apply (loop_body_respects same_stop_flag); unfold same_stop_flag; auto.
  - intros a b c Hab Hbc; congruence.
  - apply update_database_body_same_stop_flag.
Qed.

(** When no stop is asked for and the numbers listed before it are worked
    through, the loop raises at that message. *)
Lemma fetch_each_raises_at (before rest : list string) (num : string) (m : Message)
    (e : exn) (evs : list event) :
  fetch_rfc822 E num = Return m ->
  (forall w, loop_body E num m w
             = if stop_flag w then (Return true, w) else (Raise e, add_trace evs w)) ->
  forall w,
    stop_flag w = false ->
    fst (fetch_each E before (loop_body E) w) = Return tt ->
    fetch_each E (before ++ num :: rest) (loop_body E) w
    = (Raise e, add_trace evs (snd (fetch_each E before (loop_body E) w))).
Proof.
  intros Hfetch Hbody.
  induction before as [ | b before IH ]; intros w Hstop Hret; simpl in *.
  - rewrite Hfetch. unfold bind. rewrite Hbody, Hstop. reflexivity.
  - destruct (fetch_rfc822 E b) as [mb|eb].
    + unfold bind in *.
      pose proof (loop_body_goes_on b mb w Hstop) as Hgo.
      pose proof (loop_body_same_stop_flag b mb w) as Hsame.
      destruct (loop_body E b mb w) as [[[ | ]|e'] w1]; simpl in *.
      * congruence.
      * apply IH; [ congruence | exact Hret ].
      * discriminate.
    + unfold bind, logging in *. rewrite emit_add_trace in *.
      apply IH; [ exact Hstop | exact Hret ].
Qed.

Lemma update_database_body_same_mail (jd : job_data) :
  respects (fun a b => mail b = mail a) (update_database_body E jd).
Proof.
  intro w.
  unfold update_database_body, bind at 1, count_db_call at 1. cbv beta iota.
  destruct (db_fault_at E (db_calls w)); run_body;
    repeat (split_statement; simpl); reflexivity.
Qed.

Lemma fetch_each_same_mail (nums : list string) (w : World) :
  mail (snd (fetch_each E nums (loop_body E) w)) = mail w.
Proof.
  apply (fetch_each_respects (fun a b => mail b = mail a)); auto.
  - intros a b c Hab Hbc; congruence.
  - intros num m. apply loop_body_respects; auto.
    + intros a b c Hab Hbc; congruence.
    + apply update_database_body_same_mail.
Qed.

End CycleOutcomes.

(** X7: a verdict of the wrong shape ends the cycle at its message.  When
    the classifier answers a message, wherever the search lists it, with
    JSON that [interpret_email] cannot subscript (no [job_related] key, a
    missing field, a value that is no object), the [KeyError] or [TypeError]
    is caught by [run] alone.  The cycle returns, and it leaves the records
    and the count of database connections that the messages listed before
    that one give: none listed after it is processed.  When no stop was
    asked for and the messages before it were worked through, the cycle logs
    that message, the error as an unexpected one and the logout, and nothing
    after. *)
Theorem misshapen_verdict_ends_the_cycle
    (E : Env) (last_checked : datetime) (before : list string) (num : string)
    (rest : list string) (m : Message) (d : email_data) (raw : string) (e : exn)
    (w : World) :
  handshake E (handshakes w) = Handshake_ok ->
  search_since E (strftime E last_checked "%d-%b-%Y")
  = Return (before ++ num :: rest) ->
  fetch_rfc822 E num = Return m ->
  fst (parse_email E m w) = Return (Some d) ->
  analyze_email E (email_content d) = Return raw ->
  fst (interpret_email E d w) = Raise e ->
  fst (run E last_checked w) = Return tt /\
  jobs (snd (run E last_checked w))
  = jobs (snd (fetch_each E before (loop_body E) (loop_start E last_checked w))) /\
  db_calls (snd (run E last_checked w))
  = db_calls (snd (fetch_each E before (loop_body E)
                     (loop_start E last_checked w))) /\
  (stop_flag w = false ->
   fst (fetch_each E before (loop_body E) (loop_start E last_checked w))
   = Return tt ->
   exists parse_evs logout_ev,
     snd (parse_email E m w) = add_trace parse_evs w /\
     is_logout_entry logout_ev /\
     trace (snd (run E last_checked w))
     = trace (snd (fetch_each E before (loop_body E)
                     (loop_start E last_checked w)))
       ++ [Log DEBUG (Processing_email num)]
       ++ parse_evs
       ++ [Log ERROR (Unexpected_error_in_run e); logout_ev]).
Proof.
  intros Hhs Hsearch Hfetch Hparse Hraw Hint.
  destruct (parse_email_logs E m) as (r1 & evs1 & H1).
  rewrite H1 in Hparse; simpl in Hparse; subst r1.
  destruct (interpret_email_raises E d raw e Hraw (ex_intro _ w Hint)) as (H2 & He).
  pose proof (loop_body_raising E num m d e evs1 H1 H2) as Hbody.
  split; [ apply run_returns | ].
  assert (Hstore : store (snd (run E last_checked w))
                   = store (snd (fetch_each E before (loop_body E)
                                   (loop_start E last_checked w)))).
  { pose proof (run_store E last_checked w) as Hrun.
    rewrite (connect_accepted E w Hhs), Hsearch in Hrun. simpl fst in Hrun.
    rewrite Hrun. now apply fetch_each_ends_at with (m := m) (e := e)
                      (evs := [Log DEBUG (Processing_email num)] ++ evs1). }
  unfold store in Hstore. injection Hstore as Hjobs Hcalls.
  split; [ exact Hjobs | split; [ exact Hcalls | ] ].
  intros Hstop Hbefore.
  set (w0 := loop_start E last_checked w) in *.
  assert (Hw0 : w0 = add_trace [Log DEBUG (Starting_to_fetch last_checked)]
                       (after_handshake true [Log DEBUG Connected_to_server] w)).
  { unfold w0, loop_start. now rewrite (connect_accepted E w Hhs). }
  assert (Hstop0 : stop_flag w0 = false) by (rewrite Hw0; exact Hstop).
  pose proof (fetch_each_raises_at E before rest num m e _ Hfetch Hbody w0
                Hstop0 Hbefore) as Hloop.
  set (wb := snd (fetch_each E before (loop_body E) w0)) in *.
  assert (Hmail : mail wb = true).
  { unfold wb. rewrite fetch_each_same_mail, Hw0. reflexivity. }
  set (wt := add_trace [Log ERROR (Unexpected_error_in_run e)]
               (add_trace ([Log DEBUG (Processing_email num)] ++ evs1) wb)).
  destruct (run_logout_with_mail E wt Hmail) as (ev & Hlogout & Hev).
  assert (Hrun : run E last_checked w = (Return tt, add_trace [ev] wt)).
  { unfold run, try_finally, try_except, bind at 1.
    rewrite (connect_accepted E w Hhs). cbv beta iota.
    unfold bind at 1, logging at 1. rewrite emit_add_trace.
    unfold bind at 1, fetch_new_emails. rewrite Hsearch.
    rewrite <- Hw0. rewrite Hloop.
    assert (Hhandler :
              (match e with
               | IMAP4_error => Some (logging ERROR (IMAP4_error_in_run e))
               | ConnectionError => Some (logging ERROR (Connection_error_in_run e))
               | _ => Some (logging ERROR (Unexpected_error_in_run e))
               end) = Some (logging ERROR (Unexpected_error_in_run e))).
    { destruct He as [ -> | (key & ->) ]; reflexivity. }
    rewrite Hhandler. unfold logging. rewrite emit_add_trace.
    fold wt. rewrite Hlogout. reflexivity. }
  exists evs1, ev. rewrite H1, Hrun. unfold wt. simpl.
  repeat split; auto.
  rewrite <- !app_assoc. reflexivity.
Qed.

Lemma misshapen_verdict_ends_the_cycle_witness :
  fst (run (Demo.healthy ["1"; "6"; "2"]) Demo.jan14 Demo.start) = Return tt /\
  jobs (snd (run (Demo.healthy ["1"; "6"; "2"]) Demo.jan14 Demo.start))
  = jobs (snd (fetch_each (Demo.healthy ["1"; "6"; "2"]) ["1"]
                 (loop_body (Demo.healthy ["1"; "6"; "2"]))
                 (loop_start (Demo.healthy ["1"; "6"; "2"]) Demo.jan14
                             Demo.start))) /\
  db_calls (snd (run (Demo.healthy ["1"; "6"; "2"]) Demo.jan14 Demo.start))
  = db_calls (snd (fetch_each (Demo.healthy ["1"; "6"; "2"]) ["1"]
                     (loop_body (Demo.healthy ["1"; "6"; "2"]))
                     (loop_start (Demo.healthy ["1"; "6"; "2"]) Demo.jan14
                                 Demo.start))) /\
  (stop_flag Demo.start = false ->
   fst (fetch_each (Demo.healthy ["1"; "6"; "2"]) ["1"]
          (loop_body (Demo.healthy ["1"; "6"; "2"]))
          (loop_start (Demo.healthy ["1"; "6"; "2"]) Demo.jan14 Demo.start))
   = Return tt ->
   exists parse_evs logout_ev,
     snd (parse_email (Demo.healthy ["1"; "6"; "2"]) Demo.msg_shapeless Demo.start)
       = add_trace parse_evs Demo.start /\
     is_logout_entry logout_ev /\
     trace (snd (run (Demo.healthy ["1"; "6"; "2"]) Demo.jan14 Demo.start))
     = trace (snd (fetch_each (Demo.healthy ["1"; "6"; "2"]) ["1"]
                     (loop_body (Demo.healthy ["1"; "6"; "2"]))
                     (loop_start (Demo.healthy ["1"; "6"; "2"]) Demo.jan14
                                 Demo.start)))
       ++ [Log DEBUG (Processing_email "6")]
       ++ parse_evs
       ++ [Log ERROR (Unexpected_error_in_run (KeyError "job_related"));
           logout_ev]).
Proof.
  apply (misshapen_verdict_ends_the_cycle (Demo.healthy ["1"; "6"; "2"]) Demo.jan14
           ["1"] "6" ["2"] Demo.msg_shapeless
           (mk_email_data "Reminder" "jobs@acme.example" Demo.jan15 "Do not forget.")
           Demo.verdict_empty_object (KeyError "job_related") Demo.start);
    reflexivity.
Defined.

(** The cycle of that mailbox: the invitation is stored, the reminder ends
    the cycle, and the acknowledgement listed after it is never looked at. *)
Example cycle_with_a_misshapen_verdict :
  jobs (snd (run (Demo.healthy ["1"; "6"; "2"]) Demo.jan14 Demo.start))
  = [ingested_job] /\
  jobs (snd (run (Demo.healthy ["1"; "2"]) Demo.jan14 Demo.start))
  <> [ingested_job].
Proof.
  split; [ vm_compute; reflexivity | vm_compute; discriminate ].
Qed.

(** X8: [process_email] opens the database only for a message that parsed and
    that the classifier called job-related: a call that counts a database
    connection or leaves other records had a message with a readable date and
    a verdict whose [job_related] is true. *)
Theorem store_is_opened_only_for_job_related_messages
    (E : Env) (email_id : string) (m : Message) (w : World) :
  store (snd (process_email E email_id m w)) <> store w ->
  exists d raw v flag jd,
    fst (parse_email E m w) = Return (Some d) /\
    analyze_email E (email_content d) = Return raw /\
    json_loads E raw = Some v /\
    subscript v "job_related" = Return flag /\
    truthy flag = true /\
    (forall w0, fst (interpret_email E d w0) = Return (Some jd)) /\
    jd_date jd = strftime E (ed_date d) "%Y-%m-%d".
Proof.
  intro Hstore.
  destruct (parse_email_logs E m) as (r1 & evs1 & H1).
  unfold process_email, bind at 1 in Hstore. rewrite H1 in Hstore.
  cbv beta iota in Hstore.
  destruct r1 as [[d| ]|e1];
    [ | exfalso; apply Hstore; now unfold logging; rewrite emit_add_trace
      | exfalso; now apply Hstore ].
  destruct (interpret_email_logs E d) as (r2 & evs2 & H2).
  unfold bind at 1 in Hstore. rewrite H2 in Hstore.
  cbv beta iota in Hstore.
  destruct r2 as [[jd| ]|e2];
    [ | exfalso; apply Hstore; now unfold logging; rewrite emit_add_trace
      | exfalso; now apply Hstore ].
  clear Hstore. rewrite H1. simpl fst.
  assert (Hinv : exists raw v flag,
             analyze_email E (email_content d) = Return raw /\
             json_loads E raw = Some v /\
             subscript v "job_related" = Return flag /\
             truthy flag = true /\
             jd_date jd = strftime E (ed_date d) "%Y-%m-%d");
    [ | destruct Hinv as (raw & v & flag & Ha & Hb & Hc & Hd & He);
        exists d, raw, v, flag, jd; repeat split; auto;
        intro w0; now rewrite H2 ].
  pose proof (H2 w) as Hi. revert Hi.
  unfold interpret_email, bind at 1, lift at 1.
  destruct (analyze_email E (email_content d)) as [raw|e0] eqn:Hraw;
    [ | discriminate ].
  unfold try_except, bind at 1.
  destruct (json_loads E raw) as [v| ] eqn:Hloads;
    [ | unfold raise, logging, bind; rewrite emit_add_trace; discriminate ].
  unfold ret at 1, bind at 1, lift at 1.
  destruct (subscript v "job_related") as [flag|e0] eqn:Hflag;
    [ | destruct (subscript_raises _ _ _ Hflag) as [ -> | -> ]; discriminate ].
  destruct (truthy flag) eqn:Htruthy; [ | discriminate ].
  unfold bind, lift, ret.
  repeat match goal with
         | |- context [ subscript v ?k ] =>
             let Hk := fresh "Hk" in
             destruct (subscript v k) as [?|?] eqn:Hk;
             [ | destruct (subscript_raises _ _ _ Hk) as [ -> | -> ]; discriminate ]
         end.
  intros [= <- _].
  exists raw, v, flag. repeat split; auto.
Qed.

Lemma store_is_opened_only_for_job_related_messages_witness :
  exists d raw v flag jd,
    fst (parse_email (Demo.healthy ["1"]) Demo.msg_interview Demo.start)
      = Return (Some d) /\
    analyze_email (Demo.healthy ["1"]) (email_content d) = Return raw /\
    json_loads (Demo.healthy ["1"]) raw = Some v /\
    subscript v "job_related" = Return flag /\
    truthy flag = true /\
    (forall w0, fst (interpret_email (Demo.healthy ["1"]) d w0) = Return (Some jd)) /\
    jd_date jd = strftime (Demo.healthy ["1"]) (ed_date d) "%Y-%m-%d".
Proof.
  apply (store_is_opened_only_for_job_related_messages (Demo.healthy ["1"]) "1"
           Demo.msg_interview Demo.start).
  vm_compute. discriminate.
Defined.

(** X9: once a stop is asked for, a cycle leaves the store alone: it still
    logs in and out, but no message is processed, no record changes and no
    database connection is opened. *)
Theorem stop_request_keeps_the_cycle_from_the_store
    (E : Env) (last_checked : datetime) (w : World) :
  stop_flag w = true ->
  fst (run E last_checked w) = Return tt /\
  jobs (snd (run E last_checked w)) = jobs w /\
  db_calls (snd (run E last_checked w)) = db_calls w.
Proof.
  intro Hstop. split; [ apply run_returns | ].
  pose proof (run_store E last_checked w) as Hrun.
  assert (Hgoal : store (snd (run E last_checked w)) = store w).
  { destruct (fst (connect E w)) as [[ | ]|e]; try exact Hrun.
    destruct (search_since E _) as [nums|e]; try exact Hrun.
    rewrite Hrun.
    destruct (fetch_each_stays_stopped E nums (loop_start E last_checked w))
      as (_ & Hj & Hd).
    - unfold loop_start; simpl. now rewrite connect_same_stop_flag.
    - unfold store. rewrite Hj, Hd. unfold loop_start; simpl.
      rewrite connect_same_jobs.
      f_equal.
      apply (connect_respects (fun a b => db_calls b = db_calls a)); auto.
      intros a b c Hab Hbc; congruence. }
  unfold store in Hgoal. now injection Hgoal.
Qed.

Lemma stop_request_keeps_the_cycle_from_the_store_witness :
  fst (run (Demo.healthy ["1"; "2"]) Demo.jan14
         (mk_World [tracked_job] [] (Some Demo.checkpoint_text) false true 0 0 true
                   Last_sync_never Red)) = Return tt /\
  jobs (snd (run (Demo.healthy ["1"; "2"]) Demo.jan14
               (mk_World [tracked_job] [] (Some Demo.checkpoint_text) false true 0 0
                         true Last_sync_never Red)))
  = jobs (mk_World [tracked_job] [] (Some Demo.checkpoint_text) false true 0 0 true
                   Last_sync_never Red) /\
  db_calls (snd (run (Demo.healthy ["1"; "2"]) Demo.jan14
                   (mk_World [tracked_job] [] (Some Demo.checkpoint_text) false true
                             0 0 true Last_sync_never Red)))
  = db_calls (mk_World [tracked_job] [] (Some Demo.checkpoint_text) false true 0 0
                       true Last_sync_never Red).
Proof.
  apply (stop_request_keeps_the_cycle_from_the_store (Demo.healthy ["1"; "2"])
           Demo.jan14).
  reflexivity.
Defined.

(** X10: a cycle that cannot log in, or whose search the server refuses,
    returns normally with every record as it was and without having opened
    the database. *)
Theorem cycle_without_mailbox_leaves_the_store
    (E : Env) (last_checked : datetime) (w : World) :
  handshake E (handshakes w) <> Handshake_ok \/
  (exists e, search_since E (strftime E last_checked "%d-%b-%Y") = Raise e) ->
  fst (run E last_checked w) = Return tt /\
  jobs (snd (run E last_checked w)) = jobs w /\
  db_calls (snd (run E last_checked w)) = db_calls w.
Proof.
  intro H. split; [ apply run_returns | ].
  pose proof (run_store E last_checked w) as Hrun.
  assert (Hgoal : store (snd (run E last_checked w)) = store w).
  { destruct (fst (connect E w)) as [[ | ]|e] eqn:Hc; try exact Hrun.
    destruct (search_since E _) as [nums|e]; try exact Hrun.
    exfalso. destruct H as [ H | (e & H) ]; [ | discriminate ].
    apply H. now apply connect_true_inv. }
  unfold store in Hgoal. now injection Hgoal.
Qed.

Lemma cycle_without_mailbox_leaves_the_store_witness :
  fst (run (Demo.env Demo.demo_analyze_email
              (fun _ => Fails_in_login IMAP4_error) ["1"] (fun _ => No_fault))
         Demo.jan14 tracked) = Return tt /\
  jobs (snd (run (Demo.env Demo.demo_analyze_email
                    (fun _ => Fails_in_login IMAP4_error) ["1"] (fun _ => No_fault))
               Demo.jan14 tracked)) = jobs tracked /\
  db_calls (snd (run (Demo.env Demo.demo_analyze_email
                        (fun _ => Fails_in_login IMAP4_error) ["1"]
                        (fun _ => No_fault))
                   Demo.jan14 tracked)) = db_calls tracked.
Proof.
  apply (cycle_without_mailbox_leaves_the_store
           (Demo.env Demo.demo_analyze_email
              (fun _ => Fails_in_login IMAP4_error) ["1"] (fun _ => No_fault))
           Demo.jan14 tracked).
  left. discriminate.
Defined.

(** ** The log of a cycle *)

Section CycleLog.

Variable E : Env.

Lemma grows_trace_refl (w : World) : grows_trace w w.
Proof. exists []. now rewrite app_nil_r. Qed.

Lemma grows_trace_trans (a b c : World) :
  grows_trace a b -> grows_trace b c -> grows_trace a c.
Proof.
  intros (e1 & H1) (e2 & H2). exists (e1 ++ e2). now rewrite H2, H1, app_assoc.
Qed.

Lemma grows_trace_add (evs : list event) (w : World) : grows_trace w (add_trace evs w).
Proof. now exists evs. Qed.

Lemma update_database_body_grows_trace (jd : job_data) :
  respects grows_trace (update_database_body E jd).
Proof.
  intro w. unfold grows_trace.
  unfold update_database_body, bind at 1, count_db_call at 1. cbv beta iota.
  destruct (db_fault_at E (db_calls w)); run_body;
    repeat (split_statement; simpl);
    first [ solve [ exists []; now rewrite app_nil_r ]
          | solve [ eexists; rewrite <- ?app_assoc; reflexivity ] ].
Qed.

Ltac grows_side :=
  first [ exact grows_trace_refl | exact grows_trace_trans
        | exact grows_trace_add
        | solve [ intros; exists []; simpl; now rewrite app_nil_r ]
        | exact update_database_body_grows_trace ].

Lemma run_ends_with_logout (last_checked : datetime) (w : World) :
  exists evs,
    trace (snd (run E last_checked w)) = trace w ++ evs /\
    (mail (snd (run E last_checked w)) = false \/
     exists evs' ev, evs = evs' ++ [ev] /\ is_logout_entry ev).
Proof.
  unfold run.
  match goal with
  | |- context [ try_finally ?inner (run_logout E) ] =>
      assert (Hinner : respects grows_trace inner); [ | set (body := inner) in * ]
  end.
  { apply respects_try_except; try grows_side.
    - apply respects_bind; try grows_side;
        [ apply connect_respects; grows_side | intros [ | ] ];
        [ | apply respects_ret; grows_side ].
      apply respects_bind; try grows_side;
        [ apply respects_emit; grows_side | intro ].
      apply respects_bind; try grows_side;
        [ | intro; apply respects_emit; grows_side ].
      apply fetch_new_emails_respects; try grows_side.
      intros num m. apply loop_body_respects; grows_side.
    - intros e h. destruct e; intros [= <-]; apply respects_emit; grows_side. }
  unfold try_finally. specialize (Hinner w).
  destruct (body w) as [r wt]. simpl in Hinner. destruct Hinner as (evs & Hevs).
  destruct (mail wt) eqn:Hmail.
  - destruct (run_logout_with_mail E wt Hmail) as (ev & Hlogout & Hev).
    rewrite Hlogout. simpl. exists (evs ++ [ev]). rewrite Hevs, app_assoc.
    split; [ reflexivity | right; now exists evs, ev ].
  - assert (Hl : run_logout E wt = (Return tt, wt)).
    { unfold run_logout, bind, get_mail. now rewrite Hmail. }
    rewrite Hl. simpl. exists evs. split; [ exact Hevs | now left ].
Qed.

End CycleLog.

(** X11: a cycle never raises, whatever the server, the classifier and the
    database do, and it only adds to the log; when it ends with a connection
    object, the last thing it logged is the logout, or the failure of the
    logout. *)
Theorem cycle_never_raises_and_logs_out
    (E : Env) (last_checked : datetime) (w : World) :
  fst (run E last_checked w) = Return tt /\
  exists evs,
    trace (snd (run E last_checked w)) = trace w ++ evs /\
    (mail (snd (run E last_checked w)) = false \/
     exists evs' ev, evs = evs' ++ [ev] /\ is_logout_entry ev).
Proof. split; [ apply run_returns | apply run_ends_with_logout ]. Qed.

(** ** Messages the server does not deliver *)

Section TraceBlind.

Variable E : Env.

Lemma same_but_trace_refl (w : World) : same_but_trace w w.
Proof. unfold same_but_trace; tauto. Qed.

Lemma same_but_trace_add (evs : list event) (w1 w2 : World) :
  same_but_trace w1 w2 -> same_but_trace (add_trace evs w1) w2.
Proof. unfold same_but_trace; simpl; tauto. Qed.

Lemma same_but_trace_add_right (evs : list event) (w1 w2 : World) :
  same_but_trace w1 w2 -> same_but_trace w1 (add_trace evs w2).
Proof. unfold same_but_trace; simpl; tauto. Qed.

Lemma trace_blind_logs_only {A} (m : M A) : logs_only m -> trace_blind m.
Proof.
  intros (r & evs & H) w1 w2 Hw. rewrite !H. simpl.
  split; [ reflexivity | ].
  now apply same_but_trace_add, same_but_trace_add_right.
Qed.

Lemma trace_blind_bind {A B} (m : M A) (k : A -> M B) :
  trace_blind m -> (forall a, trace_blind (k a)) -> trace_blind (bind m k).
Proof.
  intros Hm Hk w1 w2 Hw. unfold bind.
  destruct (Hm w1 w2 Hw) as (Hr & Hs).
  destruct (m w1) as [r1 v1], (m w2) as [r2 v2]; simpl in *. subst r2.
  destruct r1 as [a|e]; [ now apply Hk | now split ].
Qed.

Lemma trace_blind_on_exception {A} (retryable : exn -> bool) (n : nat) (target : M A) :
  trace_blind target -> trace_blind (on_exception retryable n target).
Proof.
  intro Ht. induction n as [ | n IH ]; intros w1 w2 Hw; simpl;
    destruct (Ht w1 w2 Hw) as (Hr & Hs);
    destruct (target w1) as [r1 v1], (target w2) as [r2 v2]; simpl in *; subst r2;
    destruct r1 as [a|e]; try (now split).
  destruct (retryable e); [ | now split ].
  apply (trace_blind_bind (emit Backoff_wait)
           (fun _ => on_exception retryable n target)); auto.
  apply trace_blind_logs_only, logs_only_emit.
Qed.

Lemma update_database_body_trace_blind (jd : job_data) :
  trace_blind (update_database_body E jd).
Proof.
  intros [j1 t1 c1 m1 s1 h1 d1 e1 l1 i1] [j2 t2 c2 m2 s2 h2 d2 e2 l2 i2].
  unfold same_but_trace; simpl. intros (<- & <- & <- & <- & <- & <- & <- & <- & <-).
  unfold update_database_body, count_db_call. run_body.
  destruct (db_fault_at E d1); simpl;
    repeat (split_statement; simpl); repeat split.
Qed.

Lemma loop_body_trace_blind (num : string) (m : Message) :
  trace_blind (loop_body E num m).
Proof.
  unfold loop_body. apply trace_blind_bind.
  - intros w1 w2 Hw. unfold get_stop_flag; simpl. split; [ | exact Hw ].
    f_equal. unfold same_but_trace in Hw; tauto.
  - intros [ | ]; [ apply trace_blind_logs_only, logs_only_ret | ].
    apply trace_blind_bind;
      [ apply trace_blind_logs_only, logs_only_emit | intro ].
    apply trace_blind_bind;
      [ | intro; apply trace_blind_logs_only, logs_only_ret ].
    unfold process_email. apply trace_blind_bind;
      [ apply trace_blind_logs_only, parse_email_logs | ].
    intros [d| ]; [ | apply trace_blind_logs_only, logs_only_emit ].
    apply trace_blind_bind;
      [ apply trace_blind_logs_only, interpret_email_logs | ].
    intros [jd| ]; [ | apply trace_blind_logs_only, logs_only_emit ].
    unfold update_database, backoff_on_exception.
    apply trace_blind_on_exception, update_database_body_trace_blind.
Qed.

Lemma fetch_each_fetchable (nums : list string) (w1 w2 : World) :
  same_but_trace w1 w2 ->
  fst (fetch_each E nums (loop_body E) w1)
  = fst (fetch_each E (filter (fetchable E) nums) (loop_body E) w2) /\
  same_but_trace (snd (fetch_each E nums (loop_body E) w1))
                 (snd (fetch_each E (filter (fetchable E) nums) (loop_body E) w2)).
Proof.
  revert w1 w2. induction nums as [ | num rest IH ]; intros w1 w2 Hw; simpl.
  - now split.
  - destruct (fetch_rfc822 E num) as [m|e] eqn:Hfetch;
      (assert (Hf : fetchable E num = _)
         by (unfold fetchable; rewrite Hfetch; reflexivity));
      rewrite Hf; cbn [fetch_each].
    + rewrite Hfetch. unfold bind.
      destruct (loop_body_trace_blind num m w1 w2 Hw) as (Hr & Hs).
      destruct (loop_body E num m w1) as [r1 v1], (loop_body E num m w2) as [r2 v2];
        simpl in *; subst r2.
      destruct r1 as [[ | ]|e]; try (now split). now apply IH.
    + unfold bind, logging. rewrite emit_add_trace.
      apply IH. now apply same_but_trace_add.
Qed.

End TraceBlind.

(** X12: messages the server fails to deliver are passed over.  The loop of
    a cycle ends the same way and leaves the same records, after the same
    number of database connections, as it would had the search not listed the
    numbers whose fetch fails. *)
Theorem unfetchable_messages_are_passed_over
    (E : Env) (nums : list string) (w : World) :
  fst (fetch_each E nums (loop_body E) w)
  = fst (fetch_each E (filter (fetchable E) nums) (loop_body E) w) /\
  jobs (snd (fetch_each E nums (loop_body E) w))
  = jobs (snd (fetch_each E (filter (fetchable E) nums) (loop_body E) w)) /\
  db_calls (snd (fetch_each E nums (loop_body E) w))
  = db_calls (snd (fetch_each E (filter (fetchable E) nums) (loop_body E) w)).
Proof.
  destruct (fetch_each_fetchable E nums w w (same_but_trace_refl w)) as (Hr & Hs).
  unfold same_but_trace in Hs. tauto.
Qed.

(** ** Which messages parse *)

Lemma parse_email_bad_date (E : Env) (m : Message) (s : string) (e : exn) :
  get m "Date" = Some s -> parsedate E s = Raise e ->
  forall w, fst (parse_email E m w) = Return None.
Proof.
  intros Hget Hdate w.
  destruct (decode_header_returns E (get_or m "Subject" "")) as (subject & e1 & H1).
  unfold parse_email, try_except, bind, parsedate_to_datetime.
  rewrite H1, Hget. unfold lift. rewrite Hdate.
  unfold logging. rewrite emit_add_trace. reflexivity.
Qed.

(** X13: only the [Date] header can cost a message.  [parse_email] never
    raises, and it answers [None] exactly when the header is missing or does
    not parse: an undecodable subject, an unknown charset or a missing payload
    leave an empty text in the parsed message instead. *)
Theorem only_the_date_header_fails_a_parse (E : Env) (m : Message) (w : World) :
  (exists parsed, fst (parse_email E m w) = Return parsed) /\
  (fst (parse_email E m w) = Return None <->
   get m "Date" = None \/
   exists s e, get m "Date" = Some s /\ parsedate E s = Raise e).
Proof.
  destruct (get m "Date") as [s| ] eqn:Hget.
  - destruct (parsedate E s) as [date|e] eqn:Hdate.
    + destruct (parse_email_dated E m s date Hget Hdate) as (subject & evs & Hp).
      rewrite Hp; simpl. split; [ eauto | ].
      split; [ discriminate | ].
      intros [ H | (s' & e & [= <-] & H) ]; [ discriminate | congruence ].
    + rewrite (parse_email_bad_date E m s e Hget Hdate w).
      split; [ eauto | ]. split; [ | reflexivity ].
      intros _. right. now exists s, e.
  - destruct (parse_email_undated E m Hget) as (evs & Hp).
    rewrite Hp; simpl. split; [ eauto | ]. split; auto.
Qed.

(** ** The status indicator *)

(** X14: the indicator shows the outcome of a login made for it.  Without
    a watcher [update_status_indicator] returns and the indicator is red.
    With one, every call makes one more handshake: when that succeeds the
    call returns and the indicator is green; when it ends in an
    [IMAP4.error] the call returns and the indicator is red; when it ends in
    any other exception the call raises that exception and the indicator
    keeps its colour. *)
Theorem status_indicator_follows_a_fresh_login (E : Env) (w : World) :
  handshakes (snd (update_status_indicator E w))
  = (if email_watcher w then S (handshakes w) else handshakes w) /\
  if email_watcher w then
    match handshake E (handshakes w) with
    | Handshake_ok =>
        fst (update_status_indicator E w) = Return tt /\
        status_indicator (snd (update_status_indicator E w)) = Green
    | Fails_in_IMAP4_SSL e | Fails_in_login e | Fails_in_select e =>
        if is_IMAP4_error e then
          fst (update_status_indicator E w) = Return tt /\
          status_indicator (snd (update_status_indicator E w)) = Red
        else
          fst (update_status_indicator E w) = Raise e /\
          status_indicator (snd (update_status_indicator E w)) = status_indicator w
    end
  else
    fst (update_status_indicator E w) = Return tt /\
    status_indicator (snd (update_status_indicator E w)) = Red.
Proof.
  destruct (email_watcher w) eqn:Hwatcher.
  - assert (Hcall : update_status_indicator E w
                    = let (r, w') := connect_body E w in
                      match r with
                      | Return a => set_status_indicator (if a then Green else Red) w'
                      | Raise e => (Raise e, w')
                      end).
    { unfold update_status_indicator, bind, get_email_watcher.
      rewrite Hwatcher. now rewrite connect_is_one_attempt. }
    rewrite Hcall.
    unfold connect_body, try_except, bind, count_handshake.
    destruct (handshake E (handshakes w)) as [ | e | e | e ] eqn:Hhs.
    + simpl. auto.
    + destruct e; simpl; auto.
    + destruct e; simpl; auto.
    + destruct e; simpl; auto.
  - unfold update_status_indicator, bind, get_email_watcher. rewrite Hwatcher.
    simpl. auto.
Qed.

(** ** A deleted record and the next verdict *)

Lemma at_most_one (A : Type) (l : list A) (a b : A) :
  List.length l <= 1 -> In a l -> In b l -> a = b.
Proof.
  destruct l as [ | x [ | y l ] ]; simpl; intros Hlen Ha Hb.
  - contradiction.
  - destruct Ha as [Ha|Ha], Hb as [Hb|Hb]; try contradiction. congruence.
  - lia.
Qed.

Lemma delete_job_jobs (job_id : Z) (w : World) :
  jobs (snd (delete_job true job_id w))
  = filter (fun r => negb (id r =? job_id)%Z) (jobs w) /\
  db_calls (snd (delete_job true job_id w)) = db_calls w.
Proof.
  unfold delete_job, bind, get_jobs, set_jobs, get_email_watcher,
    getattr_email_watcher, get_email_watcher, logging, emit, ret, raise, bind.
  destruct (find (fun r => (id r =? job_id)%Z) (jobs w)) as [r| ] eqn:Hfind.
  - destruct (email_watcher w) eqn:Hwatcher; simpl; rewrite ?Hwatcher; simpl;
      split; reflexivity.
  - simpl. split; [ | reflexivity ].
    symmetry. apply forallb_filter_id. apply forallb_forall. intros x Hx.
    pose proof (find_none _ _ Hfind x Hx) as H. simpl in H. now rewrite H.
Qed.

Lemma find_job_after_delete (c p : sql_value) (rows : list job) (r : job) :
  unique_keys rows ->
  find_job c p rows = Some r ->
  find_job c p (filter (fun x => negb (id x =? id r)%Z) rows) = None.
Proof.
  intros Huniq Hfind.
  destruct (find_job c p (filter _ rows)) as [r2| ] eqn:H2; [ exfalso | reflexivity ].
  unfold find_job in *.
  apply find_some in Hfind. destruct Hfind as (Hin & Hkey).
  apply find_some in H2. destruct H2 as (Hin2 & Hkey2).
  apply filter_In in Hin2. destruct Hin2 as (Hin2 & Hid).
  assert (Heq : r = r2).
  { apply (at_most_one _ (filter (matches c p) rows)).
    - apply Huniq.
    - apply filter_In; split; [ exact Hin | exact Hkey ].
    - apply filter_In; split; [ exact Hin2 | exact Hkey2 ]. }
  subst r2. rewrite Z.eqb_refl in Hid. discriminate.
Qed.

(** X15: a deleted job comes back with the next verdict for it.  With one
    record per key, deleting the record of an application removes it, and
    nothing remembers the deletion: the next verdict for the same company and
    position finds no record and adds a new one, with the verdict's status
    and only the new note. *)
Theorem deleted_record_is_added_again
    (E : Env) (c p s d n : string) (r : job) (w : World) :
  unique_keys (jobs w) ->
  find_job (SqlText c) (SqlText p) (jobs w) = Some r ->
  db_fault_at E (db_calls w) = No_fault ->
  exists w' r',
    update_database E (mk_job_data (JStr c) (JStr p) (JStr s) d (JStr n))
      (snd (delete_job true (id r) w)) = (Return tt, w') /\
    find_job (SqlText c) (SqlText p) (jobs (snd (delete_job true (id r) w))) = None /\
    jobs w' = filter (fun x => negb (id x =? id r)%Z) (jobs w) ++ [r'] /\
    company r' = SqlText c /\ position r' = SqlText p /\
    status r' = SqlText s /\ notes r' = SqlText n /\
    application_date r' = SqlText d.
Proof.
  intros Huniq Hfind Hfault.
  destruct (delete_job_jobs (id r) w) as (Hjobs & Hcalls).
  assert (Hnone : find_job (SqlText c) (SqlText p)
                    (jobs (snd (delete_job true (id r) w))) = None).
  { rewrite Hjobs. now apply find_job_after_delete. }
  destruct (update_database_text_verdict E (snd (delete_job true (id r) w))
              c p s d n) as (w' & Hup & Hmerged).
  { now rewrite Hcalls. }
  unfold merged_by_key in Hmerged. rewrite Hnone in Hmerged.
  destruct Hmerged as (r' & Hrows & _ & Hc & Hp & Hs & Ha & _ & Hn & _).
  exists w', r'. rewrite Hrows, Hjobs. repeat split; auto.
  now rewrite <- Hjobs.
Qed.

Lemma deleted_record_is_added_again_witness :
  exists w' r',
    update_database (Demo.healthy ["1"])
      (mk_job_data (JStr "Acme") (JStr "Backend Engineer") (JStr "Interview")
                   "2024-01-15" (JStr "Interview scheduled"))
      (snd (delete_job true (id tracked_job) tracked)) = (Return tt, w') /\
    find_job (SqlText "Acme") (SqlText "Backend Engineer")
      (jobs (snd (delete_job true (id tracked_job) tracked))) = None /\
    jobs w' = filter (fun x => negb (id x =? id tracked_job)%Z) (jobs tracked) ++ [r'] /\
    company r' = SqlText "Acme" /\ position r' = SqlText "Backend Engineer" /\
    status r' = SqlText "Interview" /\ notes r' = SqlText "Interview scheduled" /\
    application_date r' = SqlText "2024-01-15".
Proof.
  apply (deleted_record_is_added_again (Demo.healthy ["1"])
           "Acme" "Backend Engineer" "Interview" "2024-01-15" "Interview scheduled"
           tracked_job tracked).
  - intros c p. simpl. destruct (matches c p tracked_job); simpl; lia.
  - reflexivity.
  - reflexivity.
Defined.

(** ** The poller and the store *)

Lemma run_email_watcher_turn_store (E : Env) (w : World) :
  store (snd (run_email_watcher_turn E w)) = store w.
Proof.
  rewrite run_email_watcher_turn_unfolded. cbv zeta.
  match goal with
  | |- context [ update_status_indicator E ?w1 ] =>
      assert (H : store (snd (update_status_indicator E w1)) = store w1)
  end.
  { apply (update_status_indicator_respects (fun a b => store b = store a)); auto.
    intros a b c Hab Hbc; congruence. }
  destruct (update_status_indicator E _) as [[[]|e] w2]; exact H.
Qed.

(** X16: the poller never reaches the store.  However many turns
    [run_email_watcher] takes, and whatever the mail server answers, the
    records are those it started with and no database connection was
    opened: each turn fails on the call of [run] before a message is
    fetched. *)
Theorem poller_never_reaches_the_store (E : Env) (turns : nat) (w : World) :
  jobs (snd (run_email_watcher E turns w)) = jobs w /\
  db_calls (snd (run_email_watcher E turns w)) = db_calls w.
Proof.
  assert (H : store (snd (run_email_watcher E turns w)) = store w).
  { revert w. induction turns as [ | n IH ]; intro w; simpl; [ reflexivity | ].
    unfold bind at 1, getattr_stop_flag.
    destruct (email_watcher w && stop_flag w); [ reflexivity | ].
    unfold bind.
    pose proof (run_email_watcher_turn_store E w) as Hturn.
    destruct (run_email_watcher_turn E w) as [[[]|e] w1]; simpl in *.
    - now rewrite IH.
    - exact Hturn. }
  unfold store in H. now injection H.
Qed.

(** * The job list on screen *)

(** ** The dict of rows *)

Lemma dict_get_set_same {V} (k : Z) (v : V) (d : list (Z * V)) :
  dict_get k (dict_set k v d) = Some v.
Proof.
  induction d as [ | [k' v'] d IH ]; simpl.
  - now rewrite Z.eqb_refl.
  - destruct (k' =? k)%Z eqn:Hk; simpl; [ now rewrite Z.eqb_refl | now rewrite Hk ].
Qed.

Lemma dict_get_set_other {V} (k k' : Z) (v : V) (d : list (Z * V)) :
  k' <> k -> dict_get k' (dict_set k v d) = dict_get k' d.
Proof.
  intro Hne. induction d as [ | [k0 v0] d IH ]; simpl.
  - destruct (k =? k')%Z eqn:Hk; [ apply Z.eqb_eq in Hk; congruence | reflexivity ].
  - destruct (k0 =? k)%Z eqn:Hk; simpl.
    + apply Z.eqb_eq in Hk. subst k0.
      destruct (k =? k')%Z eqn:Hk'; [ apply Z.eqb_eq in Hk'; congruence | reflexivity ].
    + now rewrite IH.
Qed.

Lemma dict_get_none {V} (k : Z) (d : list (Z * V)) :
  dict_get k d = None <-> ~ In k (map fst d).
Proof.
  induction d as [ | [k' v'] d IH ]; simpl; [ tauto | ].
  destruct (k' =? k)%Z eqn:Hk.
  - apply Z.eqb_eq in Hk. split; [ discriminate | tauto ].
  - apply Z.eqb_neq in Hk. tauto.
Qed.

Lemma dict_get_some {V} (k : Z) (v : V) (d : list (Z * V)) :
  dict_get k d = Some v -> In (k, v) d.
Proof.
  induction d as [ | [k' v'] d IH ]; simpl; [ discriminate | ].
  destruct (k' =? k)%Z eqn:Hk.
  - apply Z.eqb_eq in Hk. intros [= <-]. left; congruence.
  - intro H. right; now apply IH.
Qed.

Lemma dict_get_in {V} (k : Z) (v : V) (d : list (Z * V)) :
  NoDup (map fst d) -> In (k, v) d -> dict_get k d = Some v.
Proof.
  induction d as [ | [k' v'] d IH ]; simpl; [ tauto | ].
  intros Hnodup [ [= -> ->] | Hin ]; [ now rewrite Z.eqb_refl | ].
  inversion Hnodup as [ | ? ? Hnotin Hrest ]; subst.
  destruct (k' =? k)%Z eqn:Hk; [ | now apply IH ].
  apply Z.eqb_eq in Hk. subst k'. exfalso. apply Hnotin.
  apply in_map_iff. now exists (k, v).
Qed.

Lemma dict_set_absent {V} (k : Z) (v : V) (d : list (Z * V)) :
  dict_get k d = None -> dict_set k v d = d ++ [(k, v)].
Proof.
  induction d as [ | [k' v'] d IH ]; simpl; [ reflexivity | ].
  destruct (k' =? k)%Z; [ discriminate | ]. intro H. now rewrite IH.
Qed.

Lemma dict_set_keys {V} (k : Z) (v v' : V) (d : list (Z * V)) :
  dict_get k d = Some v' -> map fst (dict_set k v d) = map fst d.
Proof.
  induction d as [ | [k0 v0] d IH ]; simpl; [ discriminate | ].
  destruct (k0 =? k)%Z eqn:Hk; simpl.
  - apply Z.eqb_eq in Hk. now subst k0.
  - intro H. now rewrite IH.
Qed.

Lemma dict_del_absent {V} (k : Z) (d : list (Z * V)) :
  dict_get k d = None -> dict_del k d = d.
Proof.
  unfold dict_del. induction d as [ | [k' v'] d IH ]; simpl; [ reflexivity | ].
  destruct (k' =? k)%Z; [ discriminate | ]. simpl. intro H. now rewrite IH.
Qed.

Lemma dict_del_in {V} (k : Z) (d : list (Z * V)) (kv : Z * V) :
  In kv (dict_del k d) <-> In kv d /\ fst kv <> k.
Proof.
  unfold dict_del. rewrite filter_In, negb_true_iff, Z.eqb_neq. tauto.
Qed.

Lemma dict_del_length {V} (k : Z) (v : V) (d : list (Z * V)) :
  NoDup (map fst d) -> dict_get k d = Some v ->
  S (List.length (dict_del k d)) = List.length d.
Proof.
  unfold dict_del. induction d as [ | [k' v'] d IH ]; simpl; [ discriminate | ].
  intros Hnodup. inversion Hnodup as [ | ? ? Hnotin Hrest ]; subst.
  destruct (k' =? k)%Z eqn:Hk; simpl.
  - intros _. apply Z.eqb_eq in Hk. subst k'.
    f_equal. f_equal. apply (dict_del_absent k d). now apply dict_get_none.
  - intro H. f_equal. now apply IH.
Qed.

Lemma dict_del_keeps_distinct {V X} (column : Z * V -> X) (k : Z) (d : list (Z * V)) :
  NoDup (map column d) -> NoDup (map column (dict_del k d)).
Proof.
  unfold dict_del. induction d as [ | kv d IH ]; simpl; [ auto | ].
  intro H. inversion H as [ | ? ? Hnotin Hrest ]; subst.
  destruct (negb (fst kv =? k)%Z); simpl; [ | now apply IH ].
  constructor; [ | now apply IH ].
  intro Hin. apply Hnotin. apply in_map_iff in Hin.
  destruct Hin as (x & Hx & Hin). apply filter_In in Hin.
  apply in_map_iff. exists x; tauto.
Qed.

Lemma NoDup_map_same {A B} (f : A -> B) (l : list A) (a b : A) :
  NoDup (map f l) -> In a l -> In b l -> f a = f b -> a = b.
Proof.
  induction l as [ | x l IH ]; simpl; [ tauto | ].
  intro H. inversion H as [ | ? ? Hnotin Hrest ]; subst.
  intros [ -> | Ha ] [ -> | Hb ] Heq; auto.
  - exfalso. apply Hnotin. rewrite Heq. now apply in_map.
  - exfalso. apply Hnotin. rewrite <- Heq. now apply in_map.
Qed.

(** ** The grid *)

Lemma empty_screen_grid_ok : grid_ok empty_screen.
Proof.
  unfold grid_ok, empty_screen; simpl.
  repeat split; try constructor; try contradiction.
Qed.

Lemma add_job_row_grid_ok (job_id : Z) (c p st a l n : string) (s : Screen) :
  grid_ok s -> dict_get job_id (job_rows s) = None ->
  grid_ok (add_job_row job_id c p st a l n s).
Proof.
  intros (Hkeys & Hrows & Hrange & Hnext) Hnew.
  unfold grid_ok, add_job_row; cbn [job_rows next_row].
  rewrite (dict_set_absent _ _ _ Hnew).
  rewrite !map_app, length_app. cbn [map fst snd row List.length].
  repeat split.
  - apply NoDup_app; [ exact Hkeys | repeat constructor; simpl; tauto | ].
    intros k Hk [ <- | [] ]. now apply dict_get_none in Hnew.
  - apply NoDup_app; [ exact Hrows | repeat constructor; simpl; tauto | ].
    intros x Hx [ <- | [] ]. apply in_map_iff in Hx.
    destruct Hx as (kv & Hkv & Hin). specialize (Hrange kv Hin).
    cbv beta in Hkv. lia.
  - apply in_app_iff in H. destruct H as [ H | [ <- | [] ] ].
    + specialize (Hrange kv H). lia.
    + simpl. lia.
  - apply in_app_iff in H. destruct H as [ H | [ <- | [] ] ].
    + specialize (Hrange kv H). lia.
    + simpl. lia.
  - lia.
Qed.

Lemma remove_job_row_grid_ok (job_id : Z) (s : Screen) :
  grid_ok s -> grid_ok (remove_job_row job_id s).
Proof.
  intros (Hkeys & Hrows & Hrange & Hnext).
  unfold remove_job_row.
  destruct (dict_get job_id (job_rows s)) as [r| ] eqn:Hget;
    [ | unfold grid_ok, print_notice; simpl; auto ].
  pose proof (dict_get_some _ _ _ Hget) as Hin.
  pose proof (Hrange _ Hin) as Hr. simpl in Hr.
  assert (Hother : forall kv, In kv (dict_del job_id (job_rows s)) ->
                     row (snd kv) <> row r /\ (1 <= row (snd kv) < next_row s)%Z).
  { intros kv Hkv. apply dict_del_in in Hkv. destruct Hkv as (Hkv & Hk).
    split; [ | now apply Hrange ].
    intro Heq. apply Hk.
    assert (kv = (job_id, r)) as ->; [ | reflexivity ].
    apply (NoDup_map_same (fun kv => row (snd kv)) (job_rows s)); auto. }
  unfold grid_ok; cbn [job_rows next_row]. rewrite !map_map, length_map.
  repeat split.
  - replace (map _ (dict_del job_id (job_rows s)))
      with (map fst (dict_del job_id (job_rows s))).
    + now apply dict_del_keeps_distinct.
    + apply map_ext. intros [k x]. simpl. now destruct (row x >? row r)%Z.
  - apply NoDup_map_NoDup_ForallPairs.
    + intros a b Ha Hb.
      destruct (Hother a Ha) as (Hna & _), (Hother b Hb) as (Hnb & _).
      intro Heq.
      apply (NoDup_map_same (fun kv => row (snd kv)) (job_rows s)); auto.
      * now apply dict_del_in in Ha.
      * now apply dict_del_in in Hb.
      * destruct (row (snd a) >? row r)%Z eqn:Hga,
                 (row (snd b) >? row r)%Z eqn:Hgb; simpl in Heq; lia.
    + apply NoDup_map_inv with (f := fun kv => row (snd kv)).
      now apply dict_del_keeps_distinct.
  - apply in_map_iff in H. destruct H as (x & <- & Hx).
    destruct (Hother x Hx) as (Hne & Hrg).
    destruct (row (snd x) >? row r)%Z eqn:Hg; simpl; lia.
  - apply in_map_iff in H. destruct H as (x & <- & Hx).
    destruct (Hother x Hx) as (Hne & Hrg).
    destruct (row (snd x) >? row r)%Z eqn:Hg; simpl; lia.
  - pose proof (dict_del_length _ _ _ Hkeys Hget). lia.
Qed.

(** X17: the grid stays packed.  When every listed job has one entry and
    one grid row and the rows in use are those from 1 up to [next_row], the
    same holds after [remove_job_row], for a listed id and for an unknown
    one, and after [add_job_row] for an id that is not listed yet: no two
    jobs share a grid row and no row is left empty. *)
Theorem job_grid_stays_packed
    (job_id new_id : Z) (c p st a l n : string) (s : Screen) :
  grid_ok s ->
  dict_get new_id (job_rows s) = None ->
  grid_ok (remove_job_row job_id s) /\
  grid_ok (add_job_row new_id c p st a l n s).
Proof.
  intros H Hnew. split; [ now apply remove_job_row_grid_ok | ].
  now apply add_job_row_grid_ok.
Qed.

Lemma job_grid_stays_packed_witness :
  grid_ok (remove_job_row 1 tracked_screen) /\
  grid_ok (add_job_row 2 "New Company" "New Position" "Applied" "2024-01-15"
                       "2024-01-15" "" tracked_screen).
Proof.
  apply (job_grid_stays_packed 1 2 "New Company" "New Position" "Applied"
           "2024-01-15" "2024-01-15" "" tracked_screen).
  - unfold grid_ok, tracked_screen; simpl.
    repeat split; try (repeat constructor; simpl; tauto);
      destruct H as [ <- | [] ]; simpl; lia.
  - reflexivity.
Defined.

(** X18: adding a row and removing it again gives the window back.  On a
    packed grid, [remove_job_row] undoes [add_job_row] for an id that was not
    listed: the other rows keep their places and [next_row] its value. *)
Theorem remove_job_row_undoes_add_job_row
    (job_id : Z) (c p st a l n : string) (s : Screen) :
  grid_ok s ->
  dict_get job_id (job_rows s) = None ->
  remove_job_row job_id (add_job_row job_id c p st a l n s) = s.
Proof.
  intros (Hkeys & Hrows & Hrange & Hnext) Hnew.
  unfold remove_job_row, add_job_row; simpl.
  rewrite dict_get_set_same. simpl.
  rewrite (dict_set_absent _ _ _ Hnew).
  assert (Hdel : dict_del job_id (job_rows s ++ [(job_id,
                    mk_job_row (next_row s) c p st a l n)]) = job_rows s).
  { unfold dict_del. rewrite filter_app. simpl. rewrite Z.eqb_refl. simpl.
    rewrite app_nil_r. now apply (dict_del_absent job_id (job_rows s)). }
  rewrite Hdel.
  assert (Hmap : forall d : list (Z * job_row),
             (forall kv, In kv d -> (row (snd kv) < next_row s)%Z) ->
             map (fun kv =>
                    if (row (snd kv) >? next_row s)%Z
                    then (fst kv,
                          mk_job_row (row (snd kv) - 1) (company_entry (snd kv))
                                     (position_entry (snd kv))
                                     (status_dropdown (snd kv))
                                     (application_date_entry (snd kv))
                                     (last_updated_label (snd kv))
                                     (notes_button (snd kv)))
                    else kv) d = d).
  { induction d as [ | kv d IH ]; simpl; intro Hd; [ reflexivity | ].
    rewrite IH by (intros; apply Hd; now right).
    specialize (Hd kv (or_introl eq_refl)).
    destruct (row (snd kv) >? next_row s)%Z eqn:Hg; [ lia | reflexivity ]. }
  rewrite Hmap by (intros kv Hkv; specialize (Hrange kv Hkv); lia).
  destruct s as [d nr ns]; simpl. f_equal. lia.
Qed.

Lemma remove_job_row_undoes_add_job_row_witness :
  remove_job_row 2
    (add_job_row 2 "New Company" "New Position" "Applied" "2024-01-15"
                 "2024-01-15" "" tracked_screen)
  = tracked_screen.
Proof.
  apply (remove_job_row_undoes_add_job_row 2 "New Company" "New Position"
           "Applied" "2024-01-15" "2024-01-15" "" tracked_screen).
  - unfold grid_ok, tracked_screen; simpl.
    repeat split; try (repeat constructor; simpl; tauto);
      destruct H as [ <- | [] ]; simpl; lia.
  - reflexivity.
Defined.

(** ** Adding a job by hand *)

Lemma dict_get_app {V} (k : Z) (d d' : list (Z * V)) :
  dict_get k (d ++ d')
  = match dict_get k d with
    | Some v => Some v
    | None => dict_get k d'
    end.
Proof.
  induction d as [ | [k' v'] d IH ]; simpl; [ reflexivity | ].
  now destruct (k' =? k)%Z.
Qed.

Lemma add_new_job_returns
    (E : Env) (default_updated : sql_value) (now : datetime) (s : Screen) (w : World) :
  add_new_job E default_updated Connection_ok now s w
  = (Return tt,
     (add_job_row (lastrowid (jobs w)) "New Company" "New Position" "Applied"
                  (strftime E now "%Y-%m-%d") (strftime E now "%Y-%m-%d") "" s,
      snd (set_jobs
             (jobs w ++ [mk_job (lastrowid (jobs w)) (SqlText "New Company")
                                (SqlText "New Position") (SqlText "Applied")
                                (SqlText (strftime E now "%Y-%m-%d"))
                                (SqlText (strftime E now "%Y-%m-%d")) (SqlText "")
                                default_updated SqlNull]) w))).
Proof. reflexivity. Qed.

Lemma lastrowid_fresh (rows : list job) : ~ In (lastrowid rows) (map id rows).
Proof.
  intro H. apply in_map_iff in H. destruct H as (r & Hid & Hin).
  pose proof (lastrowid_above rows r Hin). lia.
Qed.

(** X19: a click on [+] adds one placeholder record and one row for it.  On
    a packed grid whose rows show stored records, [add_new_job] gives the
    record an id that no stored record has, leaves every other record as it
    was, lists the job on the next free grid row, and the grid is packed and
    in step with the table afterwards; when SQLite fails, at any point, the
    [sqlite3.Error] goes to the caller and neither table nor window has
    changed. *)
Theorem add_new_job_adds_a_fresh_placeholder
    (E : Env) (default_updated : sql_value) (now : datetime) (s : Screen) (w : World) :
  grid_ok s ->
  screen_agrees s w ->
  (exists new s' w',
     add_new_job E default_updated Connection_ok now s w = (Return tt, (s', w')) /\
     jobs w' = jobs w ++ [new] /\
     ~ In (id new) (map id (jobs w)) /\
     company new = SqlText "New Company" /\
     position new = SqlText "New Position" /\
     status new = SqlText "Applied" /\
     job_rows s'
     = job_rows s
       ++ [(id new,
            mk_job_row (next_row s) "New Company" "New Position" "Applied"
                       (strftime E now "%Y-%m-%d") (strftime E now "%Y-%m-%d") "")] /\
     grid_ok s' /\
     screen_agrees s' w') /\
  (forall fault, fault <> Connection_ok ->
     add_new_job E default_updated fault now s w = (Raise sqlite3_Error, (s, w))).
Proof.
  intros Hgrid Hagrees. split.
  - assert (Hnew : dict_get (lastrowid (jobs w)) (job_rows s) = None).
    { destruct (dict_get (lastrowid (jobs w)) (job_rows s)) as [r| ] eqn:Hget;
        [ exfalso | reflexivity ].
      destruct (Hagrees _ _ Hget) as (j & Hin & Hid & _).
      apply (lastrowid_fresh (jobs w)). rewrite <- Hid. now apply in_map. }
    rewrite add_new_job_returns.
    eexists _, _, _. split; [ reflexivity | ].
    cbn [snd set_jobs jobs id company position status].
    split; [ reflexivity | ].
    split; [ apply lastrowid_fresh | ].
    repeat (split; [ reflexivity | ]).
    split; [ unfold add_job_row; cbn [job_rows]; now apply dict_set_absent | ].
    split; [ now apply add_job_row_grid_ok | ].
    intros k r. unfold add_job_row; cbn [job_rows].
    rewrite (dict_set_absent _ _ _ Hnew), dict_get_app.
    destruct (dict_get k (job_rows s)) as [r0| ] eqn:Hk.
    + intros [= <-]. destruct (Hagrees _ _ Hk) as (j & Hin & Hid & Hshows).
      exists j. split; [ apply in_or_app; now left | auto ].
    + simpl. destruct (lastrowid (jobs w) =? k)%Z eqn:Heq; [ | discriminate ].
      apply Z.eqb_eq in Heq. intros [= <-].
      eexists. split; [ apply in_or_app; right; left; reflexivity | ].
      split; [ exact Heq | ]. repeat split.
  - intros [ | | | ] Hfault; try congruence; reflexivity.
Qed.

Lemma add_new_job_adds_a_fresh_placeholder_witness :
  (exists new s' w',
     add_new_job (Demo.healthy []) (SqlInteger 0) Connection_ok Demo.jan15
                 tracked_screen tracked = (Return tt, (s', w')) /\
     jobs w' = jobs tracked ++ [new] /\
     ~ In (id new) (map id (jobs tracked)) /\
     company new = SqlText "New Company" /\
     position new = SqlText "New Position" /\
     status new = SqlText "Applied" /\
     job_rows s'
     = job_rows tracked_screen
       ++ [(id new,
            mk_job_row (next_row tracked_screen) "New Company" "New Position"
                       "Applied"
                       (strftime (Demo.healthy []) Demo.jan15 "%Y-%m-%d")
                       (strftime (Demo.healthy []) Demo.jan15 "%Y-%m-%d") "")] /\
     grid_ok s' /\
     screen_agrees s' w') /\
  (forall fault, fault <> Connection_ok ->
     add_new_job (Demo.healthy []) (SqlInteger 0) fault Demo.jan15
                 tracked_screen tracked
     = (Raise sqlite3_Error, (tracked_screen, tracked))).
Proof.
  apply (add_new_job_adds_a_fresh_placeholder (Demo.healthy []) (SqlInteger 0)
           Demo.jan15 tracked_screen tracked).
  - unfold grid_ok, tracked_screen; simpl.
    repeat split; try (repeat constructor; simpl; tauto);
      destruct H as [ <- | [] ]; simpl; lia.
  - intros k r. unfold tracked_screen, tracked; cbn [job_rows dict_get jobs].
    destruct (1 =? k)%Z eqn:Hk; [ | discriminate ].
    apply Z.eqb_eq in Hk. intros [= <-].
    exists tracked_job. repeat split; simpl; auto.
Defined.

(** X20: two clicks on [+] give two records with one key.  [add_new_job]
    does not look for a record of ("New Company", "New Position") before it
    inserts, so after two clicks that key is carried twice, whatever the
    table held. *)
Theorem two_new_jobs_share_a_key
    (E : Env) (default_updated : sql_value) (now1 now2 : datetime)
    (s : Screen) (w : World) :
  2 <= List.length
         (filter (matches (SqlText "New Company") (SqlText "New Position"))
            (jobs (snd (snd (add_new_job E default_updated Connection_ok now2
                               (fst (snd (add_new_job E default_updated
                                            Connection_ok now1 s w)))
                               (snd (snd (add_new_job E default_updated
                                            Connection_ok now1 s w)))))))).
Proof.
  rewrite !add_new_job_returns. cbn [fst snd set_jobs jobs].
  rewrite !filter_app, !length_app.
  cbn [filter].
  assert (Hm : forall r,
             company r = SqlText "New Company" ->
             position r = SqlText "New Position" ->
             matches (SqlText "New Company") (SqlText "New Position") r = true).
  { intros r Hc Hp. unfold matches. rewrite Hc, Hp. reflexivity. }
  rewrite !Hm by reflexivity. cbn [List.length]. lia.
Qed.

(** ** Editing a field *)

Lemma update_job_returns
    (E : Env) (now : datetime) (job_id : Z) (field : job_field) (value : string)
    (s : Screen) (w : World) :
  update_job E Connection_ok now job_id field value s w
  = (Return tt,
     ((if negb (field_name field =? "notes")
       then update_job_row job_id "last_updated" (strftime E now "%Y-%m-%d")
              (update_job_row job_id (field_name field) value s)
       else update_job_row job_id (field_name field) value s),
      snd (set_jobs
             (execute_update_field field value (strftime E now "%Y-%m-%d") job_id
                                   (jobs w)) w))).
Proof.
  unfold update_job, ui_bind, ui_connect, ui_try_finally, ui_try_except,
    ui_execute, ui_commit, ui_bind, on_world, on_screen, ui_ret, get_jobs.
  simpl. destruct (negb (field_name field =? "notes")); reflexivity.
Qed.

(** X21: an edit goes to the table and to the window together, or to
    neither.  For every field but the notes, [update_job] leaves the rows on
    screen showing the stored records if they did so before: when SQLite
    works, the record and its row get the new value and the new
    [last_updated]; when it fails, table and rows are as they were, a failed
    statement or commit being printed and reported in a message box, and a
    failed connect raised. *)
Theorem edit_keeps_window_and_table_in_step
    (E : Env) (fault : connection_fault) (now : datetime) (job_id : Z)
    (field : job_field) (value : string) (s : Screen) (w : World) :
  screen_agrees s w ->
  field <> Field_notes ->
  screen_agrees (fst (snd (update_job E fault now job_id field value s w)))
                (snd (snd (update_job E fault now job_id field value s w))) /\
  match fault with
  | Connection_ok =>
      fst (update_job E fault now job_id field value s w) = Return tt /\
      jobs (snd (snd (update_job E fault now job_id field value s w)))
      = execute_update_field field value (strftime E now "%Y-%m-%d") job_id (jobs w)
  | Connect_fails =>
      update_job E fault now job_id field value s w = (Raise sqlite3_Error, (s, w))
  | Execute_fails | Commit_fails =>
      update_job E fault now job_id field value s w
      = (Return tt,
         (mk_Screen (job_rows s) (next_row s)
            (notices s
             ++ [Print_database_error sqlite3_Error;
                 Messagebox "Database Error"
                   "An error occurred while updating the job."]),
          w))
  end.
Proof.
  intros Hagrees Hfield. split.
  - destruct fault; try exact Hagrees.
    rewrite update_job_returns. cbn [fst snd set_jobs jobs].
    set (date := strftime E now "%Y-%m-%d").
    assert (Hkeep : forall j, id j <> job_id ->
              In j (jobs w) ->
              In j (execute_update_field field value date job_id (jobs w))).
    { intros j Hid Hin. unfold execute_update_field.
      apply in_map_iff. exists j. split; [ | exact Hin ].
      apply Z.eqb_neq in Hid. now rewrite Hid. }
    destruct (dict_get job_id (job_rows s)) as [r0| ] eqn:Hget.
    + destruct (Hagrees _ _ Hget) as (j0 & Hin0 & Hid0 & Hc & Hp & Hs & Ha & Hl).
      intros k r.
      destruct (Z.eq_dec k job_id) as [ -> | Hne ].
      * destruct field; try congruence;
          unfold update_job_row; simpl; rewrite Hget; simpl;
          rewrite dict_get_set_same; simpl; rewrite dict_get_set_same;
          intros [= <-];
          (eexists; split;
           [ unfold execute_update_field; apply in_map_iff; exists j0;
             split; [ reflexivity | exact Hin0 ]
           | apply Z.eqb_eq in Hid0; rewrite Hid0; simpl;
             apply Z.eqb_eq in Hid0; repeat split; auto ]).
      * assert (Hsame : dict_get k
                          (job_rows
                             (if negb (field_name field =? "notes")
                              then update_job_row job_id "last_updated" date
                                     (update_job_row job_id (field_name field)
                                        value s)
                              else update_job_row job_id (field_name field)
                                     value s))
                        = dict_get k (job_rows s)).
        { destruct field; try congruence;
            unfold update_job_row; simpl; rewrite Hget; simpl;
            rewrite dict_get_set_same; simpl;
            now rewrite !dict_get_set_other by exact Hne. }
        rewrite Hsame. intro Hk.
        destruct (Hagrees _ _ Hk) as (j & Hin & Hid & Hshows).
        exists j. split; [ apply Hkeep; congruence | auto ].
    + assert (Hsame : (if negb (field_name field =? "notes")
                       then update_job_row job_id "last_updated" date
                              (update_job_row job_id (field_name field) value s)
                       else update_job_row job_id (field_name field) value s) = s).
      { destruct (negb _); unfold update_job_row; now rewrite ?Hget. }
      rewrite Hsame. intros k r Hk.
      destruct (Hagrees _ _ Hk) as (j & Hin & Hid & Hshows).
      exists j. split; [ apply Hkeep; [ | exact Hin ] | auto ].
      intro Heq. rewrite Hid in Heq. subst k. congruence.
  - destruct fault.
    + rewrite update_job_returns. split; reflexivity.
    + reflexivity.
    + unfold update_job, ui_bind, ui_connect, ui_try_finally, ui_try_except,
        ui_execute, ui_commit, ui_bind, on_world, on_screen, ui_ret, ui_raise,
        print_notice; simpl.
      now rewrite <- app_assoc.
    + unfold update_job, ui_bind, ui_connect, ui_try_finally, ui_try_except,
        ui_execute, ui_commit, ui_bind, on_world, on_screen, ui_ret, ui_raise,
        print_notice, get_jobs; simpl.
      now rewrite <- app_assoc.
Qed.

Lemma edit_keeps_window_and_table_in_step_witness :
  screen_agrees
    (fst (snd (update_job (Demo.healthy []) Connection_ok Demo.jan15 1
                 Field_status "Offer" tracked_screen tracked)))
    (snd (snd (update_job (Demo.healthy []) Connection_ok Demo.jan15 1
                 Field_status "Offer" tracked_screen tracked))) /\
  fst (update_job (Demo.healthy []) Connection_ok Demo.jan15 1
         Field_status "Offer" tracked_screen tracked) = Return tt /\
  jobs (snd (snd (update_job (Demo.healthy []) Connection_ok Demo.jan15 1
                    Field_status "Offer" tracked_screen tracked)))
  = execute_update_field Field_status "Offer"
      (strftime (Demo.healthy []) Demo.jan15 "%Y-%m-%d") 1 (jobs tracked).
Proof.
  apply (edit_keeps_window_and_table_in_step (Demo.healthy []) Connection_ok
           Demo.jan15 1 Field_status "Offer" tracked_screen tracked).
  - intros k r. unfold tracked_screen, tracked; cbn [job_rows dict_get jobs].
    destruct (1 =? k)%Z eqn:Hk; [ | discriminate ].
    apply Z.eqb_eq in Hk. intros [= <-].
    exists tracked_job. repeat split; simpl; auto.
  - discriminate.
Defined.

(** ** The Refresh button *)

(** X22: the Refresh button never checks the mailbox.  With a watcher,
    [refresh_emails_and_jobs] calls [run] without the argument it requires,
    so the [TypeError] takes it to the failure notice before the list is
    redrawn; without a watcher it asks for the configuration.  Either way
    the call returns, and the world (the table, the log, the connection, the
    labels) is exactly as before. *)
Theorem refresh_button_never_runs_a_cycle
    (E : Env) (refresh_jobs : UI unit) (s : Screen) (w : World) :
  refresh_emails_and_jobs E refresh_jobs s w
  = (Return tt,
     (mk_Screen (job_rows s) (next_row s)
        (notices s
         ++ (if email_watcher w
             then [Print_error_refreshing TypeError;
                   Messagebox "Error" "Failed to refresh emails. Please try again."]
             else [Messagebox "Error"
                     "Email watcher not configured. Please set up email configuration first."])),
      w)).
Proof.
  unfold refresh_emails_and_jobs, ui_bind at 1, on_world at 1, get_email_watcher.
  destruct (email_watcher w) eqn:Hwatcher.
  - unfold ui_try_except, ui_bind at 1, on_world at 1.
    rewrite call_run_without_arguments, Hwatcher.
    unfold ui_bind, on_screen, print_notice; simpl.
    now rewrite <- app_assoc.
  - reflexivity.
Qed.
